(** * ACA pricing dashboard: the pricing formula and the market statistics

    A shallow embedding of [aca_pricing_dashboard.py]: the function
    [get_real_pricing], the table of [get_market_data], and of
    [render_pricing_calculator] the input widgets, the session state and
    the market comparison.  The other pages and the charts are not
    modelled.

    The numbers of the program are Python numbers: unbounded integers and
    binary64 floats.  Floats are Rocq's primitive binary64 floats, so every
    float operation below rounds exactly as the Python interpreter does; a
    decimal literal such as [5.99] denotes the binary64 value nearest to
    it, as in Python.  Arithmetic that Python can refuse ([OverflowError],
    [ZeroDivisionError]) lives in an exception monad; [get_real_pricing]
    catches every exception and returns [None].

    The theorems on all inputs rest on the specification of the float
    operations ([SpecFloat], [FloatAxioms]); the second half of the file
    derives from it that comparison is the integer order of the bit
    patterns and that addition is monotone. *)

From Stdlib Require Import ZArith Floats List String Bool Lia.
Import ListNotations.
Set Warnings "-inexact-float".

Local Open Scope Z_scope.

(** ** Python numbers *)

Module PyNum.

(** The exceptions the arithmetic of the program can raise. *)
Inductive PyExc : Type :=
| ZeroDivisionError
| OverflowError.

(** A computation that returns a value or raises. *)
Definition exc (A : Type) : Type := (PyExc + A)%type.

Definition ret {A : Type} (a : A) : exc A := inr a.
Definition raise {A : Type} (e : PyExc) : exc A := inl e.
Definition bind {A B : Type} (c : exc A) (k : A -> exc B) : exc B :=
  match c with
  | inl e => inl e
  | inr a => k a
  end.

Inductive pynum : Type :=
| PyInt (z : Z)
| PyFloat (f : float).

(** The integer [z] rounded to nearest-even in binary64, as a specification
    float; an infinity when it does not fit. *)
Definition Z2SF (z : Z) : spec_float := binary_normalize prec emax z 0 false.

(** The same rounding as a float (used for counts, which always fit). *)
Definition Z2float (z : Z) : float := SF2Prim (Z2SF z).

(** [float(z)] for an int [z]: correctly rounded, [OverflowError] when the
    int is too large for a float. *)
Definition float_of_int (z : Z) : exc float :=
  match Z2SF z with
  | S754_infinity _ => raise OverflowError
  | s => ret (SF2Prim s)
  end.

(** The implicit conversion of an operand of mixed arithmetic. *)
Definition as_float (x : pynum) : exc float :=
  match x with
  | PyInt z => float_of_int z
  | PyFloat f => ret f
  end.

(** [a / b] on two ints: the correctly rounded quotient;
    [ZeroDivisionError] for [b = 0], a signed zero for [a = 0],
    [OverflowError] when the quotient is too large for a float. *)
Definition int_true_divide (a b : Z) : exc float :=
  if b =? 0 then raise ZeroDivisionError
  else
    let negate := xorb (a <? 0) (b <? 0) in
    if a =? 0 then ret (if negate then neg_zero else zero)
    else
      let '(q, e, l) := SFdiv_core_binary prec emax (Z.abs a) 0 (Z.abs b) 0 in
      match binary_round_aux prec emax negate q e l with
      | S754_infinity _ => raise OverflowError
      | s => ret (SF2Prim s)
      end.

Definition py_add (a b : pynum) : exc pynum :=
  match a, b with
  | PyInt x, PyInt y => ret (PyInt (x + y))
  | _, _ =>
      bind (as_float a) (fun x =>
      bind (as_float b) (fun y =>
      ret (PyFloat (x + y)%float)))
  end.

Definition py_sub (a b : pynum) : exc pynum :=
  match a, b with
  | PyInt x, PyInt y => ret (PyInt (x - y))
  | _, _ =>
      bind (as_float a) (fun x =>
      bind (as_float b) (fun y =>
      ret (PyFloat (x - y)%float)))
  end.

Definition py_mul (a b : pynum) : exc pynum :=
  match a, b with
  | PyInt x, PyInt y => ret (PyInt (x * y))
  | _, _ =>
      bind (as_float a) (fun x =>
      bind (as_float b) (fun y =>
      ret (PyFloat (x * y)%float)))
  end.

(** True division [a / b]: a float division raises [ZeroDivisionError] on a
    zero divisor of either sign instead of producing an infinity or a NaN. *)
Definition py_truediv (a b : pynum) : exc pynum :=
  match a, b with
  | PyInt x, PyInt y => bind (int_true_divide x y) (fun q => ret (PyFloat q))
  | _, _ =>
      bind (as_float a) (fun x =>
      bind (as_float b) (fun y =>
      if (y =? 0)%float then raise ZeroDivisionError
      else ret (PyFloat (x / y)%float)))
  end.

(** Python compares an int with a float by value, without rounding the int.
    [None] when the float is a NaN. *)
Definition Z_SF_compare (z : Z) (s : spec_float) : option comparison :=
  match s with
  | S754_nan => None
  | S754_infinity sg => Some (if sg then Gt else Lt)
  | S754_zero _ => Some (z ?= 0)
  | S754_finite sg m e =>
      let v := cond_Zopp sg (Zpos m) in
      Some match e with
           | Zneg p => (z * 2 ^ Zpos p ?= v)
           | _ => (z ?= v * 2 ^ e)
           end
  end.

Definition py_lt (a b : pynum) : bool :=
  match a, b with
  | PyInt x, PyInt y => x <? y
  | PyFloat x, PyFloat y => (x <? y)%float
  | PyInt x, PyFloat y =>
      match Z_SF_compare x (Prim2SF y) with Some Lt => true | _ => false end
  | PyFloat x, PyInt y =>
      match Z_SF_compare y (Prim2SF x) with Some Gt => true | _ => false end
  end.

Definition py_le (a b : pynum) : bool :=
  match a, b with
  | PyInt x, PyInt y => x <=? y
  | PyFloat x, PyFloat y => (x <=? y)%float
  | PyInt x, PyFloat y =>
      match Z_SF_compare x (Prim2SF y) with Some (Lt | Eq) => true | _ => false end
  | PyFloat x, PyInt y =>
      match Z_SF_compare y (Prim2SF x) with Some (Gt | Eq) => true | _ => false end
  end.

Definition py_gt (a b : pynum) : bool := py_lt b a.

(** [max(a, b)] keeps [a] unless [b > a]; [min(a, b)] keeps [a] unless
    [b < a].  With a NaN every comparison is false and [a] is kept. *)
Definition py_max (a b : pynum) : pynum := if py_gt b a then b else a.
Definition py_min (a b : pynum) : pynum := if py_lt b a then b else a.

End PyNum.

Import PyNum.

Declare Scope exc_scope.
Delimit Scope exc_scope with exc.
Notation "x <- c ;; k" := (bind c (fun x => k))
  (at level 61, c at next level, right associativity) : exc_scope.

(** ** The pricing function *)

Module Pricing.

Local Open Scope exc_scope.

(** The dictionary [get_real_pricing] returns. *)
Record PricingResult : Type := {
  apr : pynum;
  risk_probability : pynum;
  expected_profit : pynum;
  profit_margin : pynum;
  confidence : string;
  optimization_applied : string;
  risk_tier : string
}.

(** The body of the [try] block of [get_real_pricing], statement by
    statement; an exception of the arithmetic leaves it at once. *)
Definition pricing_try (loan_amnt annual_inc dti grade_num : pynum)
  : exc PricingResult :=
  (* base_rate = 8.0 + (grade_num - 1) * 2.0 *)
  g1 <- py_sub grade_num (PyInt 1) ;;
  g2 <- py_mul g1 (PyFloat 2.0) ;;
  base_rate <- py_add (PyFloat 8.0) g2 ;;
  (* dti_adj = max(0, (dti - 20) * 0.05) *)
  d1 <- py_sub dti (PyInt 20) ;;
  d2 <- py_mul d1 (PyFloat 0.05) ;;
  let dti_adj := py_max (PyInt 0) d2 in
  (* income_adj = max(-0.5, min(0.5, (60000 - annual_inc) / 100000)) *)
  i1 <- py_sub (PyInt 60000) annual_inc ;;
  i2 <- py_truediv i1 (PyInt 100000) ;;
  let income_adj := py_max (PyFloat (-0.5)) (py_min (PyFloat 0.5) i2) in
  (* final_rate = base_rate + dti_adj + income_adj *)
  f1 <- py_add base_rate dti_adj ;;
  f2 <- py_add f1 income_adj ;;
  (* final_rate = max(5.99, min(29.99, final_rate)) *)
  let final_rate := py_max (PyFloat 5.99) (py_min (PyFloat 29.99) f2) in
  (* risk_score = min(0.4, max(0.02, 0.05 + (grade_num - 1) * 0.05)) *)
  r1 <- py_sub grade_num (PyInt 1) ;;
  r2 <- py_mul r1 (PyFloat 0.05) ;;
  r3 <- py_add (PyFloat 0.05) r2 ;;
  let risk_score := py_min (PyFloat 0.4) (py_max (PyFloat 0.02) r3) in
  (* revenue = loan_amnt * (final_rate / 100) * 4 *)
  v1 <- py_truediv final_rate (PyInt 100) ;;
  v2 <- py_mul loan_amnt v1 ;;
  revenue <- py_mul v2 (PyInt 4) ;;
  (* costs = risk_score * loan_amnt * 0.5 + 300 + loan_amnt * 0.025 * 4 *)
  c1 <- py_mul risk_score loan_amnt ;;
  c2 <- py_mul c1 (PyFloat 0.5) ;;
  c3 <- py_add c2 (PyInt 300) ;;
  c4 <- py_mul loan_amnt (PyFloat 0.025) ;;
  c5 <- py_mul c4 (PyInt 4) ;;
  costs <- py_add c3 c5 ;;
  (* profit = revenue - costs *)
  profit <- py_sub revenue costs ;;
  (* 'profit_margin': profit / loan_amnt *)
  margin <- py_truediv profit loan_amnt ;;
  ret {| apr := final_rate;
         risk_probability := risk_score;
         expected_profit := profit;
         profit_margin := margin;
         confidence := "High";
         optimization_applied := "Enhanced_Model";
         risk_tier :=
           if py_le grade_num (PyInt 2) then "Prime"
           else if py_le grade_num (PyInt 4) then "Near Prime"
           else "Subprime" |}.

(** [get_real_pricing]: the [except Exception] clause reports the error on
    the page and returns [None].  (The function is wrapped in a result
    cache; it is pure, so the cache does not change what it returns.) *)
Definition get_real_pricing (loan_amnt annual_inc dti grade_num : pynum)
  : option PricingResult :=
  match pricing_try loan_amnt annual_inc dti grade_num with
  | inr result => Some result
  | inl _ => None
  end.

End Pricing.

Import Pricing.

(** ** The market data and its statistics *)

Module Market.

Record MarketRateObservation : Type := {
  source : string;
  rate : float;
  loan_type : string
}.

Definition obs (s : string) (r : float) (t : string) : MarketRateObservation :=
  {| source := s; rate := r; loan_type := t |}.

(** The rows of [market_rates] in [get_market_data], in table order.  (The
    date and timestamp columns the function adds are not modelled.) *)
Definition market_rates : list MarketRateObservation :=
  [ obs "Bankrate" 10.00%float "auto_loan";
    obs "Bankrate" 6.49%float "auto_loan";
    obs "Bankrate" 15.29%float "auto_loan";
    obs "Bankrate" 14.07%float "auto_loan";
    obs "Bankrate" 16.20%float "auto_loan";
    obs "Bankrate" 4.67%float "auto_loan";
    obs "Bankrate" 5.99%float "auto_loan";
    obs "Bankrate" 12.50%float "auto_loan";
    obs "Yahoo_Finance" 4.26%float "10yr_treasury";
    obs "Yahoo_Finance" 3.81%float "5yr_treasury";
    obs "Yahoo_Finance" 4.82%float "30yr_treasury" ].

Definition get_market_data : list MarketRateObservation := market_rates.

(** [market_data[market_data['loan_type'] == t]['rate']]. *)
Definition rates_of_type (t : string) (market_data : list MarketRateObservation)
  : list float :=
  map rate (filter (fun o => String.eqb (loan_type o) t) market_data).

(** [series <= x], element by element. *)
Definition series_le (series : list float) (x : float) : list bool :=
  map (fun r => (r <=? x)%float) series.

(** The number of [True] entries of a boolean series. *)
Definition count_true (mask : list bool) : Z :=
  Z.of_nat (List.length (filter (fun b => b) mask)).

(** [mask.mean()] of a non-empty boolean series: the sum of its entries as
    0.0 and 1.0 over its length.  Such a sum is an exact integer whatever
    the order of the additions, so it is the count of [True] entries. *)
Definition mean_bool (mask : list bool) : float :=
  (Z2float (count_true mask) / Z2float (Z.of_nat (List.length mask)))%float.

(** The four position labels of the market comparison. *)
Definition position_label (percentile : float) : string :=
  if (percentile <=? 25)%float then "Very Competitive"
  else if (percentile <=? 50)%float then "Competitive"
  else if (percentile <=? 75)%float then "Market Rate"
  else "Premium".

(** The percentile of [render_pricing_calculator]:
    [(auto_rates <= apr).mean() * 100], computed only under the guard
    [if not auto_rates.empty]; [None] when the guard skips the block. *)
Definition percentile_rank (x : float) (observations : list float)
  : option float :=
  match observations with
  | [] => None
  | _ => Some (mean_bool (series_le observations x) * 100)%float
  end.

Section Mean.

(** [Series.mean()] divides the sum of the entries by their number.  The
    sum is computed by the numeric library, which fixes the order of the
    additions; that order is not part of this program, so the summation
    is a parameter here. *)
Variable series_sum : list float -> float.

(** [series.mean()] of a float series without missing values: NaN for the
    empty series, no exception. *)
Definition series_mean (series : list float) : float :=
  match series with
  | [] => nan
  | _ => (series_sum series / Z2float (Z.of_nat (List.length series)))%float
  end.

(** The market comparison of [render_pricing_calculator]: the average is
    taken before the emptiness guard, the percentile and the position
    inside it.  No statement of the block raises. *)
Definition market_comparison (x : float) (observations : list float)
  : exc (float * option (float * string)) :=
  let market_avg := series_mean observations in
  ret (market_avg,
       match percentile_rank x observations with
       | Some p => Some (p, position_label p)
       | None => None
       end).

End Mean.

(** Two ways a library sums a float series: from left to right, and the
    pairwise scheme with eight running sums that numpy uses from eight
    entries on.  The second is written out for exactly eight entries,
    the length of the auto-loan series; below eight entries numpy sums
    from left to right, longer series are not modelled. *)
Definition sum_left_to_right (series : list float) : float :=
  fold_left PrimFloat.add series 0%float.

Definition sum_pairwise8 (series : list float) : float :=
  match series with
  | [r0; r1; r2; r3; r4; r5; r6; r7] =>
      (((r0 + r1) + (r2 + r3)) + ((r4 + r5) + (r6 + r7)))%float
  | _ => sum_left_to_right series
  end.

End Market.

Import Market.

(** ** Derived definitions

    The contributions of the inputs to the rate, named so that the
    theorems can speak about them. *)

Section Derived.

Local Open Scope float_scope.

(** The float a grade, a DTI and an income contribute to the formula:
    [grade_num - 1], [(dti - 20) * 0.05] and
    [(60000 - annual_inc) / 100000], with Python's conversions. *)
Definition grade_steps (grade_num : pynum) : exc float :=
  bind (py_sub grade_num (PyInt 1)) as_float.

Definition dti_steps (dti : pynum) : exc float :=
  bind (py_sub dti (PyInt 20)) (fun d1 =>
  bind (as_float d1) (fun fd => ret (fd * 0.05))).

Definition income_steps (annual_inc : pynum) : exc pynum :=
  bind (py_sub (PyInt 60000) annual_inc) (fun i1 =>
  py_truediv i1 (PyInt 100000)).

(** [max(0, x)] as the float the next addition sees: [x] when [x > 0],
    the int [0] converted otherwise. *)
Definition dti_adj_of (x : float) : float :=
  match py_max (PyInt 0) (PyFloat x) with
  | PyInt z => Z2float z
  | PyFloat f => f
  end.

(** [max(-0.5, min(0.5, q))]. *)
Definition income_adj_of (q : float) : float :=
  let m := if q <? 0.5 then q else 0.5 in
  if (-0.5) <? m then m else (-0.5).

(** [max(5.99, min(29.99, x))] and [min(0.4, max(0.02, x))]. *)
Definition clamp_rate (x : float) : float :=
  let m := if x <? 29.99 then x else 29.99 in
  if 5.99 <? m then m else 5.99.

Definition clamp_risk (x : float) : float :=
  let m := if 0.02 <? x then x else 0.02 in
  if m <? 0.4 then m else 0.4.

(** The call of the worked example. *)
Definition example_call : option PricingResult :=
  get_real_pricing (PyInt 25000) (PyInt 65000) (PyFloat 18.0) (PyInt 3).

(** The auto-loan rates of the snapshot. *)
Definition auto_rates : list float :=
  rates_of_type "auto_loan" get_market_data.

(** In the words of the specification: the fraction of the observations
    whose rate is at most [x]. *)
Definition fraction_le (x : float) (observations : list float) : float :=
  Z2float (Z.of_nat (List.length (filter (fun r => r <=? x) observations)))
  / Z2float (Z.of_nat (List.length observations)).

(** The risk tier of a grade, as the result record computes it. *)
Definition risk_tier_of (grade_num : pynum) : string :=
  if py_le grade_num (PyInt 2) then "Prime"
  else if py_le grade_num (PyInt 4) then "Near Prime"
  else "Subprime".

(** The record of a successful run, from the floats the loan amount, the
    grade, the DTI and the income contribute. *)
Definition result_of (fl fg x q : float) (tier : string) : PricingResult :=
  let final_rate := clamp_rate (8.0 + fg * 2.0 + dti_adj_of x + income_adj_of q) in
  let risk_score := clamp_risk (0.05 + fg * 0.05) in
  let revenue := fl * (final_rate / 100) * 4 in
  let costs := risk_score * fl * 0.5 + 300 + fl * 0.025 * 4 in
  let profit := revenue - costs in
  {| apr := PyFloat final_rate;
     risk_probability := PyFloat risk_score;
     expected_profit := PyFloat profit;
     profit_margin := PyFloat (profit / fl);
     confidence := "High";
     optimization_applied := "Enhanced_Model";
     risk_tier := tier |}.

(** Whether a number equals zero, as [x == 0] decides it. *)
Definition py_is_zero (x : pynum) : bool :=
  match x with
  | PyInt z => (z =? 0)%Z
  | PyFloat f => f =? 0
  end.

(** Inputs without overflow: any float, any int below 2^1000 in magnitude. *)
Definition ordinary (x : pynum) : Prop :=
  match x with
  | PyInt z => (Z.abs z < 2 ^ 1000)%Z
  | PyFloat _ => True
  end.

End Derived.

(** ** Binary64 rounding, in integers

    The specification of the float operations rounds with a shift
    register; the definitions below restate that rounding on integers.
    A finite float is an integer multiple of 2^-1074, and its position in
    the increasing sequence of the floats is its bit pattern. *)

(** Round [a / 2^k] to the nearest integer, ties to even. *)
Definition rne (a k : Z) : Z :=
  let q := a / 2 ^ k in
  match 2 * (a mod 2 ^ k) ?= 2 ^ k with
  | Lt => q
  | Eq => if Z.even q then q else q + 1
  | Gt => q + 1
  end.

(** The shift register of the specification after [n] right shifts of the
    mantissa [m0]: the quotient, the round bit (the remainder is at least
    a half) and the sticky bit (the remainder is neither zero nor a half). *)
Definition shr_spec (m0 n : Z) : shr_record :=
  {| shr_m := m0 / 2 ^ n;
     shr_r := 2 ^ n <=? 2 * (m0 mod 2 ^ n);
     shr_s := negb (2 * (m0 mod 2 ^ n) =? 0) && negb (2 * (m0 mod 2 ^ n) =? 2 ^ n) |}.

(** The float of the rounded mantissa [m1] at exponent [t]: a carry to
    2^53 moves to the next exponent, an exponent above 971 overflows. *)
Definition finish_round (sx : bool) (m1 t : Z) : spec_float :=
  if m1 =? 0 then S754_zero sx
  else
    let '(m2, e2) := if m1 =? 2 ^ 53 then (2 ^ 52, t + 1) else (m1, t) in
    if e2 <=? 971 then S754_finite sx (Z.to_pos m2) e2 else S754_infinity sx.

(** The number of the positions dropped when [N], a positive multiple of
    2^-1074, is rounded to 53 bits. *)
Definition drop (N : Z) : Z := Z.max (Zdigits2 N - 53) 0.

(** The float that [N] units of 2^-1074 round to, with sign [sx]. *)
Definition round_pos (sx : bool) (N : Z) : spec_float :=
  finish_round sx (rne N (drop N)) (drop N - 1074).

(** The position of plus infinity. *)
Definition ord_inf : Z := 2047 * 2 ^ 52.

(** The position of a float in the increasing sequence of all floats: the
    bit pattern read as an integer, negated for the negative floats. *)
Definition ord (s : spec_float) : Z :=
  match s with
  | S754_zero _ => 0
  | S754_finite sg m e => cond_Zopp sg ((e + 1074) * 2 ^ 52 + Zpos m)
  | S754_infinity sg => cond_Zopp sg ord_inf
  | S754_nan => 0
  end.

(** The position of the float that [N] units of 2^-1074 round to, before
    the overflow test. *)
Definition RN (N : Z) : Z := drop N * 2 ^ 52 + rne N (drop N).

(** The value of a finite float, in units of 2^-1074. *)
Definition Vz (s : spec_float) : Z :=
  match s with
  | S754_finite sg m e => cond_Zopp sg (Zpos m * 2 ^ (e + 1074))
  | _ => 0
  end.

(** Neither a NaN nor an infinity. *)
Definition finite_or_zero (s : spec_float) : bool :=
  match s with
  | S754_zero _ | S754_finite _ _ _ => true
  | _ => false
  end.

Definition not_nan (s : spec_float) : bool :=
  match s with
  | S754_nan => false
  | _ => true
  end.

(** Exponents first, then mantissas: the order in which the specification
    compares two finite floats of the same sign. *)
Definition lex_compare (e1 m1 e2 m2 : Z) : comparison :=
  match e1 ?= e2 with
  | Lt => Lt
  | Gt => Gt
  | Eq => m1 ?= m2
  end.

Section FloatViews.

Local Open Scope float_scope.

(** Position, value, finiteness and not being a NaN, on primitive floats. *)
Definition ordf (x : float) : Z := ord (Prim2SF x).
Definition value (x : float) : Z := Vz (Prim2SF x).
Definition is_fin (x : float) : bool := finite_or_zero (Prim2SF x).
Definition is_num (x : float) : bool := not_nan (Prim2SF x).

(** A float is positive or plus infinity. *)
Definition pos_num (x : float) : Prop :=
  is_num x = true /\ (0 < ordf x)%Z.

End FloatViews.

(** ** Signed rounding and rounded quotients

    The positions that sums, products, quotients and converted ints
    round to, for every sign. *)

(** The position of the float that [N] units of [2^-(1074+u)] round to,
    before the overflow test. *)
Definition RNu (u N : Z) : Z :=
  let k := Z.max (Zdigits2 N - 53) u in (k - u) * 2 ^ 52 + rne N k.

(** The position of the float the signed number [v] of such units rounds
    to. *)
Definition sround_u (u v : Z) : Z :=
  match v with
  | 0 => 0
  | Zpos _ => Z.min (RNu u v) ord_inf
  | Zneg p => - Z.min (RNu u (Zpos p)) ord_inf
  end.

Definition sround (v : Z) : Z := sround_u 0 v.

(** Round [a / d] to the nearest integer, ties to even. *)
Definition rnq (a d : Z) : Z :=
  let q := a / d in
  match 2 * (a mod d) ?= d with
  | Lt => q
  | Eq => if Z.even q then q else q + 1
  | Gt => q + 1
  end.

(** The shift register of the specification for the quotient [a / d]: the
    integer quotient, the round bit (the remainder is at least a half of
    [d]) and the sticky bit (the remainder is neither zero nor a half). *)
Definition shr_quot (a d : Z) : shr_record :=
  {| shr_m := a / d;
     shr_r := d <=? 2 * (a mod d);
     shr_s := negb (2 * (a mod d) =? 0) && negb (2 * (a mod d) =? d) |}.

(** The position of the float that the quotient [A / B], counted in units
    of 2^-1074, rounds to, before the overflow test. *)
Definition RQ (A B : Z) : Z :=
  let k := Z.max (Zdigits2 (A / B) - 53) 0 in k * 2 ^ 52 + rnq A (B * 2 ^ k).

(** The same for a signed numerator. *)
Definition srq (a b : Z) : Z :=
  match a with
  | 0 => 0
  | Zpos _ => Z.min (RQ a b) ord_inf
  | Zneg p => - Z.min (RQ (Zpos p) b) ord_inf
  end.

(** Whether two numbers are both ints or both floats. *)
Definition same_kind (a b : pynum) : bool :=
  match a, b with
  | PyInt _, PyInt _ | PyFloat _, PyFloat _ => true
  | _, _ => false
  end.

(** A float that is not a NaN and lies between two floats. *)
Definition between (lo x hi : float) : Prop :=
  is_num x = true /\ ordf lo <= ordf x <= ordf hi.

(** ** The calculator page

    The input widgets of [render_pricing_calculator], the button and the
    two keys of the session state that carry the result from one run of
    the page to the next. *)

Module Calculator.

(** The values of the four input widgets of [render_pricing_calculator]:
    two integer [number_input]s, a float [slider] and a [selectbox] over
    the ints 1 to 7; they are stored as [input_params]. *)
Record InputParams : Type := {
  loan_amount : Z;
  annual_income : Z;
  debt_to_income : float;
  credit_grade : Z
}.

(** The ranges the widgets are declared with. *)
Definition in_widget_ranges (w : InputParams) : Prop :=
  5000 <= loan_amount w <= 50000
  /\ 15000 <= annual_income w <= 300000
  /\ (0.0 <=? debt_to_income w)%float = true
  /\ (debt_to_income w <=? 50.0)%float = true
  /\ 1 <= credit_grade w <= 7.

(** The tier named in the label of a grade in the selector, the
    conditional expression of its [format_func]. *)
Definition grade_label_tier (x : Z) : string :=
  if x =? 1 then "Super Prime"
  else if x =? 2 then "Prime"
  else if x =? 3 then "Near Prime"
  else if x <=? 5 then "Subprime"
  else "Deep Subprime".

(** The call the button makes. *)
Definition price (w : InputParams) : option PricingResult :=
  get_real_pricing (PyInt (loan_amount w)) (PyInt (annual_income w))
                   (PyFloat (debt_to_income w)) (PyInt (credit_grade w)).

(** The two keys of [st.session_state] the page uses; [None] is a key
    that is not set, [Some None] the value [None]. *)
Record SessionState : Type := {
  pricing_result : option (option PricingResult);
  input_params : option InputParams
}.

Definition fresh_session : SessionState :=
  {| pricing_result := None; input_params := None |}.

(** What the results column does: it shows the stored result with the
    stored inputs, or the prompt, or it fails on the missing key
    [input_params]. *)
Inductive ResultsColumn : Type :=
| ShowResults (result : PricingResult) (params : InputParams)
| ShowPrompt
| MissingKey.

(** The left column: on a click the result and the inputs are stored. *)
Definition customer_column (clicked : bool) (w : InputParams) (s : SessionState)
  : SessionState :=
  if clicked then {| pricing_result := Some (price w); input_params := Some w |}
  else s.

(** The right column: [if 'pricing_result' in st.session_state and
    st.session_state.pricing_result:], a result dictionary being truthy
    and [None] falsy. *)
Definition results_column (s : SessionState) : ResultsColumn :=
  match pricing_result s with
  | Some (Some result) =>
      match input_params s with
      | Some params => ShowResults result params
      | None => MissingKey
      end
  | _ => ShowPrompt
  end.

(** One run of the page: the widgets hold [w], the button was clicked or
    not. *)
Definition render_pricing_calculator (clicked : bool) (w : InputParams)
  (s : SessionState) : SessionState * ResultsColumn :=
  let s' := customer_column clicked w s in (s', results_column s').

(** The session state after a sequence of runs. *)
Fixpoint session (runs : list (bool * InputParams)) (s : SessionState)
  : SessionState :=
  match runs with
  | [] => s
  | (clicked, w) :: rest => session rest (fst (render_pricing_calculator clicked w s))
  end.

End Calculator.

Import Calculator.

(** The inputs of the worked example, as the widgets hold them. *)
Definition example_inputs : InputParams :=
  {| loan_amount := 25000; annual_income := 65000;
     debt_to_income := 18.0%float; credit_grade := 3 |}.

(** * Facts on binary64 rounding *)

(** ** Binary digits and rounding to an integer *)

Lemma pow2_pos (k : Z) : 0 <= k -> 0 < 2 ^ k.
Proof. intros. apply Z.pow_pos_nonneg; lia. Qed.

(** A number of [d] binary digits lies in [2^(d-1), 2^d). *)
Lemma digits2_pos_bounds (m : positive) :
  2 ^ (Zpos (digits2_pos m) - 1) <= Zpos m < 2 ^ Zpos (digits2_pos m).
Proof.
  induction m as [m IH | m IH | ]; simpl digits2_pos.
  - rewrite Pos2Z.inj_succ. replace (Z.succ (Zpos (digits2_pos m)) - 1) with (Z.succ (Zpos (digits2_pos m) - 1)) by lia.
    rewrite !Z.pow_succ_r by lia. lia.
  - rewrite Pos2Z.inj_succ. replace (Z.succ (Zpos (digits2_pos m)) - 1) with (Z.succ (Zpos (digits2_pos m) - 1)) by lia.
    rewrite !Z.pow_succ_r by lia. lia.
  - simpl. lia.
Qed.

Lemma Zdigits2_bounds (n : Z) :
  0 < n -> 2 ^ (Zdigits2 n - 1) <= n < 2 ^ Zdigits2 n.
Proof. destruct n; try lia. intros _. apply digits2_pos_bounds. Qed.

Lemma Zdigits2_pos (n : Z) : 0 < n -> 0 < Zdigits2 n.
Proof. destruct n; simpl; lia. Qed.

Lemma Zdigits2_unique (n d : Z) :
  2 ^ (d - 1) <= n < 2 ^ d -> 0 < n -> Zdigits2 n = d.
Proof.
  intros H Hn. pose proof (Zdigits2_bounds n Hn) as B.
  pose proof (Zdigits2_pos n Hn) as P.
  assert (0 < d).
  { destruct (Z_lt_le_dec 0 d); [assumption | ].
    assert (2 ^ d <= 1).
    { destruct (Z.eq_dec d 0) as [-> | ]; [simpl; lia | ].
      rewrite Z.pow_neg_r by lia. lia. }
    lia. }
  destruct (Z.lt_trichotomy (Zdigits2 n) d) as [L | [E | G]]; [ | assumption | ].
  - assert (2 ^ Zdigits2 n <= 2 ^ (d - 1)) by (apply Z.pow_le_mono_r; lia). lia.
  - assert (2 ^ d <= 2 ^ (Zdigits2 n - 1)) by (apply Z.pow_le_mono_r; lia). lia.
Qed.

Lemma Zdigits2_shift (n j : Z) :
  0 < n -> 0 <= j -> Zdigits2 (n * 2 ^ j) = Zdigits2 n + j.
Proof.
  intros Hn Hj. pose proof (Zdigits2_bounds n Hn) as B.
  pose proof (Zdigits2_pos n Hn) as P. pose proof (pow2_pos j Hj).
  apply Zdigits2_unique; [ | nia].
  replace (Zdigits2 n + j - 1) with ((Zdigits2 n - 1) + j) by lia.
  rewrite !Z.pow_add_r by lia. nia.
Qed.

Lemma Zdigits2_le (a b : Z) : 0 < a -> a <= b -> Zdigits2 a <= Zdigits2 b.
Proof.
  intros Ha Hab. pose proof (Zdigits2_bounds a Ha). pose proof (Zdigits2_bounds b ltac:(lia)).
  destruct (Z_le_gt_dec (Zdigits2 a) (Zdigits2 b)); [assumption | ].
  assert (2 ^ Zdigits2 b <= 2 ^ (Zdigits2 a - 1)).
  { apply Z.pow_le_mono_r; [lia | ]. lia. }
  lia.
Qed.

(** rne facts *)
Lemma rne_0 (a : Z) : rne a 0 = a.
Proof. unfold rne. simpl. rewrite Z.mod_1_r, Z.div_1_r. reflexivity. Qed.

Lemma rne_bounds (a k : Z) : 0 <= k -> a / 2 ^ k <= rne a k <= a / 2 ^ k + 1.
Proof.
  intros. unfold rne. destruct (_ ?= _); [destruct (Z.even _) | | ]; lia.
Qed.

(** Rounding to nearest-even is monotone. *)
Lemma rne_mono (a b k : Z) : 0 <= k -> a <= b -> rne a k <= rne b k.
Proof.
  intros Hk Hab. pose proof (pow2_pos k Hk) as P.
  pose proof (rne_bounds a k Hk). pose proof (rne_bounds b k Hk).
  assert (a / 2 ^ k <= b / 2 ^ k) by (apply Z.div_le_mono; lia).
  destruct (Z.eq_dec (a / 2 ^ k) (b / 2 ^ k)) as [E | N]; [ | lia].
  assert (a mod 2 ^ k <= b mod 2 ^ k).
  { pose proof (Z.div_mod a (2 ^ k)). pose proof (Z.div_mod b (2 ^ k)). nia. }
  unfold rne. rewrite <- E.
  destruct (Z.compare_spec (2 * (a mod 2 ^ k)) (2 ^ k));
    destruct (Z.compare_spec (2 * (b mod 2 ^ k)) (2 ^ k));
    try destruct (Z.even _); lia.
Qed.

(** Scaling the argument and the shift together changes nothing. *)
Lemma rne_scale (a k j : Z) : 0 <= k -> 0 <= j -> rne (a * 2 ^ j) (k + j) = rne a k.
Proof.
  intros Hk Hj. pose proof (pow2_pos k Hk). pose proof (pow2_pos j Hj).
  unfold rne. rewrite Z.pow_add_r by lia.
  rewrite Z.div_mul_cancel_r by lia.
  rewrite Zmult_mod_distr_r.
  replace (2 * (a mod 2 ^ k * 2 ^ j)) with ((2 * (a mod 2 ^ k)) * 2 ^ j) by ring.
  replace ((2 * (a mod 2 ^ k)) * 2 ^ j ?= 2 ^ k * 2 ^ j) with (2 * (a mod 2 ^ k) ?= 2 ^ k).
  - reflexivity.
  - destruct (Z.compare_spec (2 * (a mod 2 ^ k)) (2 ^ k)); symmetry;
      [apply Z.compare_eq_iff | apply Z.compare_lt_iff | apply Z.compare_gt_iff]; nia.
Qed.

Lemma rne_exact (a k : Z) : 0 <= k -> rne (a * 2 ^ k) k = a.
Proof.
  intros. replace k with (0 + k) at 2 by lia. rewrite rne_scale by lia. apply rne_0.
Qed.

(** ** Shifting right with a round bit and a sticky bit *)

(** One step of the shift register, on a mantissa that is not negative. *)
Lemma shr_1_nonneg (mrs : shr_record) :
  0 <= shr_m mrs ->
  shr_1 mrs = {| shr_m := Z.div2 (shr_m mrs);
                 shr_r := Z.odd (shr_m mrs);
                 shr_s := shr_r mrs || shr_s mrs |}.
Proof.
  destruct mrs as [[ | [p | p | ] | p] r s]; simpl; intros; try reflexivity; lia.
Qed.

Lemma shr_spec_0 (m0 : Z) :
  shr_spec m0 0 = {| shr_m := m0; shr_r := false; shr_s := false |}.
Proof.
  unfold shr_spec. simpl (2 ^ 0). rewrite Z.div_1_r, Z.mod_1_r. reflexivity.
Qed.

Lemma shr_spec_step (m0 n : Z) :
  0 <= m0 -> 0 <= n -> shr_1 (shr_spec m0 n) = shr_spec m0 (n + 1).
Proof.
  intros Hm Hn. pose proof (pow2_pos n Hn) as P.
  rewrite shr_1_nonneg by (simpl; apply Z.div_pos; lia).
  unfold shr_spec. cbn [shr_m shr_r shr_s].
  rewrite Z.pow_add_r, Z.pow_1_r by lia.
  pose proof (Z.div_mod m0 (2 ^ n) ltac:(lia)) as D.
  pose proof (Z.mod_pos_bound m0 (2 ^ n) P) as B.
  rewrite Z.rem_mul_r by lia.
  rewrite Z.div2_div, Z.div_div by lia.
  set (q := m0 / 2 ^ n) in *. set (rm := m0 mod 2 ^ n) in *.
  rewrite (Zmod_odd q).
  clearbody q rm.
  destruct (Z.odd q); f_equal.
  - symmetry. apply Z.leb_le. lia.
  - destruct (Z.leb_spec (2 ^ n) (2 * rm)); destruct (Z.eqb_spec (2 * rm) 0);
      destruct (Z.eqb_spec (2 * rm) (2 ^ n));
      destruct (Z.eqb_spec (2 * (rm + 2 ^ n * 1)) 0);
      destruct (Z.eqb_spec (2 * (rm + 2 ^ n * 1)) (2 ^ n * 2));
      simpl; try reflexivity; lia.
  - symmetry. apply Z.leb_gt. lia.
  - replace (rm + 2 ^ n * 0) with rm by lia.
      destruct (Z.leb_spec (2 ^ n) (2 * rm)); destruct (Z.eqb_spec (2 * rm) 0);
        destruct (Z.eqb_spec (2 * rm) (2 ^ n)); destruct (Z.eqb_spec (2 * rm) (2 ^ n * 2));
        simpl; try reflexivity; lia.
Qed.

(** The shift register after any number of steps. *)
Lemma iter_pos_shr_spec (m0 : Z) (p : positive) :
  0 <= m0 -> forall n, 0 <= n ->
  iter_pos shr_1 p (shr_spec m0 n) = shr_spec m0 (n + Zpos p).
Proof.
  intros Hm. induction p as [p IH | p IH | ]; intros n Hn; cbn [iter_pos].
  - rewrite shr_spec_step, IH, IH by lia. f_equal. lia.
  - rewrite IH, IH by lia. f_equal. lia.
  - apply shr_spec_step; assumption.
Qed.

Lemma shr_exact (m0 e n : Z) :
  0 <= m0 -> 0 <= n ->
  shr {| shr_m := m0; shr_r := false; shr_s := false |} e n = (shr_spec m0 n, e + n).
Proof.
  intros Hm Hn. rewrite <- shr_spec_0. destruct n as [ | p | p]; cbn [shr].
  - now rewrite Z.add_0_r.
  - now rewrite iter_pos_shr_spec by lia.
  - lia.
Qed.

(** Rounding by the round and sticky bits is [rne]. *)
Lemma round_shr_spec (m0 n : Z) :
  0 <= n ->
  round_nearest_even (shr_m (shr_spec m0 n)) (loc_of_shr_record (shr_spec m0 n))
  = rne m0 n.
Proof.
  intros Hn. pose proof (pow2_pos n Hn) as P.
  unfold shr_spec, rne, loc_of_shr_record, round_nearest_even. cbn [shr_m].
  destruct (Z.compare_spec (2 * (m0 mod 2 ^ n)) (2 ^ n));
    destruct (Z.leb_spec (2 ^ n) (2 * (m0 mod 2 ^ n)));
    destruct (Z.eqb_spec (2 * (m0 mod 2 ^ n)) 0);
    destruct (Z.eqb_spec (2 * (m0 mod 2 ^ n)) (2 ^ n));
    simpl; try reflexivity; lia.
Qed.

(** ** Rounding a positive number *)

Lemma fexp_eq (x : Z) : fexp prec emax x = Z.max (x - 53) (-1074).
Proof. reflexivity. Qed.

Lemma rne_lt_pow (m n d : Z) :
  0 <= n -> 0 <= d -> 0 <= m < 2 ^ (d + n) -> 0 <= rne m n <= 2 ^ d.
Proof.
  intros Hn Hd Hm. pose proof (pow2_pos n Hn). pose proof (pow2_pos d Hd).
  pose proof (rne_bounds m n Hn).
  rewrite Z.pow_add_r in Hm by lia.
  assert (m / 2 ^ n < 2 ^ d) by (apply Z.div_lt_upper_bound; nia).
  assert (0 <= m / 2 ^ n) by (apply Z.div_pos; lia).
  lia.
Qed.

(** The rounding of the specification, on an exact positive mantissa whose
    exponent is not above the target exponent. *)
Lemma binary_round_aux_exact (sx : bool) (m e : Z) :
  0 < m -> e <= fexp prec emax (Zdigits2 m + e) ->
  binary_round_aux prec emax sx m e loc_Exact
  = finish_round sx (rne m (fexp prec emax (Zdigits2 m + e) - e))
                 (fexp prec emax (Zdigits2 m + e)).
Proof.
  intros Hm Ht. set (t := fexp prec emax (Zdigits2 m + e)) in *.
  assert (Htm : -1074 <= t /\ Zdigits2 m + e - 53 <= t).
  { subst t. rewrite fexp_eq. lia. }
  unfold binary_round_aux, shr_fexp. cbn [shr_record_of_loc]. fold t.
  rewrite shr_exact by lia. rewrite round_shr_spec by lia.
  replace (e + (t - e)) with t by lia.
  set (m1 := rne m (t - e)).
  assert (B1 : 0 <= m1 <= 2 ^ 53).
  { apply rne_lt_pow; try lia. pose proof (Zdigits2_bounds m Hm).
    split; [lia | ].
    apply Z.lt_le_trans with (2 ^ Zdigits2 m); [lia | ].
    apply Z.pow_le_mono_r; lia. }
  unfold finish_round.
  destruct (Z.eqb_spec m1 0) as [E0 | N0].
  - rewrite E0. cbn [Zdigits2]. rewrite fexp_eq.
    assert (Hn : Z.max (0 + t - 53) (-1074) - t <= 0) by lia.
    destruct (Z.max (0 + t - 53) (-1074) - t) eqn:En; try lia; reflexivity.
  - destruct (Z.eqb_spec m1 (2 ^ 53)) as [E53 | N53].
    + rewrite E53. change (Zdigits2 (2 ^ 53)) with 54. rewrite fexp_eq.
      replace (Z.max (54 + t - 53) (-1074) - t) with 1 by lia.
      cbn [shr shr_1 iter_pos]. change (2 ^ 53) with (Zpos (xO (Z.to_pos (2 ^ 52)))).
      cbn [shr_1 shr_m fst snd]. reflexivity.
    + assert (Hd : Zdigits2 m1 <= 53).
      { pose proof (Zdigits2_bounds m1 ltac:(lia)).
        destruct (Z_le_gt_dec (Zdigits2 m1) 53); [assumption | ].
        assert (2 ^ 53 <= 2 ^ (Zdigits2 m1 - 1)) by (apply Z.pow_le_mono_r; lia).
        lia. }
      rewrite fexp_eq.
      assert (Hn : Z.max (Zdigits2 m1 + t - 53) (-1074) - t <= 0) by lia.
      destruct (Z.max (Zdigits2 m1 + t - 53) (-1074) - t) eqn:En; try lia;
        cbn [shr shr_m]; destruct m1; try lia; reflexivity.
Qed.

Lemma iter_xO_pow (m d : positive) : Zpos (Pos.iter xO m d) = Zpos m * 2 ^ Zpos d.
Proof.
  induction d as [ | d IH] using Pos.peano_ind.
  - simpl. lia.
  - rewrite Pos.iter_succ, Pos2Z.inj_xO, IH, Pos2Z.inj_succ, Z.pow_succ_r by lia. ring.
Qed.

Lemma shl_align_lt (mx : positive) (ex t : Z) :
  t < ex ->
  exists mz, shl_align mx ex t = (mz, t) /\ Zpos mz = Zpos mx * 2 ^ (ex - t).
Proof.
  intros H. unfold shl_align. destruct (t - ex) as [ | d | d] eqn:E; try lia.
  eexists. split; [reflexivity | ]. rewrite iter_xO_pow. f_equal. f_equal. lia.
Qed.

Lemma shl_align_ge (mx : positive) (ex t : Z) :
  ex <= t -> shl_align mx ex t = (mx, ex).
Proof.
  intros H. unfold shl_align. destruct (t - ex) as [ | d | d] eqn:E; try lia; reflexivity.
Qed.

(** [binary_round] rounds the value [mx * 2^ex], counted in units of
    2^-1074, whatever the mantissa and exponent that represent it. *)
Lemma binary_round_spec (sx : bool) (mx : positive) (ex : Z) :
  -1074 <= ex ->
  binary_round prec emax sx mx ex = round_pos sx (Zpos mx * 2 ^ (ex + 1074)).
Proof.
  intros He. unfold binary_round, round_pos, drop.
  rewrite Zdigits2_shift by lia.
  change (Zdigits2 (Zpos mx)) with (Zpos (digits2_pos mx)).
  set (t := fexp prec emax (Zpos (digits2_pos mx) + ex)).
  assert (Ht : t = Z.max (Zpos (digits2_pos mx) + ex - 53) (-1074)) by reflexivity.
  replace (Z.max (Zpos (digits2_pos mx) + (ex + 1074) - 53) 0) with (t + 1074) by lia.
  replace (t + 1074 - 1074) with t by lia.
  destruct (Z_lt_le_dec t ex) as [L | G].
  - destruct (shl_align_lt mx ex t L) as (mz & -> & Hmz).
    assert (Hd : Zdigits2 (Zpos mz) + t = Zpos (digits2_pos mx) + ex).
    { rewrite Hmz, Zdigits2_shift by lia. simpl Zdigits2. lia. }
    rewrite binary_round_aux_exact; rewrite ?Hd; fold t; try lia.
    replace (t - t) with 0 by lia. rewrite rne_0. f_equal.
    rewrite Hmz. replace (ex + 1074) with ((ex - t) + (t + 1074)) by lia.
    rewrite Z.pow_add_r, Z.mul_assoc by lia. now rewrite rne_exact by lia.
  - rewrite shl_align_ge by assumption.
    rewrite binary_round_aux_exact; cbn [Zdigits2]; fold t; try lia.
    f_equal. replace (t + 1074) with ((t - ex) + (ex + 1074)) by lia.
    now rewrite rne_scale by lia.
Qed.

(** ** The position of a rounded number *)

Lemma drop_nonneg (N : Z) : 0 <= drop N.
Proof. unfold drop. lia. Qed.

Lemma rne_drop_bounds (N : Z) :
  0 < N ->
  0 < rne N (drop N) <= 2 ^ 53 /\ (0 < drop N -> 2 ^ 52 <= rne N (drop N)).
Proof.
  intros HN. pose proof (Zdigits2_bounds N HN) as B.
  pose proof (drop_nonneg N) as Hk.
  pose proof (rne_bounds N (drop N) Hk) as R.
  pose proof (pow2_pos (drop N) Hk) as P.
  assert (U : 0 <= rne N (drop N) <= 2 ^ 53).
  { apply rne_lt_pow; try lia. split; [lia | ].
    apply Z.lt_le_trans with (2 ^ Zdigits2 N); [lia | ].
    apply Z.pow_le_mono_r; unfold drop; lia. }
  assert (L : 0 < drop N -> 2 ^ 52 <= N / 2 ^ drop N).
  { intros Hpos. apply Z.div_le_lower_bound; [lia | ].
    rewrite <- Z.pow_add_r by lia.
    apply Z.le_trans with (2 ^ (Zdigits2 N - 1)); [ | lia].
    apply Z.pow_le_mono_r; unfold drop in *; lia. }
  split; [ | lia].
  destruct (Z.eq_dec (drop N) 0) as [E | NE].
  - rewrite E, rne_0 in U. rewrite E, rne_0. lia.
  - assert (0 < 2 ^ 52) by (apply pow2_pos; lia). lia.
Qed.

(** The position of the rounded float is monotone in the number rounded:
    within one exponent by [rne_mono], across exponents because a rounded
    mantissa lies between 2^52 and 2^53. *)
Lemma RN_mono (a b : Z) : 0 < a -> a <= b -> RN a <= RN b.
Proof.
  intros Ha Hab. unfold RN.
  pose proof (rne_drop_bounds a Ha) as (Ba & _).
  pose proof (rne_drop_bounds b ltac:(lia)) as (_ & Bb).
  pose proof (Zdigits2_le a b Ha Hab) as Hd.
  assert (Hk : drop a <= drop b) by (unfold drop; lia).
  pose proof (drop_nonneg a).
  destruct (Z.eq_dec (drop a) (drop b)) as [E | NE].
  - rewrite <- E. pose proof (rne_mono a b (drop a) ltac:(lia) Hab). lia.
  - specialize (Bb ltac:(lia)).
    change (2 ^ 53) with (2 * 2 ^ 52) in Ba.
    assert (0 < 2 ^ 52) by (apply pow2_pos; lia). nia.
Qed.

Lemma RN_pos (N : Z) : 0 < N -> 0 < RN N.
Proof.
  intros HN. unfold RN. pose proof (rne_drop_bounds N HN) as (B & _).
  pose proof (drop_nonneg N). assert (0 < 2 ^ 52) by (apply pow2_pos; lia). nia.
Qed.

(** The float a positive number rounds to sits at position [RN], or is
    the infinity. *)
Lemma ord_round_pos (N : Z) :
  0 < N ->
  ord (round_pos false N) = Z.min (RN N) ord_inf
  /\ (exists m e, round_pos false N = S754_finite false m e
      \/ round_pos false N = S754_infinity false).
Proof.
  intros HN. unfold round_pos, finish_round, RN.
  pose proof (rne_drop_bounds N HN) as (B & L).
  pose proof (drop_nonneg N) as Hk.
  set (k := drop N) in *. set (m1 := rne N k) in *.
  unfold ord_inf.
  change (2 ^ 52) with 4503599627370496 in *.
  change (2 ^ 53) with 9007199254740992 in *.
  destruct (Z.eqb_spec m1 0); [lia | ].
  destruct (Z.eqb_spec m1 9007199254740992) as [E | NE].
  - destruct (Z.leb_spec (k - 1074 + 1) 971); cbn [ord cond_Zopp];
      unfold ord_inf; change (2 ^ 52) with 4503599627370496.
    + split; [ | eexists; eexists; left; reflexivity].
      rewrite Z2Pos.id by lia. lia.
    + split; [lia | exists 1%positive, 0; now right].
  - destruct (Z.leb_spec (k - 1074) 971); cbn [ord cond_Zopp];
      unfold ord_inf; change (2 ^ 52) with 4503599627370496.
    + split; [ | eexists; eexists; left; reflexivity].
      rewrite Z2Pos.id by lia. lia.
    + split; [ | exists 1%positive, 0; now right].
      specialize (L ltac:(lia)). lia.
Qed.

(** ** Valid floats: order and value *)

(** What validity says of a finite float: the exponent range, less than
    54 bits, and exactly 53 bits above the least exponent. *)
Lemma bounded_facts (m : positive) (e : Z) :
  bounded prec emax m e = true ->
  -1074 <= e <= 971 /\ Zpos m < 2 ^ 53 /\ (-1074 < e -> 2 ^ 52 <= Zpos m)
  /\ Z.max (Zpos (digits2_pos m) + e - 53) (-1074) = e.
Proof.
  unfold bounded, canonical_mantissa. rewrite fexp_eq.
  intros H. apply andb_true_iff in H. destruct H as (C & B).
  apply Z.eqb_eq in C. apply Z.leb_le in B. change (emax - prec) with 971 in B.
  pose proof (digits2_pos_bounds m) as D.
  assert (Hd : Zpos (digits2_pos m) <= 53) by lia.
  repeat split; try lia.
  - apply Z.lt_le_trans with (2 ^ Zpos (digits2_pos m)); [lia | ].
    apply Z.pow_le_mono_r; lia.
  - intros He. replace (Zpos (digits2_pos m)) with 53 in D by lia. exact (proj1 D).
Qed.

Section Lex.

Variables (m1 m2 : positive) (e1 e2 : Z).
Hypothesis (B1 : bounded prec emax m1 e1 = true).
Hypothesis (B2 : bounded prec emax m2 e2 = true).

Lemma ord_lex :
  ((e1 + 1074) * 2 ^ 52 + Zpos m1 ?= (e2 + 1074) * 2 ^ 52 + Zpos m2)
  = lex_compare e1 (Zpos m1) e2 (Zpos m2).
Proof.
  destruct (bounded_facts _ _ B1) as (He1 & Hm1 & Hn1 & _).
  destruct (bounded_facts _ _ B2) as (He2 & Hm2 & Hn2 & _).
  change (2 ^ 53) with 9007199254740992 in *.
  change (2 ^ 52) with 4503599627370496 in *.
  unfold lex_compare.
  destruct (Z.compare_spec e1 e2) as [E | L | G].
  - subst e2. destruct (Z.compare_spec (Zpos m1) (Zpos m2));
      [apply Z.compare_eq_iff | apply Z.compare_lt_iff | apply Z.compare_gt_iff]; lia.
  - apply Z.compare_lt_iff. specialize (Hn2 ltac:(lia)). lia.
  - apply Z.compare_gt_iff. specialize (Hn1 ltac:(lia)). lia.
Qed.

Lemma Vz_lex :
  (Zpos m1 * 2 ^ (e1 + 1074) ?= Zpos m2 * 2 ^ (e2 + 1074))
  = lex_compare e1 (Zpos m1) e2 (Zpos m2).
Proof.
  destruct (bounded_facts _ _ B1) as (He1 & Hm1 & Hn1 & _).
  destruct (bounded_facts _ _ B2) as (He2 & Hm2 & Hn2 & _).
  change (2 ^ 53) with 9007199254740992 in *.
  change (2 ^ 52) with 4503599627370496 in *.
  unfold lex_compare.
  destruct (Z.compare_spec e1 e2) as [E | L | G].
  - subst e2. pose proof (pow2_pos (e1 + 1074) ltac:(lia)).
    destruct (Z.compare_spec (Zpos m1) (Zpos m2));
      [apply Z.compare_eq_iff | apply Z.compare_lt_iff | apply Z.compare_gt_iff]; nia.
  - apply Z.compare_lt_iff. specialize (Hn2 ltac:(lia)).
    replace (e2 + 1074) with ((e2 - e1 - 1) + 1 + (e1 + 1074)) by lia.
    rewrite (Z.pow_add_r 2 (e2 - e1 - 1 + 1)), (Z.pow_add_r 2 (e2 - e1 - 1)) by lia.
    pose proof (pow2_pos (e1 + 1074) ltac:(lia)).
    pose proof (pow2_pos (e2 - e1 - 1) ltac:(lia)).
    change (2 ^ 1) with 2.
    assert (Zpos m1 < Zpos m2 * (2 ^ (e2 - e1 - 1) * 2)) by nia.
    rewrite Z.mul_assoc. apply Z.mul_lt_mono_pos_r; assumption.
  - apply Z.compare_gt_iff. specialize (Hn1 ltac:(lia)).
    replace (e1 + 1074) with ((e1 - e2 - 1) + 1 + (e2 + 1074)) by lia.
    rewrite (Z.pow_add_r 2 (e1 - e2 - 1 + 1)), (Z.pow_add_r 2 (e1 - e2 - 1)) by lia.
    pose proof (pow2_pos (e2 + 1074) ltac:(lia)).
    pose proof (pow2_pos (e1 - e2 - 1) ltac:(lia)).
    change (2 ^ 1) with 2.
    assert (Zpos m2 < Zpos m1 * (2 ^ (e1 - e2 - 1) * 2)) by nia.
    rewrite Z.mul_assoc. apply Z.mul_lt_mono_pos_r; assumption.
Qed.

End Lex.

Lemma ord_finite_pos (m : positive) (e : Z) :
  bounded prec emax m e = true -> 0 < (e + 1074) * 2 ^ 52 + Zpos m < ord_inf.
Proof.
  intros B. destruct (bounded_facts _ _ B) as (He & Hm & _).
  unfold ord_inf. change (2 ^ 53) with 9007199254740992 in *.
  change (2 ^ 52) with 4503599627370496 in *. lia.
Qed.

Lemma compare_opp_opp (a b : Z) : (- a ?= - b) = CompOpp (a ?= b).
Proof. rewrite Z.compare_opp. apply Z.compare_antisym. Qed.

(** Comparing two valid floats is comparing their positions. *)
Lemma SFcompare_ord (x y : spec_float) :
  valid_binary x = true -> valid_binary y = true ->
  not_nan x = true -> not_nan y = true ->
  SFcompare x y = Some (ord x ?= ord y).
Proof.
  intros Vx Vy Nx Ny.
  destruct x as [sx | sx | | sx mx ex]; try discriminate;
    destruct y as [sy | sy | | sy my ey]; try discriminate;
    cbn [SFcompare ord valid_binary] in *;
    try (pose proof (ord_finite_pos _ _ Vx) as Ox);
    try (pose proof (ord_finite_pos _ _ Vy) as Oy);
    assert (Oi : 0 < ord_inf) by (unfold ord_inf; change (2 ^ 52) with 4503599627370496; lia);
    try destruct sx; try destruct sy; cbn [cond_Zopp]; f_equal; symmetry;
    try reflexivity;
    try (apply Z.compare_eq_iff; lia);
    try (apply Z.compare_lt_iff; lia);
    try (apply Z.compare_gt_iff; lia).
  - rewrite compare_opp_opp, (ord_lex _ _ _ _ Vx Vy). unfold lex_compare.
    destruct (ex ?= ey); try reflexivity.
  - apply (ord_lex _ _ _ _ Vx Vy).
Qed.

Lemma SFleb_ord (x y : spec_float) :
  valid_binary x = true -> valid_binary y = true ->
  not_nan x = true -> not_nan y = true ->
  SFleb x y = (ord x <=? ord y).
Proof.
  intros. unfold SFleb. rewrite SFcompare_ord by assumption.
  unfold Z.leb. now destruct (ord x ?= ord y).
Qed.

Lemma SFltb_ord (x y : spec_float) :
  valid_binary x = true -> valid_binary y = true ->
  not_nan x = true -> not_nan y = true ->
  SFltb x y = (ord x <? ord y).
Proof.
  intros. unfold SFltb. rewrite SFcompare_ord by assumption.
  unfold Z.ltb. now destruct (ord x ?= ord y).
Qed.

(** On finite floats the order of the positions is the order of the values. *)
Lemma Vz_ord_compare (x y : spec_float) :
  valid_binary x = true -> valid_binary y = true ->
  finite_or_zero x = true -> finite_or_zero y = true ->
  (Vz x ?= Vz y) = (ord x ?= ord y).
Proof.
  intros Vx Vy Fx Fy.
  destruct x as [sx | sx | | sx mx ex]; try discriminate;
    destruct y as [sy | sy | | sy my ey]; try discriminate;
    cbn [Vz ord valid_binary] in *;
    try (pose proof (ord_finite_pos _ _ Vx) as Ox;
         destruct (bounded_facts _ _ Vx) as (Hex & _);
         pose proof (pow2_pos (ex + 1074) ltac:(lia)));
    try (pose proof (ord_finite_pos _ _ Vy) as Oy;
         destruct (bounded_facts _ _ Vy) as (Hey & _);
         pose proof (pow2_pos (ey + 1074) ltac:(lia)));
    try destruct sx; try destruct sy; cbn [cond_Zopp];
    try reflexivity.
  all: try (rewrite !compare_opp_opp, (ord_lex _ _ _ _ Vx Vy), (Vz_lex _ _ _ _ Vx Vy);
            reflexivity).
  all: try (rewrite (ord_lex _ _ _ _ Vx Vy), (Vz_lex _ _ _ _ Vx Vy); reflexivity).
  all: match goal with
       | |- ?a = ?b =>
           destruct (Z.compare_spec (ltac:(match a with (?u ?= ?v) => exact u end))
                                    (ltac:(match a with (?u ?= ?v) => exact v end)));
           symmetry;
           [apply Z.compare_eq_iff | apply Z.compare_lt_iff | apply Z.compare_gt_iff];
           nia
       end.
Qed.

(** ** Addition *)

(** A valid float rounds to itself. *)
Lemma RN_canonical (m : positive) (e : Z) :
  bounded prec emax m e = true ->
  drop (Zpos m * 2 ^ (e + 1074)) = e + 1074
  /\ rne (Zpos m * 2 ^ (e + 1074)) (e + 1074) = Zpos m.
Proof.
  intros B. destruct (bounded_facts _ _ B) as (He & Hm & Hn & Hc).
  split; [ | apply rne_exact; lia].
  unfold drop. rewrite Zdigits2_shift by lia. cbn [Zdigits2]. lia.
Qed.

Lemma round_pos_canonical (m : positive) (e : Z) :
  bounded prec emax m e = true ->
  round_pos false (Zpos m * 2 ^ (e + 1074)) = S754_finite false m e.
Proof.
  intros B. destruct (bounded_facts _ _ B) as (He & Hm & Hn & Hc).
  destruct (RN_canonical _ _ B) as (Hd & Hr).
  unfold round_pos. rewrite Hd, Hr. unfold finish_round.
  replace (e + 1074 - 1074) with e by lia.
  destruct (Z.eqb_spec (Zpos m) 0); [lia | ].
  destruct (Z.eqb_spec (Zpos m) (2 ^ 53)); [lia | ].
  destruct (Z.leb_spec e 971); [ | lia]. reflexivity.
Qed.

Lemma fst_shl_align (mx : positive) (ex t : Z) :
  t <= ex -> Zpos (fst (shl_align mx ex t)) = Zpos mx * 2 ^ (ex - t).
Proof.
  intros H. destruct (Z_lt_le_dec t ex) as [L | G].
  - destruct (shl_align_lt mx ex t L) as (mz & -> & Hmz). exact Hmz.
  - rewrite shl_align_ge by assumption. replace (ex - t) with 0 by lia.
    cbn [fst]. simpl (2 ^ 0). lia.
Qed.

Lemma cond_Zopp_mul (s : bool) (a b : Z) : cond_Zopp s a * b = cond_Zopp s (a * b).
Proof. destruct s; simpl; ring. Qed.

(** A sum with a positive exact value is that value, rounded. *)
Lemma SFadd_round_pos (x z : spec_float) :
  valid_binary x = true -> valid_binary z = true ->
  finite_or_zero x = true -> finite_or_zero z = true ->
  0 < Vz x + Vz z ->
  SFadd prec emax x z = round_pos false (Vz x + Vz z).
Proof.
  intros Vx Vz' Fx Fz Hpos.
  destruct x as [sx | sx | | sx mx ex]; try discriminate;
    destruct z as [sz | sz | | sz mz ez]; try discriminate;
    cbn [Vz valid_binary] in *; try lia.
  - destruct (bounded_facts _ _ Vz') as (He & _).
    pose proof (pow2_pos (ez + 1074) ltac:(lia)).
    destruct sz; cbn [cond_Zopp] in *; [lia | ].
    cbn [SFadd]. rewrite Z.add_0_l. symmetry. now apply round_pos_canonical.
  - destruct (bounded_facts _ _ Vx) as (He & _).
    pose proof (pow2_pos (ex + 1074) ltac:(lia)).
    destruct sx; cbn [cond_Zopp] in *; [lia | ].
    cbn [SFadd]. rewrite Z.add_0_r. symmetry. now apply round_pos_canonical.
  - destruct (bounded_facts _ _ Vx) as (Hex & _).
    destruct (bounded_facts _ _ Vz') as (Hez & _).
    cbn [SFadd]. set (e0 := Z.min ex ez).
    rewrite !fst_shl_align by (subst e0; lia).
    set (M := cond_Zopp sx (Zpos mx * 2 ^ (ex - e0)) + cond_Zopp sz (Zpos mz * 2 ^ (ez - e0))).
    assert (HM : M * 2 ^ (e0 + 1074)
                 = cond_Zopp sx (Zpos mx * 2 ^ (ex + 1074))
                   + cond_Zopp sz (Zpos mz * 2 ^ (ez + 1074))).
    { subst M. rewrite Z.mul_add_distr_r, !cond_Zopp_mul, <- !Z.mul_assoc.
      rewrite <- !Z.pow_add_r by (subst e0; lia).
      replace (ex - e0 + (e0 + 1074)) with (ex + 1074) by lia.
      replace (ez - e0 + (e0 + 1074)) with (ez + 1074) by lia.
      reflexivity. }
    rewrite <- HM in *.
    pose proof (pow2_pos (e0 + 1074) ltac:(subst e0; lia)).
    destruct M as [ | p | p]; try lia.
    cbn [binary_normalize]. apply binary_round_spec. subst e0; lia.
Qed.

(** Addition is monotone wherever the exact sums are positive. *)
Lemma SFadd_mono (x1 z1 x2 z2 : spec_float) :
  valid_binary x1 = true -> valid_binary z1 = true ->
  valid_binary x2 = true -> valid_binary z2 = true ->
  finite_or_zero x1 = true -> finite_or_zero z1 = true ->
  finite_or_zero x2 = true -> finite_or_zero z2 = true ->
  0 < Vz x1 + Vz z1 -> Vz x1 + Vz z1 <= Vz x2 + Vz z2 ->
  ord (SFadd prec emax x1 z1) <= ord (SFadd prec emax x2 z2).
Proof.
  intros. rewrite !SFadd_round_pos by (assumption || lia).
  destruct (ord_round_pos (Vz x1 + Vz z1)) as (-> & _); [lia | ].
  destruct (ord_round_pos (Vz x2 + Vz z2)) as (-> & _); [lia | ].
  pose proof (RN_mono (Vz x1 + Vz z1) (Vz x2 + Vz z2)). lia.
Qed.

(** ** Primitive floats *)

Section Binary64Floats.

Local Open Scope float_scope.

(** The float comparisons are the integer comparisons of the positions. *)
Lemma leb_ordf (x y : float) :
  is_num x = true -> is_num y = true -> (x <=? y) = (ordf x <=? ordf y)%Z.
Proof.
  intros. rewrite leb_spec. apply SFleb_ord; auto using Prim2SF_valid.
Qed.

Lemma ltb_ordf (x y : float) :
  is_num x = true -> is_num y = true -> (x <? y) = (ordf x <? ordf y)%Z.
Proof.
  intros. rewrite ltb_spec. apply SFltb_ord; auto using Prim2SF_valid.
Qed.

Lemma ltb_true_num (x y : float) :
  (x <? y) = true -> is_num x = true /\ is_num y = true /\ (ordf x < ordf y)%Z.
Proof.
  intros H. assert (N : is_num x = true /\ is_num y = true).
  { rewrite ltb_spec in H. unfold SFltb, is_num in *.
    destruct (Prim2SF x), (Prim2SF y); try discriminate; auto. }
  destruct N as (Nx & Ny). rewrite ltb_ordf in H by assumption.
  apply Z.ltb_lt in H. auto.
Qed.

Lemma ord_bounds (s : spec_float) :
  valid_binary s = true -> (- ord_inf <= ord s <= ord_inf)%Z.
Proof.
  intros V. assert (0 < ord_inf)%Z by (unfold ord_inf; change (2 ^ 52)%Z with 4503599627370496%Z; lia).
  destruct s as [sg | sg | | sg m e]; cbn [ord valid_binary] in *; try lia.
  - destruct sg; cbn [cond_Zopp]; lia.
  - pose proof (ord_finite_pos _ _ V). destruct sg; cbn [cond_Zopp]; lia.
Qed.

Lemma ord_fin (s : spec_float) :
  valid_binary s = true -> not_nan s = true ->
  (- ord_inf < ord s < ord_inf)%Z -> finite_or_zero s = true.
Proof.
  intros V N H. destruct s as [sg | sg | | sg m e]; try reflexivity; try discriminate.
  cbn [ord] in H. destruct sg; cbn [cond_Zopp] in H; lia.
Qed.

Lemma value_ordf_le (x y : float) :
  is_fin x = true -> is_fin y = true ->
  (value x <= value y)%Z <-> (ordf x <= ordf y)%Z.
Proof.
  intros Fx Fy. unfold value, ordf.
  pose proof (Vz_ord_compare _ _ (Prim2SF_valid x) (Prim2SF_valid y) Fx Fy) as C.
  unfold Z.le. now rewrite C.
Qed.

(** The sum of two finite floats with a positive exact sum. *)
Lemma add_round_pos (x z : float) :
  is_fin x = true -> is_fin z = true -> (0 < value x + value z)%Z ->
  Prim2SF (x + z) = round_pos false (value x + value z).
Proof.
  intros. rewrite add_spec. apply SFadd_round_pos; auto using Prim2SF_valid.
Qed.

Lemma add_pos_class (x z : float) :
  is_fin x = true -> is_fin z = true -> (0 < value x + value z)%Z ->
  is_num (x + z) = true /\ (0 < ordf (x + z))%Z.
Proof.
  intros Fx Fz H. unfold is_num, ordf. rewrite add_round_pos by assumption.
  destruct (ord_round_pos _ H) as (Ho & m & e & [E | E]); rewrite Ho; rewrite E;
    (split; [reflexivity | ]).
  - pose proof (RN_pos _ H). unfold ord_inf. change (2 ^ 52)%Z with 4503599627370496%Z. lia.
  - pose proof (RN_pos _ H). unfold ord_inf. change (2 ^ 52)%Z with 4503599627370496%Z. lia.
Qed.

Lemma add_mono_fin (x1 z1 x2 z2 : float) :
  is_fin x1 = true -> is_fin z1 = true -> is_fin x2 = true -> is_fin z2 = true ->
  (0 < value x1 + value z1)%Z -> (value x1 + value z1 <= value x2 + value z2)%Z ->
  (ordf (x1 + z1) <= ordf (x2 + z2))%Z.
Proof.
  intros. unfold ordf. rewrite !add_spec.
  apply SFadd_mono; auto using Prim2SF_valid.
Qed.

(** Adding a finite float to plus infinity. *)
Lemma add_inf_l (x z : float) :
  Prim2SF x = S754_infinity false -> is_fin z = true ->
  Prim2SF (x + z) = S754_infinity false.
Proof.
  intros Hx Fz. rewrite add_spec, Hx. unfold is_fin in Fz.
  destruct (Prim2SF z); try discriminate; reflexivity.
Qed.

Lemma add_inf_r (x z : float) :
  is_fin x = true -> Prim2SF z = S754_infinity false ->
  Prim2SF (x + z) = S754_infinity false.
Proof.
  intros Fx Hz. rewrite add_spec, Hz. unfold is_fin in Fx.
  destruct (Prim2SF x); try discriminate; reflexivity.
Qed.

Lemma pos_num_cases (x : float) :
  pos_num x ->
  Prim2SF x = S754_infinity false \/ (is_fin x = true /\ (0 < value x)%Z).
Proof.
  intros (N & P). unfold is_num, ordf, is_fin, value in *.
  pose proof (Prim2SF_valid x) as V.
  assert (0 < ord_inf)%Z by (unfold ord_inf; change (2 ^ 52)%Z with 4503599627370496%Z; lia).
  destruct (Prim2SF x) as [sg | sg | | sg m e]; cbn [ord Vz valid_binary] in *; try discriminate; try lia.
  - destruct sg; cbn [cond_Zopp] in P; [lia | now left].
  - right. split; [reflexivity | ].
    pose proof (ord_finite_pos _ _ V). destruct (bounded_facts _ _ V) as (He & _).
    pose proof (pow2_pos (e + 1074) ltac:(lia)).
    destruct sg; cbn [cond_Zopp] in *; [lia | nia].
Qed.

(** Addition of a positive float and a float that cannot cancel it. *)
Lemma add_mono_pos (y1 y2 i1 i2 : float) :
  pos_num y1 -> pos_num y2 -> (ordf y1 <= ordf y2)%Z ->
  is_fin i1 = true -> is_fin i2 = true -> (ordf i1 <= ordf i2)%Z ->
  (is_fin y1 = true -> 0 < value y1 + value i1)%Z ->
  pos_num (y1 + i1) /\ pos_num (y2 + i2) /\ (ordf (y1 + i1) <= ordf (y2 + i2))%Z.
Proof.
  intros P1 P2 Hy F1 F2 Hi Hsum.
  apply value_ordf_le in Hi; try assumption.
  destruct (pos_num_cases y2 P2) as [I2 | (Fy2 & V2)].
  - assert (S2 : Prim2SF (y2 + i2) = S754_infinity false) by now apply add_inf_l.
    assert (O2 : ordf (y2 + i2) = ord_inf) by (unfold ordf; now rewrite S2).
    assert (N2 : pos_num (y2 + i2)).
    { split; unfold is_num, ordf; rewrite S2; [reflexivity | ].
      cbn. unfold ord_inf. change (2 ^ 52)%Z with 4503599627370496%Z. lia. }
    destruct (pos_num_cases y1 P1) as [I1 | (Fy1 & V1)].
    + assert (S1 : Prim2SF (y1 + i1) = S754_infinity false) by now apply add_inf_l.
      split; [ | split; [assumption | ]].
      * split; unfold is_num, ordf; rewrite S1; [reflexivity | ].
        cbn. unfold ord_inf. change (2 ^ 52)%Z with 4503599627370496%Z. lia.
      * unfold ordf. rewrite S1, S2. lia.
    + specialize (Hsum Fy1).
      split; [now apply add_pos_class | split; [assumption | ]].
      rewrite O2. apply ord_bounds, Prim2SF_valid.
  - assert (Fy1 : is_fin y1 = true).
    { destruct (pos_num_cases y1 P1) as [I1 | (Fy1 & _)]; [ | assumption].
      exfalso. assert (Fo : (ordf y2 < ord_inf)%Z).
      { unfold ordf, is_fin in *. pose proof (Prim2SF_valid y2) as V.
        destruct (Prim2SF y2) as [sg | sg | | sg m e]; try discriminate; cbn [ord valid_binary] in *.
        - unfold ord_inf. change (2 ^ 52)%Z with 4503599627370496%Z. lia.
        - pose proof (ord_finite_pos _ _ V). destruct sg; cbn [cond_Zopp]; lia. }
      unfold ordf in Hy at 1. rewrite I1 in Hy. cbn [ord cond_Zopp] in Hy. lia. }
    specialize (Hsum Fy1).
    apply value_ordf_le in Hy; try assumption.
    split; [now apply add_pos_class | ].
    split; [apply add_pos_class; try assumption; lia | ].
    apply add_mono_fin; try assumption; lia.
Qed.

End Binary64Floats.

(** * Facts on the program *)

(** ** Basic facts on float comparisons and on the exception monad *)

Section FloatOrder.

Local Open Scope float_scope.

Lemma ltb_leb (x y : float) : (x <? y) = true -> (x <=? y) = true.
Proof.
  rewrite ltb_spec, leb_spec. unfold SFltb, SFleb.
  destruct (SFcompare (Prim2SF x) (Prim2SF y)) as [[ | | ] | ]; congruence.
Qed.

End FloatOrder.

(** A sequence that succeeds has a first statement that succeeds. *)
Lemma bind_inr {A B : Type} (c : exc A) (k : A -> exc B) (v : B) :
  bind c k = inr v -> exists a, c = inr a /\ k a = inr v.
Proof.
  destruct c as [e | a]; simpl; intros H; [discriminate | eauto].
Qed.

Lemma ret_inr {A : Type} (a v : A) : ret a = inr v -> a = v.
Proof. unfold ret. congruence. Qed.

(** Splits a successful run of a sequence of statements into its steps. *)
Ltac run_steps H :=
  repeat (let a := fresh "v" in
          let Ha := fresh "Hv" in
          apply bind_inr in H; destruct H as (a & Ha & H));
  try apply ret_inr in H.

Section MixedArithmetic.

Local Open Scope float_scope.

(** An operation with a float operand converts the other operand and
    works on floats. *)
Lemma py_add_float_l (x : float) (b v : pynum) :
  py_add (PyFloat x) b = inr v ->
  exists y, as_float b = inr y /\ v = PyFloat (x + y).
Proof.
  destruct b; simpl; intros H; run_steps H; subst; eauto.
Qed.

Lemma py_mul_float_r (a v : pynum) (y : float) :
  py_mul a (PyFloat y) = inr v ->
  exists x, as_float a = inr x /\ v = PyFloat (x * y).
Proof.
  destruct a; simpl; intros H; run_steps H; subst; eauto.
Qed.

(** A true division always gives a float. *)
Lemma py_truediv_float (a b v : pynum) :
  py_truediv a b = inr v -> exists q, v = PyFloat q.
Proof.
  destruct a, b; simpl; intros H; run_steps H; subst; eauto;
    match goal with
    | H : (if ?c then _ else _) = inr _ |- _ =>
        destruct c; [discriminate | apply ret_inr in H; subst; eauto]
    end.
Qed.

(** [max] and [min] of two floats are floats. *)
Lemma py_max_float (x y : float) :
  py_max (PyFloat x) (PyFloat y) = PyFloat (if x <? y then y else x).
Proof. unfold py_max, py_gt, py_lt. now destruct (x <? y). Qed.

Lemma py_min_float (x y : float) :
  py_min (PyFloat x) (PyFloat y) = PyFloat (if y <? x then y else x).
Proof. unfold py_min, py_lt. now destruct (y <? x). Qed.

End MixedArithmetic.

(** ** The shape of a successful pricing run *)

Section PricingShape.

Local Open Scope float_scope.

Lemma as_float_py_max_0 (x y : float) :
  as_float (py_max (PyInt 0) (PyFloat x)) = inr y -> y = dti_adj_of x.
Proof.
  unfold dti_adj_of.
  destruct (py_max (PyInt 0) (PyFloat x)) eqn:E; simpl.
  - unfold py_max in E. destruct (py_gt _ _); [discriminate | ].
    injection E as <-. vm_compute. now intros [= <-].
  - intros H. apply ret_inr in H. now subst.
Qed.

(** What a successful run computed: the three contributions are defined,
    and the record holds the clamped rate and the clamped risk score. *)
Lemma pricing_try_inv (loan_amnt annual_inc dti grade_num : pynum)
  (r : PricingResult) :
  pricing_try loan_amnt annual_inc dti grade_num = inr r ->
  exists fg x q : float,
    grade_steps grade_num = inr fg
    /\ dti_steps dti = inr x
    /\ income_steps annual_inc = inr (PyFloat q)
    /\ apr r =
         PyFloat (clamp_rate (8.0 + fg * 2.0 + dti_adj_of x + income_adj_of q))
    /\ risk_probability r = PyFloat (clamp_risk (0.05 + fg * 0.05))
    /\ risk_tier r =
         (if py_le grade_num (PyInt 2) then "Prime"
          else if py_le grade_num (PyInt 4) then "Near Prime"
          else "Subprime")%string.
Proof.
  unfold pricing_try. intros H. run_steps H.
  apply py_mul_float_r in Hv0. destruct Hv0 as (fg & Hfg & ->).
  apply py_add_float_l in Hv1. destruct Hv1 as (y1 & Hy1 & ->).
  simpl in Hy1. apply ret_inr in Hy1. subst y1.
  apply py_mul_float_r in Hv3. destruct Hv3 as (fd & Hfd & ->).
  destruct (py_truediv_float _ _ _ Hv5) as (q & ->).
  apply py_add_float_l in Hv6. destruct Hv6 as (d & Hd & ->).
  apply as_float_py_max_0 in Hd. subst d.
  rewrite py_min_float, py_max_float in Hv7.
  apply py_add_float_l in Hv7. destruct Hv7 as (i & Hi & ->).
  simpl in Hi. apply ret_inr in Hi. subst i.
  rewrite Hv in Hv8. apply ret_inr in Hv8. subst v8.
  apply py_mul_float_r in Hv9. destruct Hv9 as (fg' & Hfg' & ->).
  rewrite Hfg in Hfg'. apply ret_inr in Hfg'. subst fg'.
  apply py_add_float_l in Hv10. destruct Hv10 as (y2 & Hy2 & ->).
  simpl in Hy2. apply ret_inr in Hy2. subst y2.
  exists fg, (fd * 0.05), q. subst r. simpl.
  repeat (rewrite py_min_float || rewrite py_max_float).
  unfold grade_steps, dti_steps, income_steps.
  rewrite Hv, Hv2, Hv4. simpl. rewrite Hfg, Hfd. simpl.
  refine (conj _ (conj _ (conj _ (conj _ (conj _ _)))));
    try reflexivity; assumption.
Qed.

End PricingShape.

Lemma get_real_pricing_Some (loan_amnt annual_inc dti grade_num : pynum)
  (r : PricingResult) :
  get_real_pricing loan_amnt annual_inc dti grade_num = Some r <->
  pricing_try loan_amnt annual_inc dti grade_num = inr r.
Proof.
  unfold get_real_pricing.
  destruct (pricing_try loan_amnt annual_inc dti grade_num); split; congruence.
Qed.

(** ** The two clamps *)

Section Clamps.

Local Open Scope float_scope.

Lemma clamp_rate_bounds (x : float) :
  (5.99 <=? clamp_rate x) = true /\ (clamp_rate x <=? 29.99) = true.
Proof.
  unfold clamp_rate. destruct (x <? 29.99) eqn:E1.
  - destruct (5.99 <? x) eqn:E2; auto using ltb_leb.
  - change (5.99 <? 29.99) with true. cbv iota. auto.
Qed.

Lemma clamp_risk_bounds (x : float) :
  (0.02 <=? clamp_risk x) = true /\ (clamp_risk x <=? 0.4) = true.
Proof.
  unfold clamp_risk. destruct (0.02 <? x) eqn:E1.
  - destruct (x <? 0.4) eqn:E2; auto using ltb_leb.
  - change (0.02 <? 0.4) with true. cbv iota. auto.
Qed.

End Clamps.

(** ** The worked example *)

Section Example.

Local Open Scope float_scope.

(** C1, as stated, fails on the code: for the input (25000, 65000, 18.0, 3)
    the function returns a risk probability that is not the float 0.15.
    The sum 0.05 + 2 * 0.05 is rounded to 0.15000000000000002. *)
Lemma example_risk_probability_is_not_0_15 :
  exists r x, example_call = Some r
              /\ risk_probability r = PyFloat x
              /\ (x =? 0.15) = false
              /\ PyFloat x <> PyFloat 0.15.
Proof.
  eexists. eexists. split; [vm_compute; reflexivity | ]. simpl.
  refine (conj eq_refl (conj eq_refl _)).
  intros H.
  apply (f_equal (fun v => match v with
                           | PyFloat y => y =? 0.15
                           | PyInt _ => true
                           end)) in H.
  vm_compute in H. discriminate.
Qed.

(** C1, amended: for the input (25000, 65000, 18.0, 3) the function
    returns apr 11.95, expected profit 7275, profit margin 0.291 and risk
    tier Near Prime, each exactly the float the decimal denotes, and the
    risk probability 0.15000000000000002, the float next above 0.15. *)
Theorem example_pricing :
  example_call =
    Some {| apr := PyFloat 11.95;
            risk_probability := PyFloat 0.15000000000000002;
            expected_profit := PyFloat 7275;
            profit_margin := PyFloat 0.291;
            confidence := "High";
            optimization_applied := "Enhanced_Model";
            risk_tier := "Near Prime" |}
  /\ next_up 0.15 = 0.15000000000000002.
Proof. split; vm_compute; reflexivity. Qed.

End Example.

(** ** Bounds of the rate and of the risk probability *)

Section Bounds.

Variables (loan_amnt annual_inc dti grade_num : pynum).
Variable (r : PricingResult).
Hypothesis Hr : get_real_pricing loan_amnt annual_inc dti grade_num = Some r.

(** C2: whatever the four inputs, the apr a call returns lies within
    [5.99, 29.99] and the risk probability within [0.02, 0.40]. *)
Theorem pricing_result_within_bounds :
  py_le (PyFloat 5.99) (apr r) = true
  /\ py_le (apr r) (PyFloat 29.99) = true
  /\ py_le (PyFloat 0.02) (risk_probability r) = true
  /\ py_le (risk_probability r) (PyFloat 0.4) = true.
Proof.
  apply get_real_pricing_Some in Hr.
  destruct (pricing_try_inv _ _ _ _ _ Hr)
    as (fg & x & q & _ & _ & _ & -> & -> & _).
  simpl.
  destruct (clamp_rate_bounds (8.0 + fg * 2.0 + dti_adj_of x + income_adj_of q)).
  destruct (clamp_risk_bounds (0.05 + fg * 0.05)).
  auto.
Qed.

End Bounds.

Lemma pricing_result_within_bounds_witness :
  exists r, example_call = Some r
            /\ py_le (PyFloat 5.99) (apr r) = true
            /\ py_le (apr r) (PyFloat 29.99) = true
            /\ py_le (PyFloat 0.02) (risk_probability r) = true
            /\ py_le (risk_probability r) (PyFloat 0.4) = true.
Proof.
  eexists. split; [vm_compute; reflexivity | ].
  apply (pricing_result_within_bounds
           (PyInt 25000) (PyInt 65000) (PyFloat 18.0) (PyInt 3)).
  vm_compute; reflexivity.
Defined.

(** ** Risk tiers *)

Section RiskTier.

Local Open Scope string_scope.

(** C4: for a credit grade in [1,7] the risk tier is Prime for grades 1
    and 2, Near Prime for 3 and 4, Subprime for 5, 6 and 7; every grade
    of the range falls in exactly one of the three buckets. *)
Theorem risk_tier_partition (loan_amnt annual_inc dti : pynum) (g : Z)
  (r : PricingResult) :
  1 <= g <= 7 ->
  get_real_pricing loan_amnt annual_inc dti (PyInt g) = Some r ->
  ((g = 1 \/ g = 2) /\ risk_tier r = "Prime")
  \/ ((g = 3 \/ g = 4) /\ risk_tier r = "Near Prime")
  \/ ((g = 5 \/ g = 6 \/ g = 7) /\ risk_tier r = "Subprime").
Proof.
  intros Hg Hr. apply get_real_pricing_Some in Hr.
  destruct (pricing_try_inv _ _ _ _ _ Hr)
    as (fg & x & q & _ & _ & _ & _ & _ & ->).
  simpl. destruct (Z.leb_spec g 2); [left; split; [lia | reflexivity] | ].
  destruct (Z.leb_spec g 4); right; [left | right];
    (split; [lia | reflexivity]).
Qed.

End RiskTier.

Lemma risk_tier_partition_witness :
  exists r, example_call = Some r
            /\ (((3 = 1 \/ 3 = 2) /\ risk_tier r = "Prime"%string)
                \/ ((3 = 3 \/ 3 = 4) /\ risk_tier r = "Near Prime"%string)
                \/ ((3 = 5 \/ 3 = 6 \/ 3 = 7) /\ risk_tier r = "Subprime"%string)).
Proof.
  eexists. split; [vm_compute; reflexivity | ].
  apply (risk_tier_partition (PyInt 25000) (PyInt 65000) (PyFloat 18.0) 3);
    [lia | vm_compute; reflexivity].
Defined.

(** ** Risk probability of the seven grades *)

Section RiskOfGrade.

Local Open Scope float_scope.

(** C10, as stated, fails on the code: at grade 7 the risk probability is
    0.05 + 6 * 0.05 rounded, 0.35000000000000003, above the float 0.35. *)
Lemma grade_7_risk_exceeds_0_35 :
  exists r x,
    get_real_pricing (PyInt 25000) (PyInt 65000) (PyFloat 18.0) (PyInt 7) = Some r
    /\ risk_probability r = PyFloat x
    /\ (x <=? 0.35) = false.
Proof.
  eexists. eexists. split; [vm_compute; reflexivity | ]. simpl.
  refine (conj eq_refl eq_refl).
Qed.

(** C10, amended: for a credit grade in [1,7] the risk probability is
    exactly the float 0.05 + (grade - 1) * 0.05, the clamp changes
    nothing, the value lies in [0.05, 0.35000000000000003] and strictly
    between the clamp bounds 0.02 and 0.40. *)
Theorem risk_probability_of_grade (loan_amnt annual_inc dti : pynum) (g : Z)
  (r : PricingResult) :
  (1 <= g <= 7)%Z ->
  get_real_pricing loan_amnt annual_inc dti (PyInt g) = Some r ->
  exists x,
    risk_probability r = PyFloat x
    /\ x = 0.05 + Z2float (g - 1) * 0.05
    /\ (0.05 <=? x) = true /\ (x <=? 0.35000000000000003) = true
    /\ (0.02 <? x) = true /\ (x <? 0.4) = true.
Proof.
  intros Hg Hr. apply get_real_pricing_Some in Hr.
  destruct (pricing_try_inv _ _ _ _ _ Hr)
    as (fg & x & q & Hfg & _ & _ & _ & -> & _).
  assert (Hcases : (g = 1 \/ g = 2 \/ g = 3 \/ g = 4 \/ g = 5 \/ g = 6 \/ g = 7)%Z)
    by lia.
  eexists. split; [reflexivity | ].
  decompose [or] Hcases; subst g; vm_compute in Hfg;
    injection Hfg as <-; vm_compute; auto.
Qed.

End RiskOfGrade.

Lemma risk_probability_of_grade_witness :
  exists r, example_call = Some r
    /\ exists x,
      risk_probability r = PyFloat x
      /\ x = (0.05 + Z2float (3 - 1) * 0.05)%float
      /\ (0.05 <=? x)%float = true /\ (x <=? 0.35000000000000003)%float = true
      /\ (0.02 <? x)%float = true /\ (x <? 0.4)%float = true.
Proof.
  eexists. split; [vm_compute; reflexivity | ].
  apply (risk_probability_of_grade (PyInt 25000) (PyInt 65000) (PyFloat 18.0) 3);
    [lia | vm_compute; reflexivity].
Defined.

(** ** Market statistics *)

Section MarketStatistics.

Local Open Scope float_scope.

Lemma auto_rates_eq :
  auto_rates = [10.00; 6.49; 15.29; 14.07; 16.20; 4.67; 5.99; 12.50].
Proof. reflexivity. Qed.

Lemma count_true_map {A : Type} (p : A -> bool) (l : list A) :
  count_true (map p l) = Z.of_nat (List.length (filter p l)).
Proof.
  unfold count_true. f_equal.
  induction l as [ | a l IH]; simpl; [reflexivity | ].
  destruct (p a); simpl; now rewrite IH.
Qed.

(** C5: over a non-empty set of observations the percentile rank is 100
    times the fraction of the observations whose rate is at most the
    given rate; for the rate 11.95 over the auto-loan rates, four of eight,
    it is 50.0. *)
Theorem percentile_rank_fraction :
  (forall (x o : float) (rest : list float),
      percentile_rank x (o :: rest) = Some (fraction_le x (o :: rest) * 100))
  /\ List.length (filter (fun r => r <=? 11.95) auto_rates) = 4%nat
  /\ List.length auto_rates = 8%nat
  /\ percentile_rank 11.95 auto_rates = Some 50.
Proof.
  split; [ | repeat split; vm_compute; reflexivity].
  intros x o rest. unfold percentile_rank, mean_bool, fraction_le, series_le.
  now rewrite count_true_map, length_map.
Qed.

(** C6, as stated, fails on the code: the mean that [Series.mean]
    returns for the eight auto-loan rates, their pairwise sum in binary64
    divided by 8, is not the float 10.65125. *)
Lemma auto_rates_mean_is_not_10_65125 :
  List.length auto_rates = 8%nat
  /\ (series_mean sum_pairwise8 auto_rates =? 10.65125) = false
  /\ series_mean sum_pairwise8 auto_rates <> 10.65125.
Proof.
  split; [reflexivity | ]. split; [vm_compute; reflexivity | ].
  intros H. apply (f_equal (fun v => v =? 10.65125)) in H.
  vm_compute in H. discriminate.
Qed.

(** C6, amended: the mean of the eight auto-loan rates, as [Series.mean]
    computes it on binary64 floats (the pairwise sum, divided by 8), is
    10.651250000000001, the float next above 10.65125; the float 10.65125
    itself is what the sum from left to right, divided by 8, gives. *)
Theorem auto_rates_mean :
  series_mean sum_pairwise8 auto_rates = 10.651250000000001
  /\ 10.651250000000001 = next_up 10.65125
  /\ (10.65125 <? 10.651250000000001) = true
  /\ series_mean sum_left_to_right auto_rates = 10.65125.
Proof. repeat split; vm_compute; reflexivity. Qed.

(** C8, as stated, fails on the code: for a loan type without any
    observation the market comparison raises nothing; it returns a NaN
    average and no percentile. *)
Lemma empty_market_comparison_does_not_fail :
  rates_of_type "mortgage" get_market_data = []
  /\ market_comparison sum_left_to_right 11.95
       (rates_of_type "mortgage" get_market_data) = inr (nan, None)
  /\ ~ (exists e, market_comparison sum_left_to_right 11.95
                    (rates_of_type "mortgage" get_market_data) = inl e).
Proof.
  split; [reflexivity | ]. split; [reflexivity | ].
  intros (e & H). vm_compute in H. discriminate.
Qed.

(** C8, amended: over an empty set of observations nothing is raised; the
    average is NaN, and the percentile and the position are not computed
    because the emptiness guard skips them. *)
Theorem empty_market_comparison (series_sum : list float -> float) (x : float) :
  series_mean series_sum [] = nan
  /\ percentile_rank x [] = None
  /\ market_comparison series_sum x [] = inr (nan, None).
Proof. repeat split. Qed.

End MarketStatistics.

(** ** The rate as a function of the grade *)

Section RateOrder.

Local Open Scope float_scope.

Lemma num_between_fin (x : float) :
  is_num x = true -> (- ord_inf < ordf x < ord_inf)%Z -> is_fin x = true.
Proof. intros N H. apply ord_fin; auto using Prim2SF_valid. Qed.

Lemma Z_SF_compare_Lt (z : Z) (s : spec_float) :
  (z = 0)%Z -> Z_SF_compare z s = Some Lt ->
  s = S754_infinity false \/ exists m e, s = S754_finite false m e.
Proof.
  intros Hz. destruct s as [sg | sg | | [ | ] m e]; unfold Z_SF_compare;
    try discriminate; eauto.
  - destruct (Z.compare_spec z 0); try discriminate. lia.
  - destruct sg; [discriminate | now left].
  - assert (Hm : (cond_Zopp true (Zpos m) < 0)%Z) by (cbn [cond_Zopp]; lia).
    revert Hm. generalize (cond_Zopp true (Zpos m)). intros v Hv.
    destruct e as [ | p | p]; cbv beta iota zeta;
      match goal with
      | |- Some (?a ?= ?b)%Z = _ -> _ =>
          destruct (Z.compare_spec a b) as [E | L | G]; try discriminate
      end; exfalso.
    + change (2 ^ 0)%Z with 1%Z in L. lia.
    + pose proof (pow2_pos (Zpos p) ltac:(lia)). nia.
    + pose proof (pow2_pos (Zpos p) ltac:(lia)). nia.
Qed.

(** [max(0, x)] is plus infinity or a finite float that is not negative. *)
Lemma dti_adj_class (x : float) :
  Prim2SF (dti_adj_of x) = S754_infinity false
  \/ (is_fin (dti_adj_of x) = true /\ (0 <= value (dti_adj_of x))%Z).
Proof.
  unfold dti_adj_of, py_max, py_gt, py_lt.
  destruct (Z_SF_compare 0 (Prim2SF x)) as [[ | | ] | ] eqn:C;
    try (right; split; [reflexivity | change (value (Z2float 0)) with 0%Z; lia]).
  unfold is_fin, value.
  destruct (Z_SF_compare_Lt _ _ eq_refl C) as [-> | (m & e & ->)]; [now left | right].
  split; [reflexivity | ]. cbn [Vz cond_Zopp].
  apply Z.mul_nonneg_nonneg; [lia | apply Z.pow_nonneg; lia].
Qed.

(** [max(-0.5, min(0.5, q))] is a finite float between -0.5 and 0.5. *)
Lemma income_adj_class (q : float) :
  is_fin (income_adj_of q) = true
  /\ (ordf (-0.5) <= ordf (income_adj_of q) <= ordf 0.5)%Z.
Proof.
  assert (Hlo : (- ord_inf < ordf (-0.5))%Z) by (vm_compute; reflexivity).
  assert (Hhi : (ordf 0.5 < ord_inf)%Z) by (vm_compute; reflexivity).
  assert (Hlh : (ordf (-0.5) <= ordf 0.5)%Z) by (vm_compute; discriminate).
  unfold income_adj_of. destruct (q <? 0.5) eqn:E1.
  - apply ltb_true_num in E1. destruct E1 as (Nq & _ & Lq).
    destruct ((-0.5) <? q) eqn:E2.
    + apply ltb_true_num in E2. destruct E2 as (_ & _ & L2).
      split; [apply num_between_fin; [assumption | lia] | lia].
    + split; [reflexivity | lia].
  - change ((-0.5) <? 0.5) with true. cbv iota. split; [reflexivity | lia].
Qed.

(** The base rate of grade [g] is the float [6 + 2 g]. *)
Lemma base_rate_value (g : Z) (fg : float) :
  (1 <= g <= 7)%Z -> grade_steps (PyInt g) = inr fg ->
  is_fin (8.0 + fg * 2.0) = true
  /\ value (8.0 + fg * 2.0) = ((6 + 2 * g) * 2 ^ 1074)%Z.
Proof.
  intros Hg Hfg.
  assert (Hcases : (g = 1 \/ g = 2 \/ g = 3 \/ g = 4 \/ g = 5 \/ g = 6 \/ g = 7)%Z)
    by lia.
  decompose [or] Hcases; subst g; vm_compute in Hfg;
    injection Hfg as <-; split; vm_compute; reflexivity.
Qed.

Section Sum.

Variables (b1 b2 d i : float).
Hypothesis (Fb1 : is_fin b1 = true) (Fb2 : is_fin b2 = true).
Hypothesis (Hb1 : (value 8 <= value b1)%Z) (Hb : (value b1 <= value b2)%Z).
Hypothesis (Hd : Prim2SF d = S754_infinity false
                 \/ (is_fin d = true /\ (0 <= value d)%Z)).
Hypothesis (Fi : is_fin i = true) (Hi : (ordf (-0.5) <= ordf i)%Z).

(** The first addition, [base_rate + dti_adj]. *)
Lemma first_sum :
  pos_num (b1 + d) /\ pos_num (b2 + d)
  /\ (ordf 8 <= ordf (b1 + d) <= ordf (b2 + d))%Z.
Proof.
  assert (V8 : (0 < value 8)%Z) by (vm_compute; reflexivity).
  assert (Oi : (0 < ord_inf)%Z) by (vm_compute; reflexivity).
  destruct Hd as [Id | (Fd & Vd)].
  - pose proof (add_inf_r b1 d Fb1 Id) as S1.
    pose proof (add_inf_r b2 d Fb2 Id) as S2.
    unfold pos_num, is_num, ordf. rewrite S1, S2. cbn [not_nan ord cond_Zopp].
    repeat split; try assumption; try lia.
    apply (ord_bounds (Prim2SF 8)), Prim2SF_valid.
  - split; [apply add_pos_class; try assumption; lia | ].
    split; [apply add_pos_class; try assumption; lia | ].
    split; [ | apply add_mono_fin; try assumption; lia].
    change (ordf 8) with (ordf (8 + 0)).
    apply add_mono_fin; try assumption; try reflexivity;
      change (value 0) with 0%Z; lia.
Qed.

(** The second addition, [... + income_adj]. *)
Lemma rate_sum :
  pos_num (b1 + d + i) /\ pos_num (b2 + d + i)
  /\ (ordf 7.5 <= ordf (b1 + d + i) <= ordf (b2 + d + i))%Z.
Proof.
  destruct first_sum as (P1 & P2 & H8 & H12).
  assert (P8 : pos_num 8) by (split; vm_compute; reflexivity).
  assert (F8 : is_fin 8 = true) by reflexivity.
  assert (Fh : is_fin (-0.5) = true) by reflexivity.
  assert (V8h : (0 < value 8 + value (-0.5))%Z) by (vm_compute; reflexivity).
  assert (Vi : (value (-0.5) <= value i)%Z) by (apply value_ordf_le; assumption).
  assert (S1 : is_fin (b1 + d) = true -> (0 < value (b1 + d) + value i)%Z).
  { intros F1. assert (value 8 <= value (b1 + d))%Z by (apply value_ordf_le; assumption).
    lia. }
  destruct (add_mono_pos (b1 + d) (b2 + d) i i P1 P2 H12 Fi Fi ltac:(lia) S1)
    as (Q1 & Q2 & H).
  destruct (add_mono_pos 8 (b1 + d) (-0.5) i P8 P1 H8 Fh Fi Hi ltac:(intros _; exact V8h))
    as (_ & _ & H').
  change (8 + -0.5) with 7.5 in H'. auto.
Qed.

End Sum.

(** The clamp of the rate, on positions. *)
Lemma clamp_rate_ordf (x : float) :
  is_num x = true ->
  is_num (clamp_rate x) = true
  /\ ordf (clamp_rate x) = Z.max (ordf 5.99) (Z.min (ordf 29.99) (ordf x)).
Proof.
  intros N.
  assert (N1 : is_num 5.99 = true) by reflexivity.
  assert (N2 : is_num 29.99 = true) by reflexivity.
  assert (H12 : (ordf 5.99 < ordf 29.99)%Z) by (vm_compute; reflexivity).
  unfold clamp_rate. rewrite (ltb_ordf x 29.99) by assumption.
  destruct (Z.ltb_spec (ordf x) (ordf 29.99)).
  - rewrite (ltb_ordf 5.99 x) by assumption.
    destruct (Z.ltb_spec (ordf 5.99) (ordf x)); split; try assumption; lia.
  - change (5.99 <? 29.99) with true. cbv iota. split; [assumption | lia].
Qed.

End RateOrder.

(** ** The rate over the seven grades *)

Section RateOfGrade.

Local Open Scope float_scope.

Lemma inr_inj {A : Type} (a b : A) : @inr PyExc A a = inr b -> a = b.
Proof. congruence. Qed.

(** The unclamped rates of two runs that differ in the grade only. *)
Lemma rate_sum_of_grades (g1 g2 : Z) (fg1 fg2 x q : float) :
  (1 <= g1)%Z -> (g1 <= g2)%Z -> (g2 <= 7)%Z ->
  grade_steps (PyInt g1) = inr fg1 -> grade_steps (PyInt g2) = inr fg2 ->
  let f1 := 8.0 + fg1 * 2.0 + dti_adj_of x + income_adj_of q in
  let f2 := 8.0 + fg2 * 2.0 + dti_adj_of x + income_adj_of q in
  is_num f1 = true /\ is_num f2 = true
  /\ (ordf 7.5 <= ordf f1 <= ordf f2)%Z.
Proof.
  intros H1 H12 H2 Hg1 Hg2.
  destruct (base_rate_value g1 fg1 ltac:(lia) Hg1) as (F1 & V1).
  destruct (base_rate_value g2 fg2 ltac:(lia) Hg2) as (F2 & V2).
  destruct (income_adj_class q) as (Fi & Hi & _).
  assert (V8 : value 8 = (8 * 2 ^ 1074)%Z) by (vm_compute; reflexivity).
  pose proof (pow2_pos 1074 ltac:(lia)) as P.
  destruct (rate_sum (8.0 + fg1 * 2.0) (8.0 + fg2 * 2.0) (dti_adj_of x)
                     (income_adj_of q) F1 F2) as ((N1 & _) & (N2 & _) & H);
    try assumption.
  - rewrite V8, V1. nia.
  - rewrite V1, V2. nia.
  - apply dti_adj_class.
  - cbv zeta. auto.
Qed.

(** C3: for two credit grades g1 <= g2 of the range [1,7] and the same
    loan amount, income and DTI, the apr returned for g1 is at most the
    apr returned for g2. *)
Theorem apr_monotone_in_grade (loan_amnt annual_inc dti : pynum) (g1 g2 : Z)
  (r1 r2 : PricingResult) :
  (1 <= g1)%Z -> (g1 <= g2)%Z -> (g2 <= 7)%Z ->
  get_real_pricing loan_amnt annual_inc dti (PyInt g1) = Some r1 ->
  get_real_pricing loan_amnt annual_inc dti (PyInt g2) = Some r2 ->
  py_le (apr r1) (apr r2) = true.
Proof.
  intros H1 H12 H2 Hr1 Hr2.
  apply get_real_pricing_Some in Hr1. apply get_real_pricing_Some in Hr2.
  destruct (pricing_try_inv _ _ _ _ _ Hr1)
    as (fg1 & x & q & Hg1 & Hx & Hq & -> & _).
  destruct (pricing_try_inv _ _ _ _ _ Hr2)
    as (fg2 & x' & q' & Hg2 & Hx' & Hq' & -> & _).
  rewrite Hx in Hx'. apply inr_inj in Hx'. subst x'.
  rewrite Hq in Hq'. apply inr_inj in Hq'. injection Hq' as <-.
  destruct (rate_sum_of_grades g1 g2 fg1 fg2 x q H1 H12 H2 Hg1 Hg2)
    as (N1 & N2 & _ & H).
  destruct (clamp_rate_ordf _ N1) as (C1 & O1).
  destruct (clamp_rate_ordf _ N2) as (C2 & O2).
  cbn [py_le]. rewrite leb_ordf by assumption. apply Z.leb_le. lia.
Qed.

(** C9: for a credit grade in [1,7], a DTI that is not negative and any
    income, the apr is at least 7.5 and at most 29.99, and the lower clamp
    bound 5.99 is never attained. *)
Theorem apr_at_least_7_5 (loan_amnt annual_inc dti : pynum) (g : Z)
  (r : PricingResult) :
  (1 <= g <= 7)%Z ->
  py_le (PyInt 0) dti = true ->
  get_real_pricing loan_amnt annual_inc dti (PyInt g) = Some r ->
  py_le (PyFloat 7.5) (apr r) = true
  /\ py_le (apr r) (PyFloat 29.99) = true
  /\ py_lt (PyFloat 5.99) (apr r) = true.
Proof.
  intros Hg _ Hr.
  apply get_real_pricing_Some in Hr.
  destruct (pricing_try_inv _ _ _ _ _ Hr)
    as (fg & x & q & Hfg & _ & _ & -> & _).
  destruct (rate_sum_of_grades g g fg fg x q ltac:(lia) ltac:(lia) ltac:(lia) Hfg Hfg)
    as (N & _ & H & _).
  destruct (clamp_rate_ordf _ N) as (C & O).
  assert (H1 : (ordf 5.99 < ordf 7.5)%Z) by (vm_compute; reflexivity).
  assert (H2 : (ordf 7.5 <= ordf 29.99)%Z) by (vm_compute; discriminate).
  cbn [py_le py_lt].
  rewrite !leb_ordf, ltb_ordf by (assumption || reflexivity).
  split; [apply Z.leb_le; lia | ].
  split; [apply Z.leb_le; lia | apply Z.ltb_lt; lia].
Qed.

(** The bound 7.5 is attained: grade 1, no DTI penalty, a high income. *)
Lemma apr_7_5_attained :
  exists r,
    get_real_pricing (PyInt 25000) (PyInt 200000) (PyFloat 0.0) (PyInt 1) = Some r
    /\ apr r = PyFloat 7.5.
Proof. eexists. split; vm_compute; reflexivity. Qed.

End RateOfGrade.

Lemma apr_monotone_in_grade_witness :
  exists r1 r2,
    get_real_pricing (PyInt 25000) (PyInt 65000) (PyFloat 18.0) (PyInt 3) = Some r1
    /\ get_real_pricing (PyInt 25000) (PyInt 65000) (PyFloat 18.0) (PyInt 5) = Some r2
    /\ py_le (apr r1) (apr r2) = true.
Proof.
  eexists. eexists.
  split; [vm_compute; reflexivity | ]. split; [vm_compute; reflexivity | ].
  apply (apr_monotone_in_grade (PyInt 25000) (PyInt 65000) (PyFloat 18.0) 3 5);
    try lia; vm_compute; reflexivity.
Defined.

Lemma apr_at_least_7_5_witness :
  exists r, example_call = Some r
            /\ py_le (PyFloat 7.5) (apr r) = true
            /\ py_le (apr r) (PyFloat 29.99) = true
            /\ py_lt (PyFloat 5.99) (apr r) = true.
Proof.
  eexists. split; [vm_compute; reflexivity | ].
  apply (apr_at_least_7_5 (PyInt 25000) (PyInt 65000) (PyFloat 18.0) 3);
    [lia | vm_compute; reflexivity | vm_compute; reflexivity].
Defined.

(** ** Conversions that fit *)

Lemma round_pos_valid (sx : bool) (N : Z) :
  0 < N -> valid_binary (round_pos sx N) = true.
Proof.
  intros HN. unfold round_pos, finish_round.
  pose proof (rne_drop_bounds N HN) as (B & L).
  pose proof (drop_nonneg N) as Hk.
  set (k := drop N) in *. set (m1 := rne N k) in *. clearbody k m1.
  change (2 ^ 52) with 4503599627370496 in *.
  change (2 ^ 53) with 9007199254740992 in *.
  destruct (Z.eqb_spec m1 0); [lia | ].
  destruct (Z.eqb_spec m1 9007199254740992) as [E | NE].
  - destruct (Z.leb_spec (k - 1074 + 1) 971) as [Le | Gt]; [ | reflexivity].
    cbn [valid_binary]. unfold bounded, canonical_mantissa.
    rewrite fexp_eq. apply andb_true_iff. split.
    + apply Z.eqb_eq. change (Zpos (digits2_pos (Z.to_pos 4503599627370496))) with 53. lia.
    + apply Z.leb_le. exact Le.
  - destruct (Z.leb_spec (k - 1074) 971) as [Le | Gt]; [ | reflexivity].
    cbn [valid_binary]. unfold bounded, canonical_mantissa.
    rewrite fexp_eq. apply andb_true_iff. split; [ | apply Z.leb_le; exact Le].
    apply Z.eqb_eq.
    pose proof (digits2_pos_bounds (Z.to_pos m1)) as D.
    rewrite Z2Pos.id in D by lia.
    set (d := Zpos (digits2_pos (Z.to_pos m1))) in *.
    assert (Hd53 : d <= 53).
    { destruct (Z_le_gt_dec d 53); [assumption | ].
      assert (2 ^ 53 <= 2 ^ (d - 1)) by (apply Z.pow_le_mono_r; lia).
      change (2 ^ 53) with 9007199254740992 in *. lia. }
    destruct (Z.eq_dec k 0) as [K0 | KN]; [lia | ].
    specialize (L ltac:(lia)).
    assert (d = 53); [ | lia].
    destruct (Z_le_gt_dec 53 d); [lia | ].
    assert (2 ^ d <= 2 ^ 52) by (apply Z.pow_le_mono_r; lia).
    change (2 ^ 52) with 4503599627370496 in *. lia.
Qed.

Lemma round_pos_finite (sx : bool) (N : Z) :
  0 < N < 2 ^ 2097 ->
  exists m e, round_pos sx N = S754_finite sx m e.
Proof.
  intros (HN & HN'). unfold round_pos, finish_round.
  pose proof (rne_drop_bounds N HN) as (B & L).
  assert (Hd : Zdigits2 N <= 2097).
  { pose proof (Zdigits2_bounds N HN).
    destruct (Z_le_gt_dec (Zdigits2 N) 2097); [assumption | ].
    assert (2 ^ 2097 <= 2 ^ (Zdigits2 N - 1)) by (apply Z.pow_le_mono_r; lia).
    lia. }
  assert (Hk : 0 <= drop N <= 2044) by (unfold drop; lia).
  destruct (Z.eqb_spec (rne N (drop N)) 0); [lia | ].
  destruct (Z.eqb_spec (rne N (drop N)) (2 ^ 53)).
  - destruct (Z.leb_spec (drop N - 1074 + 1) 971); [eauto | lia].
  - destruct (Z.leb_spec (drop N - 1074) 971); [eauto | lia].
Qed.

Lemma Z2SF_fits (z : Z) :
  Z.abs z < 2 ^ 1023 ->
  valid_binary (Z2SF z) = true
  /\ (z = 0 /\ Z2SF z = S754_zero false
      \/ z <> 0 /\ exists m e, Z2SF z = S754_finite (z <? 0) m e).
Proof.
  intros Hz. unfold Z2SF.
  assert (P : 2 ^ 2097 = 2 ^ 1023 * 2 ^ 1074) by (rewrite <- Z.pow_add_r by lia; reflexivity).
  pose proof (pow2_pos 1074 ltac:(lia)) as P1.
  destruct z as [ | p | p]; cbn [binary_normalize].
  - split; [reflexivity | left; auto].
  - rewrite binary_round_spec by lia. change (0 + 1074) with 1074.
    split; [apply round_pos_valid; lia | right].
    split; [lia | apply round_pos_finite]. rewrite P. nia.
  - rewrite binary_round_spec by lia. change (0 + 1074) with 1074.
    split; [apply round_pos_valid; lia | right].
    split; [lia | apply round_pos_finite]. rewrite P. nia.
Qed.

Lemma float_of_int_fits (z : Z) :
  Z.abs z < 2 ^ 1023 -> float_of_int z = inr (Z2float z).
Proof.
  intros Hz. unfold float_of_int, Z2float.
  destruct (Z2SF_fits z Hz) as (_ & [(_ & ->) | (_ & m & e & ->)]); reflexivity.
Qed.

Lemma Z2float_zero_iff (z : Z) :
  Z.abs z < 2 ^ 1023 -> (Z2float z =? 0)%float = (z =? 0).
Proof.
  intros Hz. unfold Z2float. rewrite FloatAxioms.eqb_spec.
  destruct (Z2SF_fits z Hz) as (V & [(-> & E) | (N & m & e & E)]).
  - rewrite Prim2SF_SF2Prim by assumption. rewrite E. reflexivity.
  - rewrite Prim2SF_SF2Prim by assumption. rewrite E.
    destruct (Z.eqb_spec z 0); [contradiction | ].
    change (Prim2SF 0) with (S754_zero false). cbn. now destruct (z <? 0).
Qed.

(** ** A division that fits *)

Lemma shr_1_m (mrs : shr_record) :
  0 <= shr_m mrs -> shr_m (shr_1 mrs) = shr_m mrs / 2.
Proof.
  intros H. rewrite shr_1_nonneg by assumption. cbn [shr_m]. apply Z.div2_div.
Qed.

Lemma iter_pos_shr_m (p : positive) :
  forall mrs, 0 <= shr_m mrs ->
  shr_m (iter_pos shr_1 p mrs) = shr_m mrs / 2 ^ Zpos p.
Proof.
  induction p as [p IH | p IH | ]; intros mrs H; cbn [iter_pos].
  - assert (H1 : 0 <= shr_m (shr_1 mrs)).
    { rewrite shr_1_m by assumption. apply Z.div_pos; lia. }
    assert (H2 : 0 <= shr_m (iter_pos shr_1 p (shr_1 mrs))).
    { rewrite IH by assumption. apply Z.div_pos; [assumption | ]. apply pow2_pos. lia. }
    rewrite IH, IH, shr_1_m by assumption.
    pose proof (pow2_pos (Zpos p) ltac:(lia)).
    rewrite !Z.div_div by lia. f_equal.
    replace (Zpos p~1) with (1 + Zpos p + Zpos p) by lia.
    rewrite !Z.pow_add_r by lia. change (2 ^ 1) with 2. ring.
  - assert (H2 : 0 <= shr_m (iter_pos shr_1 p mrs)).
    { rewrite IH by assumption. apply Z.div_pos; [assumption | ]. apply pow2_pos. lia. }
    rewrite IH, IH by assumption.
    pose proof (pow2_pos (Zpos p) ltac:(lia)).
    rewrite !Z.div_div by lia. f_equal.
    replace (Zpos p~0) with (Zpos p + Zpos p) by lia.
    rewrite !Z.pow_add_r by lia. ring.
  - rewrite shr_1_m by assumption. reflexivity.
Qed.

Lemma shr_m_e (mrs : shr_record) (e n : Z) :
  0 <= shr_m mrs ->
  shr_m (fst (shr mrs e n)) = shr_m mrs / 2 ^ Z.max n 0
  /\ snd (shr mrs e n) = e + Z.max n 0.
Proof.
  intros H. destruct n as [ | p | p]; cbn [shr fst snd].
  - change (2 ^ Z.max 0 0) with 1. rewrite Z.div_1_r. split; [reflexivity | lia].
  - rewrite iter_pos_shr_m by assumption. split; [reflexivity | lia].
  - change (2 ^ Z.max (Zneg p) 0) with 1. rewrite Z.div_1_r. split; [reflexivity | lia].
Qed.

Lemma round_nearest_even_bounds (m : Z) (l : location) :
  m <= round_nearest_even m l <= m + 1.
Proof.
  unfold round_nearest_even. destruct l as [ | [ | | ]]; try destruct (Z.even m); lia.
Qed.

Lemma Zdigits2_le_pow (m j : Z) : 0 <= j -> 0 <= m <= 2 ^ j -> Zdigits2 m <= j + 1.
Proof.
  intros Hj Hm. destruct (Z.eq_dec m 0) as [-> | N]; [simpl; lia | ].
  pose proof (Zdigits2_bounds m ltac:(lia)).
  destruct (Z_le_gt_dec (Zdigits2 m) (j + 1)); [assumption | ].
  assert (2 ^ (j + 1) <= 2 ^ (Zdigits2 m - 1)) by (apply Z.pow_le_mono_r; lia).
  rewrite Z.pow_add_r in * by lia. change (2 ^ 1) with 2 in *.
  pose proof (pow2_pos j Hj). lia.
Qed.

Lemma shr_record_of_loc_m (m : Z) (l : location) : shr_m (shr_record_of_loc m l) = m.
Proof. destruct l as [ | [ | | ]]; reflexivity. Qed.

(** Any mantissa and exponent below the overflow threshold round to a
    float that is not an infinity, whatever the inexactness flag. *)
Lemma binary_round_aux_no_overflow (sx : bool) (mx ex : Z) (lx : location) :
  0 <= mx -> Z.max ex (Zdigits2 mx + ex - 52) <= 971 ->
  forall s, binary_round_aux prec emax sx mx ex lx <> S754_infinity s.
Proof.
  intros Hm Hb s. unfold binary_round_aux, shr_fexp.
  set (n1 := fexp prec emax (Zdigits2 mx + ex) - ex).
  pose proof (shr_m_e (shr_record_of_loc mx lx) ex n1) as S1.
  rewrite shr_record_of_loc_m in S1. specialize (S1 Hm).
  destruct (shr (shr_record_of_loc mx lx) ex n1) as [mrs' e'].
  cbn [fst snd] in S1. destruct S1 as (M1 & E1).
  set (m1 := round_nearest_even (shr_m mrs') (loc_of_shr_record mrs')).
  pose proof (round_nearest_even_bounds (shr_m mrs') (loc_of_shr_record mrs')) as R.
  fold m1 in R.
  pose proof (pow2_pos (Z.max n1 0) ltac:(lia)) as P1.
  assert (M0 : 0 <= shr_m mrs') by (rewrite M1; apply Z.div_pos; lia).
  set (n2 := fexp prec emax (Zdigits2 m1 + e') - e').
  pose proof (shr_m_e (shr_record_of_loc m1 loc_Exact) e' n2) as S2.
  rewrite shr_record_of_loc_m in S2. specialize (S2 ltac:(lia)).
  destruct (shr (shr_record_of_loc m1 loc_Exact) e' n2) as [mrs'' e''].
  cbn [fst snd] in S2. destruct S2 as (_ & E2).
  assert (Hd : Zdigits2 m1 + e' <= Z.max (Zdigits2 mx + ex) e' + 1).
  { set (j := Z.max (Zdigits2 mx - Z.max n1 0) 0).
    assert (Hj : m1 <= 2 ^ j).
    { destruct (Z.eq_dec mx 0) as [-> | N].
      - rewrite Z.div_0_l in M1 by lia. pose proof (pow2_pos j ltac:(subst j; lia)). lia.
      - pose proof (Zdigits2_bounds mx ltac:(lia)) as D.
        assert (shr_m mrs' < 2 ^ j); [ | lia].
        rewrite M1. apply Z.div_lt_upper_bound; [lia | ].
        rewrite <- Z.pow_add_r by (subst j; lia).
        apply Z.lt_le_trans with (2 ^ Zdigits2 mx); [lia | ].
        apply Z.pow_le_mono_r; subst j; lia. }
    pose proof (Zdigits2_le_pow m1 j ltac:(subst j; lia) ltac:(lia)).
    subst j. lia. }
  assert (He : e'' <= 971).
  { subst n1 n2. rewrite !fexp_eq in *. lia. }
  destruct (shr_m mrs''); try discriminate.
  destruct (Z.leb_spec e'' (emax - prec)); [discriminate | ].
  change (emax - prec) with 971 in *. lia.
Qed.

Lemma int_true_divide_fits (a b : Z) :
  b <> 0 -> Z.abs a < 2 ^ 1023 -> exists f, int_true_divide a b = inr f.
Proof.
  intros Hb Ha. unfold int_true_divide.
  destruct (Z.eqb_spec b 0); [contradiction | ].
  destruct (Z.eqb_spec a 0); [eexists; reflexivity | ].
  destruct (SFdiv_core_binary prec emax (Z.abs a) 0 (Z.abs b) 0) as [[q e] l] eqn:E.
  enough (B : 0 <= q /\ Z.max e (Zdigits2 q + e - 52) <= 971).
  { destruct B as (B1 & B2).
    pose proof (binary_round_aux_no_overflow (xorb (a <? 0) (b <? 0)) q e l B1 B2) as N.
    destruct (binary_round_aux prec emax (xorb (a <? 0) (b <? 0)) q e l) eqn:R;
      try (eexists; reflexivity).
    exfalso. eapply N. reflexivity. }
  unfold SFdiv_core_binary in E.
  set (d1 := Zdigits2 (Z.abs a)) in *. set (d2 := Zdigits2 (Z.abs b)) in *.
  set (e' := Z.min (fexp prec emax (d1 + 0 - (d2 + 0))) (0 - 0)) in *.
  assert (He' : e' <= 0) by (subst e'; lia).
  assert (Hd1 : d1 <= 1023).
  { subst d1. pose proof (Zdigits2_bounds (Z.abs a) ltac:(lia)).
    destruct (Z_le_gt_dec (Zdigits2 (Z.abs a)) 1023); [assumption | ].
    assert (2 ^ 1023 <= 2 ^ (Zdigits2 (Z.abs a) - 1)) by (apply Z.pow_le_mono_r; lia).
    lia. }
  assert (Hm' : match 0 - 0 - e' with
                | 0 => Z.abs a
                | Zpos _ => Z.shiftl (Z.abs a) (0 - 0 - e')
                | Zneg _ => 0
                end = Z.abs a * 2 ^ (- e')).
  { replace (0 - 0 - e') with (- e') by lia.
    destruct (- e') as [ | p | p] eqn:Ee.
    - change (2 ^ 0) with 1. lia.
    - rewrite Z.shiftl_mul_pow2 by lia. reflexivity.
    - lia. }
  rewrite Hm' in E. set (m' := Z.abs a * 2 ^ (- e')) in *.
  pose proof (Z_div_mod m' (Z.abs b) ltac:(lia)) as DM.
  change (IntDef.Z.div_eucl m' (Z.abs b)) with (Z.div_eucl m' (Z.abs b)) in E.
  destruct (Z.div_eucl m' (Z.abs b)) as [q0 r0]. injection E as <- <- _.
  destruct DM as (DM & Hr).
  pose proof (pow2_pos (- e') ltac:(lia)) as P.
  assert (Hq : 0 <= q0 <= m') by nia.
  split; [lia | ].
  destruct (Z.eq_dec q0 0) as [-> | Nq]; [cbn [Zdigits2]; lia | ].
  pose proof (Zdigits2_le q0 m' ltac:(lia) ltac:(lia)) as L.
  subst m'. rewrite Zdigits2_shift in L by lia. fold d1 in L. lia.
Qed.

(** ** The pricing run in closed form *)

Section Closed.

Local Open Scope float_scope.

Lemma py_add_l_ok (x y : float) (b : pynum) :
  as_float b = inr y -> py_add (PyFloat x) b = inr (PyFloat (x + y)).
Proof.
  intros H. destruct b; cbn [py_add as_float bind ret] in *;
    [now rewrite H | now injection H as <-].
Qed.

Lemma py_mul_l_ok (x y : float) (b : pynum) :
  as_float b = inr y -> py_mul (PyFloat x) b = inr (PyFloat (x * y)).
Proof.
  intros H. destruct b; cbn [py_mul as_float bind ret] in *;
    [now rewrite H | now injection H as <-].
Qed.

Lemma py_mul_r_ok (x y : float) (a : pynum) :
  as_float a = inr x -> py_mul a (PyFloat y) = inr (PyFloat (x * y)).
Proof.
  intros H. destruct a; cbn [py_mul as_float bind ret] in *;
    [now rewrite H | now injection H as <-].
Qed.

Lemma py_truediv_l_ok (x y : float) (b : pynum) :
  as_float b = inr y ->
  py_truediv (PyFloat x) b
  = if y =? 0 then inl ZeroDivisionError else inr (PyFloat (x / y)).
Proof.
  intros H. destruct b; cbn [py_truediv as_float bind ret] in *;
    [now rewrite H | now injection H as <-].
Qed.

Lemma py_add_ff (x y : float) :
  py_add (PyFloat x) (PyFloat y) = inr (PyFloat (x + y)).
Proof. reflexivity. Qed.

Lemma py_sub_ff (x y : float) :
  py_sub (PyFloat x) (PyFloat y) = inr (PyFloat (x - y)).
Proof. reflexivity. Qed.

Lemma py_mul_ff (x y : float) :
  py_mul (PyFloat x) (PyFloat y) = inr (PyFloat (x * y)).
Proof. reflexivity. Qed.

Lemma as_float_dti_adj (x : float) :
  as_float (py_max (PyInt 0) (PyFloat x)) = inr (dti_adj_of x).
Proof.
  unfold dti_adj_of, py_max. destruct (py_gt (PyFloat x) (PyInt 0)); reflexivity.
Qed.

Lemma pricing_try_closed (loan_amnt annual_inc dti grade_num : pynum)
  (fl fg x q : float) :
  as_float loan_amnt = inr fl ->
  grade_steps grade_num = inr fg ->
  dti_steps dti = inr x ->
  income_steps annual_inc = inr (PyFloat q) ->
  pricing_try loan_amnt annual_inc dti grade_num
  = if fl =? 0 then inl ZeroDivisionError
    else inr (result_of fl fg x q (risk_tier_of grade_num)).
Proof.
  intros Hl Hg Hd Hi.
  unfold grade_steps in Hg. apply bind_inr in Hg. destruct Hg as (g1 & Hg1 & Hfg).
  unfold dti_steps in Hd. apply bind_inr in Hd. destruct Hd as (d1 & Hd1 & Hd).
  apply bind_inr in Hd. destruct Hd as (fd & Hfd & Hx). apply ret_inr in Hx. subst x.
  unfold income_steps in Hi. apply bind_inr in Hi. destruct Hi as (i1 & Hi1 & Hi2).
  assert (C100 : as_float (PyInt 100) = inr 100) by reflexivity.
  assert (C4 : as_float (PyInt 4) = inr 4) by reflexivity.
  assert (C300 : as_float (PyInt 300) = inr 300) by reflexivity.
  unfold pricing_try.
  rewrite Hg1. cbn [bind].
  rewrite (py_mul_r_ok _ _ _ Hfg). cbn [bind].
  rewrite py_add_ff. cbn [bind].
  rewrite Hd1. cbn [bind].
  rewrite (py_mul_r_ok _ _ _ Hfd). cbn [bind].
  rewrite Hi1. cbn [bind]. rewrite Hi2. cbn [bind].
  rewrite (py_add_l_ok _ _ _ (as_float_dti_adj _)). cbn [bind].
  rewrite py_min_float, py_max_float.
  rewrite py_add_ff. cbn [bind].
  rewrite (py_mul_r_ok _ 0.05 _ Hfg). cbn [bind].
  rewrite py_add_ff. cbn [bind].
  repeat (rewrite py_min_float || rewrite py_max_float).
  rewrite (py_truediv_l_ok _ _ _ C100). change (100 =? 0) with false. cbn [bind].
  rewrite (py_mul_r_ok _ _ _ Hl). cbn [bind].
  rewrite (py_mul_l_ok _ _ _ C4). cbn [bind].
  rewrite (py_mul_l_ok _ _ _ Hl). cbn [bind].
  rewrite py_mul_ff. cbn [bind].
  rewrite (py_add_l_ok _ _ _ C300). cbn [bind].
  rewrite (py_mul_r_ok _ 0.025 _ Hl). cbn [bind].
  rewrite (py_mul_l_ok _ _ _ C4). cbn [bind].
  rewrite py_add_ff. cbn [bind].
  rewrite py_sub_ff. cbn [bind].
  rewrite (py_truediv_l_ok _ _ _ Hl).
  destruct (fl =? 0); reflexivity.
Qed.

End Closed.

Section Totality.

Local Open Scope float_scope.

Lemma pow_1000_1023 : (2 ^ 1023 = 2 ^ 1000 * 8388608)%Z.
Proof. change 1023%Z with (1000 + 23)%Z. rewrite Z.pow_add_r by lia. reflexivity. Qed.

Lemma as_float_ordinary (x : pynum) :
  ordinary x -> exists f, as_float x = inr f /\ (f =? 0) = py_is_zero x.
Proof.
  destruct x as [z | f]; cbn [ordinary as_float py_is_zero]; intros H.
  - pose proof (pow2_pos 1000 ltac:(lia)). pose proof pow_1000_1023.
    exists (Z2float z). split; [apply float_of_int_fits | apply Z2float_zero_iff]; lia.
  - exists f. split; reflexivity.
Qed.

Lemma grade_steps_ordinary (g : pynum) :
  ordinary g -> exists fg, grade_steps g = inr fg.
Proof.
  destruct g as [z | f]; cbn [ordinary]; intros H.
  - pose proof (pow2_pos 1000 ltac:(lia)). pose proof pow_1000_1023.
    exists (Z2float (z - 1)). unfold grade_steps. cbn [py_sub bind ret as_float].
    apply float_of_int_fits. lia.
  - eexists. reflexivity.
Qed.

Lemma dti_steps_ordinary (dti : pynum) :
  ordinary dti -> exists x, dti_steps dti = inr x.
Proof.
  destruct dti as [z | f]; cbn [ordinary]; intros H.
  - pose proof (pow2_pos 1000 ltac:(lia)). pose proof pow_1000_1023.
    eexists. unfold dti_steps. cbn [py_sub bind ret as_float].
    rewrite float_of_int_fits by lia. reflexivity.
  - eexists. reflexivity.
Qed.

Lemma income_steps_ordinary (annual_inc : pynum) :
  ordinary annual_inc -> exists q, income_steps annual_inc = inr (PyFloat q).
Proof.
  destruct annual_inc as [z | f]; cbn [ordinary]; intros H.
  - pose proof (pow2_pos 1000 ltac:(lia)). pose proof pow_1000_1023.
    destruct (int_true_divide_fits (60000 - z) 100000 ltac:(lia) ltac:(lia)) as (q & Hq).
    exists q. unfold income_steps. cbn [py_sub bind ret py_truediv].
    rewrite Hq. reflexivity.
  - eexists. reflexivity.
Qed.

End Totality.

(** ** Inputs outside the documented ranges *)

Section NoValidation.

Local Open Scope float_scope.

(** C7, as stated, fails on the code: a credit grade of 9, a negative loan
    amount and a zero income are priced like any other input, and a loan
    amount of zero makes the function return [None] after a
    [ZeroDivisionError]; nothing validates the inputs. *)
Lemma invalid_inputs_are_priced :
  (exists r,
      get_real_pricing (PyInt 25000) (PyInt 65000) (PyFloat 18.0) (PyInt 9) = Some r
      /\ apr r = PyFloat 23.95 /\ risk_probability r = PyFloat 0.4
      /\ risk_tier r = "Subprime"%string)
  /\ (exists r,
        get_real_pricing (PyInt (-25000)) (PyInt 65000) (PyFloat 18.0) (PyInt 3) = Some r)
  /\ (exists r,
        get_real_pricing (PyInt 25000) (PyInt 0) (PyFloat 18.0) (PyInt 3) = Some r)
  /\ pricing_try (PyInt 0) (PyInt 65000) (PyFloat 18.0) (PyInt 3)
     = inl ZeroDivisionError.
Proof.
  split; [eexists; split; [vm_compute; reflexivity | simpl; auto] | ].
  split; [eexists; vm_compute; reflexivity | ].
  split; [eexists; vm_compute; reflexivity | ].
  vm_compute. reflexivity.
Qed.

(** C7, amended: the pricing function does not validate its inputs.  For
    any floats and any ints below 2^1000 in magnitude, whatever the credit
    grade and the signs of the loan amount and of the income, a call with
    a loan amount other than zero returns a result; a call with a loan
    amount of zero raises [ZeroDivisionError] inside the function, which
    catches it and returns [None]. *)
Theorem pricing_without_validation (loan_amnt annual_inc dti grade_num : pynum) :
  ordinary loan_amnt -> ordinary annual_inc -> ordinary dti ->
  ordinary grade_num ->
  (py_is_zero loan_amnt = false ->
   exists r, get_real_pricing loan_amnt annual_inc dti grade_num = Some r
             /\ risk_tier r = risk_tier_of grade_num)
  /\ (py_is_zero loan_amnt = true ->
      pricing_try loan_amnt annual_inc dti grade_num = inl ZeroDivisionError
      /\ get_real_pricing loan_amnt annual_inc dti grade_num = None).
Proof.
  intros Ol Oi Od Og.
  destruct (as_float_ordinary _ Ol) as (fl & Hl & Hz).
  destruct (grade_steps_ordinary _ Og) as (fg & Hg).
  destruct (dti_steps_ordinary _ Od) as (x & Hx).
  destruct (income_steps_ordinary _ Oi) as (q & Hq).
  unfold get_real_pricing.
  rewrite (pricing_try_closed _ _ _ _ _ _ _ _ Hl Hg Hx Hq), Hz.
  split; intros ->; [eexists | ]; split; reflexivity.
Qed.

End NoValidation.

Lemma pricing_without_validation_witness :
  exists r,
    get_real_pricing (PyInt 25000) (PyInt 0) (PyFloat 18.0) (PyInt 9) = Some r
    /\ risk_tier r = risk_tier_of (PyInt 9).
Proof.
  refine (proj1 (pricing_without_validation
                   (PyInt 25000) (PyInt 0) (PyFloat 18.0) (PyInt 9) _ _ _ _)
                eq_refl);
    cbn [ordinary]; try exact I;
    (apply Z.lt_le_trans with (2 ^ 20)%Z;
     [reflexivity | apply Z.pow_le_mono_r; lia]).
Defined.

(** * Signed rounding *)

Lemma RNu_0 (N : Z) : RNu 0 N = RN N.
Proof. unfold RNu, RN, drop. cbv zeta. now rewrite Z.sub_0_r. Qed.

Lemma rne_shift_bounds (u N : Z) :
  0 <= u -> 0 < N ->
  let k := Z.max (Zdigits2 N - 53) u in
  0 <= rne N k <= 2 ^ 53 /\ (u < k -> 2 ^ 52 <= rne N k).
Proof.
  intros Hu HN k. pose proof (Zdigits2_bounds N HN) as B.
  assert (Hk : 0 <= k) by (subst k; lia).
  pose proof (rne_bounds N k Hk) as R.
  pose proof (pow2_pos k Hk) as P.
  split.
  - apply rne_lt_pow; try lia. split; [lia | ].
    apply Z.lt_le_trans with (2 ^ Zdigits2 N); [lia | ].
    apply Z.pow_le_mono_r; subst k; lia.
  - intros Hlt. assert (2 ^ 52 <= N / 2 ^ k); [ | lia].
    apply Z.div_le_lower_bound; [lia | ].
    rewrite <- Z.pow_add_r by lia.
    apply Z.le_trans with (2 ^ (Zdigits2 N - 1)); [ | lia].
    apply Z.pow_le_mono_r; subst k; lia.
Qed.

Lemma RNu_mono (u a b : Z) : 0 <= u -> 0 < a -> a <= b -> RNu u a <= RNu u b.
Proof.
  intros Hu Ha Hab. unfold RNu. cbv zeta.
  pose proof (rne_shift_bounds u a Hu Ha) as (Ba & _).
  pose proof (rne_shift_bounds u b Hu ltac:(lia)) as (_ & Bb).
  cbv zeta in Ba, Bb.
  pose proof (Zdigits2_le a b Ha Hab) as Hd.
  set (ka := Z.max (Zdigits2 a - 53) u) in *.
  set (kb := Z.max (Zdigits2 b - 53) u) in *.
  assert (Hk : ka <= kb) by (subst ka kb; lia).
  destruct (Z.eq_dec ka kb) as [E | NE].
  - rewrite <- E. pose proof (rne_mono a b ka ltac:(subst ka; lia) Hab).
    lia.
  - specialize (Bb ltac:(subst ka kb; lia)).
    change (2 ^ 53) with (2 * 2 ^ 52) in Ba.
    assert (0 < 2 ^ 52) by (apply pow2_pos; lia). nia.
Qed.

Lemma RNu_nonneg (u N : Z) : 0 <= u -> 0 < N -> 0 <= RNu u N.
Proof.
  intros Hu HN. unfold RNu. cbv zeta.
  pose proof (rne_shift_bounds u N Hu HN) as (B & _). cbv zeta in B.
  assert (0 < 2 ^ 52) by (apply pow2_pos; lia). nia.
Qed.

Lemma RNu_scale (u j N : Z) :
  0 <= u -> 0 <= j -> 0 < N -> RNu (u + j) (N * 2 ^ j) = RNu u N.
Proof.
  intros Hu Hj HN. unfold RNu. cbv zeta.
  rewrite Zdigits2_shift by lia.
  replace (Z.max (Zdigits2 N + j - 53) (u + j)) with (Z.max (Zdigits2 N - 53) u + j) by lia.
  rewrite rne_scale by lia. f_equal. f_equal. lia.
Qed.

Lemma ord_inf_pos : 0 < ord_inf.
Proof. reflexivity. Qed.

Lemma sround_u_pos (u v : Z) : 0 < v -> sround_u u v = Z.min (RNu u v) ord_inf.
Proof. destruct v; try lia. reflexivity. Qed.

Lemma sround_u_neg (u v : Z) : v < 0 -> sround_u u v = - Z.min (RNu u (- v)) ord_inf.
Proof. destruct v; try lia. reflexivity. Qed.

Lemma sround_u_opp (u v : Z) : sround_u u (- v) = - sround_u u v.
Proof. destruct v; simpl; lia. Qed.

Lemma sround_u_sign (u v : Z) :
  0 <= u ->
  (0 < v -> 0 <= sround_u u v) /\ (v < 0 -> sround_u u v <= 0) /\ (v = 0 -> sround_u u v = 0).
Proof.
  intros Hu. pose proof ord_inf_pos. repeat split; intros Hv.
  - rewrite sround_u_pos by assumption. pose proof (RNu_nonneg u v Hu Hv). lia.
  - rewrite sround_u_neg by assumption. pose proof (RNu_nonneg u (- v) Hu ltac:(lia)). lia.
  - now subst v.
Qed.

(** Rounding is monotone. *)
Lemma sround_u_mono (u a b : Z) : 0 <= u -> a <= b -> sround_u u a <= sround_u u b.
Proof.
  intros Hu Hab. pose proof ord_inf_pos.
  destruct (sround_u_sign u a Hu) as (Pa & Na & Za).
  destruct (sround_u_sign u b Hu) as (Pb & Nb & Zb).
  destruct (Z.lt_trichotomy a 0) as [La | [Ea | Ga]].
  - specialize (Na La).
    destruct (Z.lt_trichotomy b 0) as [Lb | [Eb | Gb]].
    + rewrite !sround_u_neg by assumption.
      pose proof (RNu_mono u (- b) (- a) Hu ltac:(lia) ltac:(lia)). lia.
    + specialize (Zb Eb). lia.
    + specialize (Pb Gb). lia.
  - specialize (Za Ea).
    destruct (Z.lt_trichotomy b 0) as [Lb | [Eb | Gb]]; [lia | | ].
    + specialize (Zb Eb). lia.
    + specialize (Pb Gb). lia.
  - assert (Gb : 0 < b) by lia.
    rewrite !sround_u_pos by assumption.
    pose proof (RNu_mono u a b Hu ltac:(lia) ltac:(lia)). lia.
Qed.

Lemma sround_u_bounds (u v : Z) : 0 <= u -> - ord_inf <= sround_u u v <= ord_inf.
Proof.
  intros Hu. pose proof ord_inf_pos.
  destruct (sround_u_sign u v Hu) as (Pv & Nv & Zv).
  destruct (Z.lt_trichotomy v 0) as [L | [E | G]].
  - specialize (Nv L). rewrite sround_u_neg in * by assumption. lia.
  - rewrite (Zv E). lia.
  - specialize (Pv G). rewrite sround_u_pos in * by assumption. lia.
Qed.

Lemma sround_u_scale (u j v : Z) :
  0 <= u -> 0 <= j -> sround_u (u + j) (v * 2 ^ j) = sround_u u v.
Proof.
  intros Hu Hj. pose proof (pow2_pos j Hj) as P.
  destruct (Z.lt_trichotomy v 0) as [L | [E | G]].
  - rewrite !sround_u_neg by nia. replace (- (v * 2 ^ j)) with (- v * 2 ^ j) by ring.
    rewrite RNu_scale by lia. reflexivity.
  - subst v. reflexivity.
  - rewrite !sround_u_pos by nia. rewrite RNu_scale by lia. reflexivity.
Qed.

(** ** The float of a rounded mantissa *)

Lemma finish_round_facts (sx : bool) (m1 t : Z) :
  -1074 <= t -> 0 <= m1 <= 2 ^ 53 -> (-1074 < t -> 2 ^ 52 <= m1) ->
  ord (finish_round sx m1 t) = cond_Zopp sx (Z.min ((t + 1074) * 2 ^ 52 + m1) ord_inf)
  /\ valid_binary (finish_round sx m1 t) = true
  /\ not_nan (finish_round sx m1 t) = true.
Proof.
  intros Ht B L. unfold finish_round, ord_inf.
  change (2 ^ 52) with 4503599627370496 in *.
  change (2 ^ 53) with 9007199254740992 in *.
  destruct (Z.eqb_spec m1 0) as [E0 | N0].
  - assert (t = -1074) by lia. subst. cbn [ord valid_binary not_nan].
    split; [now destruct sx | auto].
  - destruct (Z.eqb_spec m1 9007199254740992) as [E | NE].
    + destruct (Z.leb_spec (t + 1) 971) as [Le | Gt]; cbn [ord valid_binary not_nan];
        unfold ord_inf; change (2 ^ 52) with 4503599627370496.
      * split; [f_equal; change (Zpos (Z.to_pos 4503599627370496)) with 4503599627370496; lia | ].
        split; [ | reflexivity].
        unfold bounded, canonical_mantissa. rewrite fexp_eq. apply andb_true_iff. split.
        -- apply Z.eqb_eq. change (Zpos (digits2_pos (Z.to_pos 4503599627370496))) with 53. lia.
        -- apply Z.leb_le. exact Le.
      * split; [f_equal; lia | auto].
    + destruct (Z.leb_spec t 971) as [Le | Gt]; cbn [ord valid_binary not_nan];
        unfold ord_inf; change (2 ^ 52) with 4503599627370496.
      * split; [f_equal; rewrite Z2Pos.id by lia; lia | ].
        split; [ | reflexivity].
        unfold bounded, canonical_mantissa.
        rewrite fexp_eq. apply andb_true_iff. split; [ | apply Z.leb_le; exact Le].
        apply Z.eqb_eq.
        pose proof (digits2_pos_bounds (Z.to_pos m1)) as D.
        rewrite Z2Pos.id in D by lia.
        set (d := Zpos (digits2_pos (Z.to_pos m1))) in *.
        assert (Hd53 : d <= 53).
        { destruct (Z_le_gt_dec d 53); [assumption | ].
          assert (2 ^ 53 <= 2 ^ (d - 1)) by (apply Z.pow_le_mono_r; lia).
          change (2 ^ 53) with 9007199254740992 in *. lia. }
        destruct (Z.eq_dec t (-1074)) as [K0 | KN]; [lia | ].
        specialize (L ltac:(lia)).
        assert (d = 53); [ | lia].
        destruct (Z_le_gt_dec 53 d); [lia | ].
        assert (2 ^ d <= 2 ^ 52) by (apply Z.pow_le_mono_r; lia).
        change (2 ^ 52) with 4503599627370496 in *. lia.
      * split; [f_equal | auto]. specialize (L ltac:(lia)). lia.
Qed.

(** An exact product or sum [m * 2^e], however small its exponent, is
    rounded to the float at the position [sround_u]. *)
Lemma binary_round_aux_ord (sx : bool) (m e u : Z) :
  0 < m -> 0 <= u -> - 1074 - u <= e ->
  e <= fexp prec emax (Zdigits2 m + e) ->
  let s := binary_round_aux prec emax sx m e loc_Exact in
  ord s = cond_Zopp sx (Z.min (RNu u (m * 2 ^ (e + 1074 + u))) ord_inf)
  /\ valid_binary s = true /\ not_nan s = true.
Proof.
  intros Hm Hu He Ht s. subst s. rewrite binary_round_aux_exact by assumption.
  set (t := fexp prec emax (Zdigits2 m + e)) in *.
  assert (Htm : t = Z.max (Zdigits2 m + e - 53) (-1074)) by (subst t; apply fexp_eq).
  assert (Hk : Z.max (Zdigits2 (m * 2 ^ (e + 1074 + u)) - 53) u = t + 1074 + u).
  { rewrite Zdigits2_shift by lia. lia. }
  pose proof (rne_shift_bounds u (m * 2 ^ (e + 1074 + u)) Hu
                ltac:(pose proof (pow2_pos (e + 1074 + u) ltac:(lia)); nia)) as (B & L).
  cbv zeta in B, L. rewrite Hk in B, L.
  assert (Hr : rne (m * 2 ^ (e + 1074 + u)) (t + 1074 + u) = rne m (t - e)).
  { replace (t + 1074 + u) with ((t - e) + (e + 1074 + u)) by lia.
    apply rne_scale; lia. }
  rewrite Hr in B, L.
  destruct (finish_round_facts sx (rne m (t - e)) t) as (O & V & N); try lia.
  split; [ | auto]. rewrite O. unfold RNu. cbv zeta. rewrite Hk, Hr.
  f_equal. f_equal. f_equal. f_equal. lia.
Qed.

(** ** The operations on finite floats *)

Lemma cond_Zopp_sround (sx : bool) (u N : Z) :
  0 < N -> cond_Zopp sx (Z.min (RNu u N) ord_inf) = sround_u u (cond_Zopp sx N).
Proof.
  intros HN. destruct sx; cbn [cond_Zopp].
  - rewrite sround_u_neg by lia. now rewrite Z.opp_involutive.
  - now rewrite sround_u_pos.
Qed.

Lemma binary_normalize_ord (M e : Z) :
  -1074 <= e ->
  let s := binary_normalize prec emax M e false in
  ord s = sround (M * 2 ^ (e + 1074)) /\ valid_binary s = true /\ not_nan s = true.
Proof.
  intros He s. subst s. pose proof (pow2_pos (e + 1074) ltac:(lia)) as P.
  destruct M as [ | p | p]; cbn [binary_normalize].
  - auto.
  - rewrite binary_round_spec by assumption. unfold round_pos.
    pose proof (rne_drop_bounds (Zpos p * 2 ^ (e + 1074)) ltac:(lia)) as (B & L).
    pose proof (drop_nonneg (Zpos p * 2 ^ (e + 1074))) as Hk.
    destruct (finish_round_facts false (rne (Zpos p * 2 ^ (e + 1074)) (drop (Zpos p * 2 ^ (e + 1074))))
                (drop (Zpos p * 2 ^ (e + 1074)) - 1074)) as (O & V & N);
      [lia | lia | intros; apply L; lia | ].
    split; [ | auto]. rewrite O. unfold sround. rewrite sround_u_pos by lia.
    rewrite RNu_0. unfold RN. cbn [cond_Zopp]. f_equal. f_equal. f_equal. lia.
  - rewrite binary_round_spec by assumption. unfold round_pos.
    pose proof (rne_drop_bounds (Zpos p * 2 ^ (e + 1074)) ltac:(lia)) as (B & L).
    pose proof (drop_nonneg (Zpos p * 2 ^ (e + 1074))) as Hk.
    destruct (finish_round_facts true (rne (Zpos p * 2 ^ (e + 1074)) (drop (Zpos p * 2 ^ (e + 1074))))
                (drop (Zpos p * 2 ^ (e + 1074)) - 1074)) as (O & V & N);
      [lia | lia | intros; apply L; lia | ].
    split; [ | auto]. rewrite O. unfold sround.
    assert (Hneg : Zneg p * 2 ^ (e + 1074) = - (Zpos p * 2 ^ (e + 1074)))
      by (rewrite <- Pos2Z.opp_pos; ring).
    rewrite Hneg, sround_u_neg, Z.opp_involutive by lia.
    rewrite RNu_0. unfold RN. cbn [cond_Zopp]. f_equal. f_equal. f_equal. f_equal. lia.
Qed.

(** A valid finite float sits at the position its value rounds to. *)
Lemma ord_sround (s : spec_float) :
  valid_binary s = true -> finite_or_zero s = true -> ord s = sround (Vz s).
Proof.
  intros V F. destruct s as [sg | sg | | sg m e]; try discriminate; try reflexivity.
  cbn [valid_binary ord Vz] in *.
  destruct (bounded_facts _ _ V) as (He & Hm & Hn & Hc).
  destruct (RN_canonical _ _ V) as (Hd & Hr).
  pose proof (pow2_pos (e + 1074) ltac:(lia)) as P.
  pose proof (ord_finite_pos _ _ V) as O.
  unfold sround. rewrite <- cond_Zopp_sround by lia.
  rewrite RNu_0. unfold RN. rewrite Hd, Hr. f_equal. lia.
Qed.

Lemma aligned_sum (sx sz : bool) (mx mz : positive) (ex ez : Z) (op : Z -> Z -> Z) :
  -1074 <= ex -> -1074 <= ez ->
  (forall a b c, op a b * c = op (a * c) (b * c)) ->
  let e0 := Z.min ex ez in
  op (cond_Zopp sx (Zpos (fst (shl_align mx ex e0))))
     (cond_Zopp sz (Zpos (fst (shl_align mz ez e0)))) * 2 ^ (e0 + 1074)
  = op (cond_Zopp sx (Zpos mx * 2 ^ (ex + 1074)))
       (cond_Zopp sz (Zpos mz * 2 ^ (ez + 1074))).
Proof.
  intros Hex Hez Hop e0. rewrite !fst_shl_align by (subst e0; lia).
  rewrite Hop, !cond_Zopp_mul, <- !Z.mul_assoc.
  rewrite <- !Z.pow_add_r by (subst e0; lia).
  replace (ex - e0 + (e0 + 1074)) with (ex + 1074) by lia.
  replace (ez - e0 + (e0 + 1074)) with (ez + 1074) by lia.
  reflexivity.
Qed.

(** The sum of two finite floats is their exact sum, rounded. *)
Lemma SFadd_ord (x z : spec_float) :
  valid_binary x = true -> valid_binary z = true ->
  finite_or_zero x = true -> finite_or_zero z = true ->
  let s := SFadd prec emax x z in
  ord s = sround (Vz x + Vz z) /\ valid_binary s = true /\ not_nan s = true.
Proof.
  intros Vx Vz' Fx Fz.
  destruct x as [sx | sx | | sx mx ex]; try discriminate;
    destruct z as [sz | sz | | sz mz ez]; try discriminate; cbv zeta.
  - destruct sx, sz; repeat split; reflexivity.
  - cbn [SFadd]. rewrite ord_sround by assumption. cbn [Vz]. rewrite Z.add_0_l. auto.
  - cbn [SFadd]. rewrite ord_sround by assumption. cbn [Vz]. rewrite Z.add_0_r. auto.
  - cbn [valid_binary] in *.
    destruct (bounded_facts _ _ Vx) as (Hex & _).
    destruct (bounded_facts _ _ Vz') as (Hez & _).
    cbn [SFadd Vz].
    rewrite <- (aligned_sum sx sz mx mz ex ez Z.add) by (lia || (intros; ring)).
    apply binary_normalize_ord. lia.
Qed.

(** The difference of two finite floats is their exact difference, rounded. *)
Lemma SFsub_ord (x z : spec_float) :
  valid_binary x = true -> valid_binary z = true ->
  finite_or_zero x = true -> finite_or_zero z = true ->
  let s := SFsub prec emax x z in
  ord s = sround (Vz x - Vz z) /\ valid_binary s = true /\ not_nan s = true.
Proof.
  intros Vx Vz' Fx Fz.
  destruct x as [sx | sx | | sx mx ex]; try discriminate;
    destruct z as [sz | sz | | sz mz ez]; try discriminate; cbv zeta.
  - destruct sx, sz; repeat split; reflexivity.
  - cbn [SFsub]. rewrite ord_sround by assumption. cbn [Vz]. rewrite Z.sub_0_l.
    split; [ | auto]. f_equal. destruct sz; cbn [negb cond_Zopp]; lia.
  - cbn [SFsub]. rewrite ord_sround by assumption. cbn [Vz]. rewrite Z.sub_0_r. auto.
  - cbn [valid_binary] in *.
    destruct (bounded_facts _ _ Vx) as (Hex & _).
    destruct (bounded_facts _ _ Vz') as (Hez & _).
    cbn [SFsub Vz].
    rewrite <- (aligned_sum sx sz mx mz ex ez Z.sub) by (lia || (intros; ring)).
    apply binary_normalize_ord. lia.
Qed.

Lemma Zdigits2_mul_lower (a b : Z) :
  0 < a -> 0 < b -> Zdigits2 a + Zdigits2 b - 1 <= Zdigits2 (a * b).
Proof.
  intros Ha Hb.
  pose proof (Zdigits2_bounds a Ha) as Da. pose proof (Zdigits2_bounds b Hb) as Db.
  pose proof (Zdigits2_bounds (a * b) ltac:(nia)) as D.
  pose proof (Zdigits2_pos a Ha). pose proof (Zdigits2_pos b Hb).
  destruct (Z_le_gt_dec (Zdigits2 a + Zdigits2 b - 1) (Zdigits2 (a * b))); [assumption | ].
  exfalso.
  assert (2 ^ Zdigits2 (a * b) <= 2 ^ (Zdigits2 a - 1 + (Zdigits2 b - 1)))
    by (apply Z.pow_le_mono_r; lia).
  rewrite Z.pow_add_r in * by lia.
  pose proof (pow2_pos (Zdigits2 a - 1) ltac:(lia)).
  pose proof (pow2_pos (Zdigits2 b - 1) ltac:(lia)).
  nia.
Qed.

(** The product of two finite floats is their exact product, rounded; the
    product of two values is counted in units of 2^-2148. *)
Lemma SFmul_ord (x y : spec_float) :
  valid_binary x = true -> valid_binary y = true ->
  finite_or_zero x = true -> finite_or_zero y = true ->
  let s := SFmul prec emax x y in
  ord s = sround_u 1074 (Vz x * Vz y) /\ valid_binary s = true /\ not_nan s = true.
Proof.
  intros Vx Vy Fx Fy.
  destruct x as [sx | sx | | sx mx ex]; try discriminate;
    destruct y as [sy | sy | | sy my ey]; try discriminate; cbv zeta;
    try (cbn [SFmul Vz]; rewrite ?Z.mul_0_l, ?Z.mul_0_r; repeat split; reflexivity).
  cbn [valid_binary] in *.
  destruct (bounded_facts _ _ Vx) as (Hex & Hmx & Hnx & Hcx).
  destruct (bounded_facts _ _ Vy) as (Hey & Hmy & Hny & Hcy).
  cbn [SFmul Vz].
  pose proof (Zdigits2_mul_lower (Zpos mx) (Zpos my) ltac:(lia) ltac:(lia)) as D.
  change (Zdigits2 (Zpos mx)) with (Zpos (digits2_pos mx)) in D.
  change (Zdigits2 (Zpos my)) with (Zpos (digits2_pos my)) in D.
  pose proof (digits2_pos_bounds mx). pose proof (digits2_pos_bounds my).
  destruct (binary_round_aux_ord (xorb sx sy) (Zpos (mx * my)) (ex + ey) 1074)
    as (O & V & N); try lia.
  { rewrite fexp_eq. rewrite Pos2Z.inj_mul. lia. }
  split; [ | auto]. rewrite O.
  pose proof (pow2_pos (ex + ey + 1074 + 1074) ltac:(lia)).
  rewrite cond_Zopp_sround by lia. f_equal.
  rewrite Pos2Z.inj_mul.
  replace (ex + ey + 1074 + 1074) with ((ex + 1074) + (ey + 1074)) by lia.
  rewrite Z.pow_add_r by lia.
  destruct sx, sy; cbn [xorb cond_Zopp]; ring.
Qed.

(** The conversion of an int rounds it. *)
Lemma Z2SF_ord (z : Z) :
  ord (Z2SF z) = sround (z * 2 ^ 1074)
  /\ valid_binary (Z2SF z) = true /\ not_nan (Z2SF z) = true.
Proof. unfold Z2SF. apply (binary_normalize_ord z 0). lia. Qed.

(** ** Monotone operations on floats *)

Section MonotoneOperations.

Local Open Scope float_scope.

(** A float that is not a NaN is an infinity or finite. *)
Lemma num_cases (x : float) :
  is_num x = true ->
  Prim2SF x = S754_infinity true /\ ordf x = (- ord_inf)%Z
  \/ Prim2SF x = S754_infinity false /\ ordf x = ord_inf
  \/ is_fin x = true /\ (- ord_inf < ordf x < ord_inf)%Z.
Proof.
  unfold is_num, is_fin, ordf. intros N. pose proof (Prim2SF_valid x) as V.
  pose proof ord_inf_pos.
  destruct (Prim2SF x) as [sg | [ | ] | | sg m e]; try discriminate.
  - right. right. split; [reflexivity | cbn [ord]; lia].
  - left. auto.
  - right. left. auto.
  - right. right. split; [reflexivity | ].
    cbn [ord valid_binary] in *. pose proof (ord_finite_pos _ _ V).
    destruct sg; cbn [cond_Zopp]; lia.
Qed.

Lemma ordf_value (x : float) : is_fin x = true -> ordf x = sround (value x).
Proof. intros F. apply ord_sround; [apply Prim2SF_valid | exact F]. Qed.

(** An operation whose result on a finite float sits at a position that
    is monotone in the value of the float, and which keeps the
    infinities, is monotone. *)
Lemma monotone_operation (F : float -> float) (pos : Z -> Z) :
  (forall a b, (a <= b)%Z -> (pos a <= pos b)%Z) ->
  (forall x, is_fin x = true ->
             is_num (F x) = true /\ ordf (F x) = pos (value x)) ->
  (forall x sg, Prim2SF x = S754_infinity sg -> Prim2SF (F x) = S754_infinity sg) ->
  forall x1 x2,
    is_num x1 = true -> is_num x2 = true -> (ordf x1 <= ordf x2)%Z ->
    is_num (F x1) = true /\ is_num (F x2) = true /\ (ordf (F x1) <= ordf (F x2))%Z.
Proof.
  intros Hg Hfin Hinf x1 x2 N1 N2 H.
  assert (Hnum : forall x, is_num x = true ->
                           is_num (F x) = true /\ (- ord_inf <= ordf (F x) <= ord_inf)%Z).
  { intros x N. split.
    - destruct (num_cases x N) as [(I & _) | [(I & _) | (Fx & _)]].
      + unfold is_num. now rewrite (Hinf x _ I).
      + unfold is_num. now rewrite (Hinf x _ I).
      + exact (proj1 (Hfin x Fx)).
    - apply ord_bounds, Prim2SF_valid. }
  destruct (Hnum x1 N1) as (M1 & B1). destruct (Hnum x2 N2) as (M2 & B2).
  split; [assumption | split; [assumption | ]].
  pose proof ord_inf_pos.
  destruct (num_cases x1 N1) as [(I1 & O1) | [(I1 & O1) | (F1 & O1)]].
  - unfold ordf at 1. rewrite (Hinf x1 _ I1). cbn [ord cond_Zopp]. lia.
  - destruct (num_cases x2 N2) as [(I2 & O2) | [(I2 & O2) | (F2 & O2)]]; try lia.
    unfold ordf. rewrite (Hinf x1 _ I1), (Hinf x2 _ I2). lia.
  - destruct (num_cases x2 N2) as [(I2 & O2) | [(I2 & O2) | (F2 & O2)]]; try lia.
    + unfold ordf at 2. rewrite (Hinf x2 _ I2). cbn [ord cond_Zopp]. lia.
    + assert (Hv : (value x1 <= value x2)%Z) by (apply value_ordf_le; assumption).
      rewrite (proj2 (Hfin x1 F1)), (proj2 (Hfin x2 F2)). auto.
Qed.

Lemma add_fin (x z : float) :
  is_fin x = true -> is_fin z = true ->
  is_num (x + z) = true /\ ordf (x + z) = sround (value x + value z).
Proof.
  intros Fx Fz. unfold is_num, ordf. rewrite add_spec.
  destruct (SFadd_ord (Prim2SF x) (Prim2SF z)) as (O & _ & N);
    auto using Prim2SF_valid.
Qed.

Lemma sub_fin (x z : float) :
  is_fin x = true -> is_fin z = true ->
  is_num (x - z) = true /\ ordf (x - z) = sround (value x - value z).
Proof.
  intros Fx Fz. unfold is_num, ordf. rewrite sub_spec.
  destruct (SFsub_ord (Prim2SF x) (Prim2SF z)) as (O & _ & N);
    auto using Prim2SF_valid.
Qed.

Lemma mul_fin (x z : float) :
  is_fin x = true -> is_fin z = true ->
  is_num (x * z) = true /\ ordf (x * z) = sround_u 1074 (value x * value z).
Proof.
  intros Fx Fz. unfold is_num, ordf. rewrite mul_spec.
  destruct (SFmul_ord (Prim2SF x) (Prim2SF z)) as (O & _ & N);
    auto using Prim2SF_valid.
Qed.

(** Adding a finite float, on either side, is monotone. *)
Lemma add_mono_r (c x1 x2 : float) :
  is_fin c = true ->
  is_num x1 = true -> is_num x2 = true -> (ordf x1 <= ordf x2)%Z ->
  is_num (x1 + c) = true /\ is_num (x2 + c) = true
  /\ (ordf (x1 + c) <= ordf (x2 + c))%Z.
Proof.
  intros Fc. apply (monotone_operation (fun x => x + c) (fun v => sround (v + value c))).
  - intros; apply sround_u_mono; lia.
  - intros x Fx. now apply add_fin.
  - intros x sg I. rewrite add_spec, I. unfold is_fin in Fc.
    destruct (Prim2SF c); try discriminate; reflexivity.
Qed.

Lemma add_mono_l (c x1 x2 : float) :
  is_fin c = true ->
  is_num x1 = true -> is_num x2 = true -> (ordf x1 <= ordf x2)%Z ->
  is_num (c + x1) = true /\ is_num (c + x2) = true
  /\ (ordf (c + x1) <= ordf (c + x2))%Z.
Proof.
  intros Fc. apply (monotone_operation (fun x => c + x) (fun v => sround (value c + v))).
  - intros; apply sround_u_mono; lia.
  - intros x Fx. now apply add_fin.
  - intros x sg I. rewrite add_spec, I. unfold is_fin in Fc.
    destruct (Prim2SF c); try discriminate; reflexivity.
Qed.

(** Subtracting a finite float is monotone. *)
Lemma sub_mono_r (c x1 x2 : float) :
  is_fin c = true ->
  is_num x1 = true -> is_num x2 = true -> (ordf x1 <= ordf x2)%Z ->
  is_num (x1 - c) = true /\ is_num (x2 - c) = true
  /\ (ordf (x1 - c) <= ordf (x2 - c))%Z.
Proof.
  intros Fc. apply (monotone_operation (fun x => x - c) (fun v => sround (v - value c))).
  - intros; apply sround_u_mono; lia.
  - intros x Fx. now apply sub_fin.
  - intros x sg I. rewrite sub_spec, I. unfold is_fin in Fc.
    destruct (Prim2SF c); try discriminate; reflexivity.
Qed.

(** Multiplying by a positive finite float is monotone. *)
Lemma mul_mono_r (c x1 x2 : float) :
  is_fin c = true -> (0 < value c)%Z ->
  is_num x1 = true -> is_num x2 = true -> (ordf x1 <= ordf x2)%Z ->
  is_num (x1 * c) = true /\ is_num (x2 * c) = true
  /\ (ordf (x1 * c) <= ordf (x2 * c))%Z.
Proof.
  intros Fc Pc. apply (monotone_operation (fun x => x * c) (fun v => sround_u 1074 (v * value c))).
  - intros; apply sround_u_mono; nia.
  - intros x Fx. now apply mul_fin.
  - intros x sg I. rewrite mul_spec, I. unfold is_fin, value in *.
    destruct (Prim2SF c) as [s | s | | s m e]; try discriminate.
    destruct s; [cbn [Vz cond_Zopp] in Pc; lia | ].
    cbn [SFmul]. now destruct sg.
Qed.

End MonotoneOperations.

(** ** Python comparisons and conversions, on positions *)

Section PyComparisons.

Local Open Scope float_scope.

Lemma fin_num (x : float) : is_fin x = true -> is_num x = true.
Proof. unfold is_fin, is_num. now destruct (Prim2SF x). Qed.

Lemma leb_true_num (x y : float) :
  (x <=? y) = true -> is_num x = true /\ is_num y = true /\ (ordf x <= ordf y)%Z.
Proof.
  intros H. assert (N : is_num x = true /\ is_num y = true).
  { rewrite leb_spec in H. unfold SFleb, is_num in *.
    destruct (Prim2SF x), (Prim2SF y); try discriminate; auto. }
  destruct N as (Nx & Ny). rewrite leb_ordf in H by assumption.
  apply Z.leb_le in H. auto.
Qed.

(** Python's comparison of an int with a finite float compares the
    values. *)
Lemma Z_SF_compare_value (z : Z) (s : spec_float) :
  valid_binary s = true -> finite_or_zero s = true ->
  Z_SF_compare z s = Some (z * 2 ^ 1074 ?= Vz s)%Z.
Proof.
  intros V F. pose proof (pow2_pos 1074 ltac:(lia)) as P.
  destruct s as [sg | sg | | sg m e]; try discriminate; cbn [Z_SF_compare Vz].
  - f_equal. rewrite (Zmult_compare_compat_r z 0 (2 ^ 1074)) by lia. reflexivity.
  - cbn [valid_binary] in V. destruct (bounded_facts _ _ V) as (He & _).
    f_equal. rewrite <- cond_Zopp_mul.
    generalize (cond_Zopp sg (Zpos m)). intros v.
    destruct e as [ | p | p].
    + change (2 ^ 0)%Z with 1%Z. rewrite Z.mul_1_r.
      change (0 + 1074)%Z with 1074%Z. apply Zmult_compare_compat_r. lia.
    + replace (Zpos p + 1074)%Z with (1074 + Zpos p)%Z by lia.
      rewrite (Z.pow_add_r 2 1074) by lia.
      rewrite (Zmult_compare_compat_r z (v * 2 ^ Zpos p) (2 ^ 1074)) by lia.
      f_equal. ring.
    + pose proof (pow2_pos (Zneg p + 1074) ltac:(lia)).
      rewrite (Zmult_compare_compat_r (z * 2 ^ Zpos p) v (2 ^ (Zneg p + 1074))) by lia.
      rewrite <- Z.mul_assoc, <- Z.pow_add_r by lia.
      replace (Zpos p + (Zneg p + 1074))%Z with 1074%Z by lia. reflexivity.
Qed.

(** The comparison of the int 0 with a float is the comparison of the
    positions. *)
Lemma Z_SF_compare_0 (s : spec_float) :
  valid_binary s = true -> not_nan s = true ->
  Z_SF_compare 0 s = Some (0 ?= ord s)%Z.
Proof.
  intros V N. pose proof ord_inf_pos.
  destruct s as [sg | sg | | sg m e] eqn:E; try discriminate.
  - reflexivity.
  - cbn [Z_SF_compare ord]. f_equal. destruct sg; cbn [cond_Zopp]; symmetry;
      [apply Z.compare_gt_iff | apply Z.compare_lt_iff]; lia.
  - rewrite Z_SF_compare_value by (assumption || reflexivity). f_equal.
    exact (Vz_ord_compare (S754_zero false) _ eq_refl V eq_refl eq_refl).
Qed.

(** A conversion that succeeds gives the finite float at the position the
    int rounds to. *)
Lemma float_of_int_inr (z : Z) (f : float) :
  float_of_int z = inr f ->
  f = Z2float z /\ is_fin f = true /\ ordf f = sround (z * 2 ^ 1074).
Proof.
  unfold float_of_int, Z2float, is_fin, ordf.
  destruct (Z2SF_ord z) as (O & V & N). rewrite <- O.
  destruct (Z2SF z) as [sg | sg | | sg m e] eqn:E; try discriminate;
    intros H; apply ret_inr in H; subst f;
    rewrite Prim2SF_SF2Prim by assumption; auto.
Qed.

Lemma Z2float_ordf (z : Z) : ordf (Z2float z) = sround (z * 2 ^ 1074).
Proof.
  unfold Z2float, ordf. destruct (Z2SF_ord z) as (O & V & N).
  now rewrite Prim2SF_SF2Prim.
Qed.

(** Subtracting an int constant from a number and converting the
    difference keeps the order, whatever the kinds of the two numbers. *)
Lemma shifted_mono (c : Z) (fc : float) (a b : pynum) (fa fb : float) :
  float_of_int c = inr fc -> value fc = (c * 2 ^ 1074)%Z ->
  py_le a b = true ->
  bind (py_sub a (PyInt c)) as_float = inr fa ->
  bind (py_sub b (PyInt c)) as_float = inr fb ->
  is_num fa = true /\ is_num fb = true /\ (ordf fa <= ordf fb)%Z.
Proof.
  intros Hc Vc Hle Ha Hb.
  destruct (float_of_int_inr _ _ Hc) as (_ & Fc & _).
  assert (Hsub : forall x y, py_sub (PyFloat x) (PyInt c) = inr y -> y = PyFloat (x - fc)).
  { intros x y. cbn [py_sub as_float bind ret]. rewrite Hc. cbn [bind ret].
    now intros [= <-]. }
  assert (Hint : forall z f, bind (py_sub (PyInt z) (PyInt c)) as_float = inr f ->
                             is_fin f = true /\ ordf f = sround ((z - c) * 2 ^ 1074)).
  { intros z f. cbn [py_sub as_float bind ret]. intros H.
    destruct (float_of_int_inr _ _ H) as (_ & F & O). auto. }
  assert (Hflt : forall x f, bind (py_sub (PyFloat x) (PyInt c)) as_float = inr f ->
                             f = x - fc).
  { intros x f H. apply bind_inr in H. destruct H as (y & Hy & H).
    apply Hsub in Hy. subst y. cbn [as_float] in H. now apply ret_inr in H. }
  assert (Hfin : forall x, is_fin x = true ->
                           is_num (x - fc) = true
                           /\ ordf (x - fc) = sround (value x - c * 2 ^ 1074)).
  { intros x Fx. rewrite <- Vc. now apply sub_fin. }
  assert (Hinf : forall x sg, Prim2SF x = S754_infinity sg ->
                              Prim2SF (x - fc) = S754_infinity sg).
  { intros x sg I. rewrite sub_spec, I. unfold is_fin in Fc.
    destruct (Prim2SF fc); try discriminate; reflexivity. }
  pose proof ord_inf_pos as Oi.
  destruct a as [za | xa], b as [zb | xb]; cbn [py_le] in Hle.
  - apply Z.leb_le in Hle.
    destruct (Hint _ _ Ha) as (Fa & Oa). destruct (Hint _ _ Hb) as (Fb & Ob).
    split; [now apply fin_num | split; [now apply fin_num | ]].
    rewrite Oa, Ob. apply sround_u_mono; [lia | ].
    pose proof (pow2_pos 1074 ltac:(lia)). nia.
  - destruct (Hint _ _ Ha) as (Fa & Oa). apply Hflt in Hb. subst fb.
    destruct (Z_SF_compare za (Prim2SF xb)) as [cmp | ] eqn:C; [ | discriminate].
    assert (Nb : is_num xb = true).
    { unfold is_num. destruct (Prim2SF xb); try reflexivity; discriminate. }
    split; [now apply fin_num | ].
    destruct (num_cases xb Nb) as [(I & _) | [(I & _) | (Fb & _)]].
    + rewrite I in C. cbn in C. injection C as <-. discriminate.
    + unfold is_num, ordf at 2. rewrite (Hinf _ _ I). split; [reflexivity | ].
      cbn [ord cond_Zopp]. apply (ord_bounds (Prim2SF fa)), Prim2SF_valid.
    + destruct (Hfin _ Fb) as (Nb' & Ob). split; [assumption | ].
      rewrite Oa, Ob. apply sround_u_mono; [lia | ].
      assert (C' : Z_SF_compare za (Prim2SF xb) = Some (za * 2 ^ 1074 ?= value xb)%Z)
        by (apply Z_SF_compare_value; [apply Prim2SF_valid | exact Fb]).
      rewrite C' in C.
      assert (Ecmp : cmp = (za * 2 ^ 1074 ?= value xb)%Z) by (clear - C; congruence).
      subst cmp.
      assert (za * 2 ^ 1074 <= value xb)%Z; [ | lia].
      revert Hle.
      destruct (Z.compare_spec (za * 2 ^ 1074) (value xb)); intros Hle;
        [lia | lia | discriminate].
  - destruct (Hint _ _ Hb) as (Fb & Ob). apply Hflt in Ha. subst fa.
    destruct (Z_SF_compare zb (Prim2SF xa)) as [cmp | ] eqn:C; [ | discriminate].
    assert (Na : is_num xa = true).
    { unfold is_num. destruct (Prim2SF xa); try reflexivity; discriminate. }
    destruct (num_cases xa Na) as [(I & _) | [(I & _) | (Fa & _)]].
    + unfold is_num, ordf at 1. rewrite (Hinf _ _ I).
      split; [reflexivity | split; [now apply fin_num | ]].
      cbn [ord cond_Zopp]. apply (ord_bounds (Prim2SF fb)), Prim2SF_valid.
    + rewrite I in C. cbn in C. injection C as <-. discriminate.
    + destruct (Hfin _ Fa) as (Na' & Oa).
      split; [assumption | split; [now apply fin_num | ]].
      rewrite Oa, Ob. apply sround_u_mono; [lia | ].
      assert (C' : Z_SF_compare zb (Prim2SF xa) = Some (zb * 2 ^ 1074 ?= value xa)%Z)
        by (apply Z_SF_compare_value; [apply Prim2SF_valid | exact Fa]).
      rewrite C' in C.
      assert (Ecmp : cmp = (zb * 2 ^ 1074 ?= value xa)%Z) by (clear - C; congruence).
      subst cmp.
      assert (value xa <= zb * 2 ^ 1074)%Z; [ | lia].
      revert Hle.
      destruct (Z.compare_spec (zb * 2 ^ 1074) (value xa)); intros Hle;
        [lia | discriminate | lia].
  - apply Hflt in Ha. apply Hflt in Hb. subst fa fb.
    apply leb_true_num in Hle. destruct Hle as (Na & Nb & Hle).
    now apply sub_mono_r.
Qed.

End PyComparisons.

(** ** The rate and the risk score as monotone functions *)

Section MonotonePricing.

Local Open Scope float_scope.

Lemma ltb_nan_l (x y : float) : is_num x = false -> (x <? y) = false.
Proof.
  unfold is_num. rewrite ltb_spec. destruct (Prim2SF x); try discriminate. reflexivity.
Qed.

Lemma ltb_nan_r (x y : float) : is_num y = false -> (x <? y) = false.
Proof.
  unfold is_num. rewrite ltb_spec.
  destruct (Prim2SF x), (Prim2SF y); try discriminate; reflexivity.
Qed.

(** The clamp of the rate on every float: a NaN is clamped like plus
    infinity, to the upper bound. *)
Lemma clamp_rate_pos (x : float) :
  is_num (clamp_rate x) = true
  /\ ordf (clamp_rate x)
     = Z.max (ordf 5.99) (Z.min (ordf 29.99) (if is_num x then ordf x else ord_inf)).
Proof.
  destruct (is_num x) eqn:N.
  - exact (clamp_rate_ordf x N).
  - unfold clamp_rate. rewrite (ltb_nan_l x 29.99) by assumption.
    change (5.99 <? 29.99) with true. cbv iota. split; [reflexivity | ].
    vm_compute. reflexivity.
Qed.

(** The clamp of the risk score, on positions. *)
Lemma clamp_risk_ordf (x : float) :
  is_num x = true ->
  is_num (clamp_risk x) = true
  /\ ordf (clamp_risk x) = Z.min (ordf 0.4) (Z.max (ordf 0.02) (ordf x)).
Proof.
  intros N.
  assert (N1 : is_num 0.02 = true) by reflexivity.
  assert (N2 : is_num 0.4 = true) by reflexivity.
  assert (H12 : (ordf 0.02 < ordf 0.4)%Z) by (vm_compute; reflexivity).
  unfold clamp_risk. rewrite (ltb_ordf 0.02 x) by assumption.
  destruct (Z.ltb_spec (ordf 0.02) (ordf x)).
  - rewrite (ltb_ordf x 0.4) by assumption.
    destruct (Z.ltb_spec (ordf x) (ordf 0.4)); split; try assumption; lia.
  - change (0.02 <? 0.4) with true. cbv iota. split; [assumption | lia].
Qed.

(** [max(0, x)], on positions. *)
Lemma dti_adj_of_ordf (x : float) :
  is_num x = true ->
  is_num (dti_adj_of x) = true /\ ordf (dti_adj_of x) = Z.max 0 (ordf x).
Proof.
  intros N. unfold dti_adj_of, py_max, py_gt, py_lt.
  rewrite Z_SF_compare_0 by (apply Prim2SF_valid || exact N). fold (ordf x).
  destruct (Z.compare_spec 0 (ordf x)); (split; [try reflexivity; assumption | ]);
    try (change (ordf (Z2float 0)) with 0%Z); lia.
Qed.

Lemma dti_adj_of_nan (x : float) : is_num x = false -> dti_adj_of x = 0.
Proof.
  intros N. unfold dti_adj_of, py_max, py_gt, py_lt, is_num in *.
  destruct (Prim2SF x); try discriminate. reflexivity.
Qed.

Lemma add_nan_l (x z : float) : is_num x = false -> is_num (x + z) = false.
Proof.
  unfold is_num. rewrite add_spec. destruct (Prim2SF x); try discriminate. reflexivity.
Qed.

(** Adding plus infinity gives plus infinity or, from minus infinity or a
    NaN, a NaN. *)
Lemma add_inf_top (x d : float) :
  Prim2SF d = S754_infinity false ->
  (if is_num (x + d) then ordf (x + d) else ord_inf) = ord_inf.
Proof.
  intros I. unfold is_num, ordf. rewrite add_spec, I.
  destruct (Prim2SF x) as [s | [ | ] | | s m e]; reflexivity.
Qed.

Lemma add_top (y i : float) :
  is_fin i = true ->
  (if is_num y then ordf y else ord_inf) = ord_inf ->
  (if is_num (y + i) then ordf (y + i) else ord_inf) = ord_inf.
Proof.
  intros Fi H. destruct (is_num y) eqn:N.
  - destruct (num_cases y N) as [(I & O) | [(I & O) | (F & O)]];
      pose proof ord_inf_pos; try lia.
    unfold is_num, ordf. rewrite (add_inf_l y i I Fi). reflexivity.
  - now rewrite add_nan_l.
Qed.

Lemma key_le_top (x : float) : ((if is_num x then ordf x else ord_inf) <= ord_inf)%Z.
Proof.
  destruct (is_num x); [apply (ord_bounds (Prim2SF x)), Prim2SF_valid | lia].
Qed.

Lemma add_inf_fin (x d : float) (sg : bool) :
  Prim2SF x = S754_infinity sg -> is_fin d = true -> Prim2SF (x + d) = S754_infinity sg.
Proof.
  intros I F. rewrite add_spec, I. unfold is_fin in F.
  destruct (Prim2SF d); try discriminate; reflexivity.
Qed.

(** The clamped rate is monotone in the base rate. *)
Lemma rate_mono_base (b1 b2 d i : float) :
  is_num b1 = true -> is_num b2 = true -> (ordf b1 <= ordf b2)%Z ->
  Prim2SF d = S754_infinity false \/ is_fin d = true ->
  is_fin i = true ->
  (ordf (clamp_rate (b1 + d + i)) <= ordf (clamp_rate (b2 + d + i)))%Z.
Proof.
  intros N1 N2 H Hd Fi.
  destruct (clamp_rate_pos (b1 + d + i)) as (_ & ->).
  destruct (clamp_rate_pos (b2 + d + i)) as (_ & ->).
  destruct Hd as [I | Fd].
  - rewrite !add_top by (assumption || now apply add_inf_top). lia.
  - destruct (add_mono_r d b1 b2 Fd N1 N2 H) as (M1 & M2 & H').
    destruct (add_mono_r i _ _ Fi M1 M2 H') as (M1' & M2' & H'').
    rewrite M1', M2'. lia.
Qed.

(** The clamped rate is monotone in the DTI adjustment, whatever the base
    rate. *)
Lemma rate_mono_dti (b d1 d2 i : float) :
  is_num d1 = true -> is_num d2 = true -> (0 <= ordf d1 <= ordf d2)%Z ->
  is_fin i = true ->
  (ordf (clamp_rate (b + d1 + i)) <= ordf (clamp_rate (b + d2 + i)))%Z.
Proof.
  intros N1 N2 H Fi. pose proof ord_inf_pos as Oi.
  destruct (clamp_rate_pos (b + d1 + i)) as (_ & ->).
  destruct (clamp_rate_pos (b + d2 + i)) as (_ & ->).
  pose proof (key_le_top (b + d1 + i)) as K1.
  destruct (num_cases d2 N2) as [(I2 & O2) | [(I2 & O2) | (F2 & O2)]]; [lia | | ].
  - rewrite (add_top (b + d2) i) by (assumption || now apply add_inf_top). lia.
  - assert (F1 : is_fin d1 = true) by (apply num_between_fin; [assumption | lia]).
    destruct (is_num b) eqn:Nb.
    + destruct (num_cases b Nb) as [(Ib & _) | [(Ib & _) | (Fb & _)]].
      * unfold is_num, ordf. rewrite !add_spec.
        rewrite <- !add_spec. rewrite !(add_spec (b + _) i).
        rewrite (add_inf_fin b d1 _ Ib F1), (add_inf_fin b d2 _ Ib F2). lia.
      * unfold is_num, ordf. rewrite !(add_spec (b + _) i).
        rewrite (add_inf_fin b d1 _ Ib F1), (add_inf_fin b d2 _ Ib F2). lia.
      * destruct (add_mono_l b d1 d2 Fb N1 N2 ltac:(lia)) as (M1 & M2 & H').
        destruct (add_mono_r i _ _ Fi M1 M2 H') as (M1' & M2' & H'').
        rewrite M1', M2'. lia.
    + rewrite !(add_nan_l (b + _) i) by now apply add_nan_l. lia.
Qed.

(** The float [8.0 + fg * 2.0] and the float [0.05 + fg * 0.05] are
    monotone in [fg]. *)
Lemma base_rate_mono (fg1 fg2 : float) :
  is_num fg1 = true -> is_num fg2 = true -> (ordf fg1 <= ordf fg2)%Z ->
  is_num (8.0 + fg1 * 2.0) = true /\ is_num (8.0 + fg2 * 2.0) = true
  /\ (ordf (8.0 + fg1 * 2.0) <= ordf (8.0 + fg2 * 2.0))%Z.
Proof.
  intros N1 N2 H.
  destruct (mul_mono_r 2.0 fg1 fg2 eq_refl eq_refl N1 N2 H) as (M1 & M2 & H').
  exact (add_mono_l 8.0 _ _ eq_refl M1 M2 H').
Qed.

Lemma risk_score_mono (fg1 fg2 : float) :
  is_num fg1 = true -> is_num fg2 = true -> (ordf fg1 <= ordf fg2)%Z ->
  is_num (0.05 + fg1 * 0.05) = true /\ is_num (0.05 + fg2 * 0.05) = true
  /\ (ordf (0.05 + fg1 * 0.05) <= ordf (0.05 + fg2 * 0.05))%Z.
Proof.
  intros N1 N2 H.
  destruct (mul_mono_r 0.05 fg1 fg2 eq_refl eq_refl N1 N2 H) as (M1 & M2 & H').
  exact (add_mono_l 0.05 _ _ eq_refl M1 M2 H').
Qed.

(** The floats two ordered grades contribute are ordered. *)
Lemma grade_steps_mono (g1 g2 : pynum) (fg1 fg2 : float) :
  py_le g1 g2 = true ->
  grade_steps g1 = inr fg1 -> grade_steps g2 = inr fg2 ->
  is_num fg1 = true /\ is_num fg2 = true /\ (ordf fg1 <= ordf fg2)%Z.
Proof.
  intros Hle H1 H2.
  apply (shifted_mono 1 1 g1 g2 fg1 fg2); try assumption; reflexivity.
Qed.

(** The floats two ordered DTIs contribute are ordered. *)
Lemma dti_steps_mono (dti1 dti2 : pynum) (x1 x2 : float) :
  py_le dti1 dti2 = true ->
  dti_steps dti1 = inr x1 -> dti_steps dti2 = inr x2 ->
  is_num x1 = true /\ is_num x2 = true /\ (ordf x1 <= ordf x2)%Z.
Proof.
  intros Hle H1 H2. unfold dti_steps in *.
  apply bind_inr in H1. destruct H1 as (a1 & Ha1 & H1).
  apply bind_inr in H1. destruct H1 as (f1 & Hf1 & H1). apply ret_inr in H1.
  apply bind_inr in H2. destruct H2 as (a2 & Ha2 & H2).
  apply bind_inr in H2. destruct H2 as (f2 & Hf2 & H2). apply ret_inr in H2.
  subst x1 x2.
  destruct (shifted_mono 20 20 dti1 dti2 f1 f2) as (N1 & N2 & H);
    try assumption; try reflexivity.
  - rewrite Ha1. exact Hf1.
  - rewrite Ha2. exact Hf2.
  - exact (mul_mono_r 0.05 f1 f2 eq_refl eq_refl N1 N2 H).
Qed.

End MonotonePricing.

(** ** The whole record of a successful run *)

Section WholeRecord.

Local Open Scope float_scope.

(** A run that succeeds converted the loan amount, and its record is the
    closed form. *)
Lemma pricing_try_result (loan_amnt annual_inc dti grade_num : pynum)
  (r : PricingResult) :
  pricing_try loan_amnt annual_inc dti grade_num = inr r ->
  exists fl fg x q : float,
    as_float loan_amnt = inr fl
    /\ grade_steps grade_num = inr fg
    /\ dti_steps dti = inr x
    /\ income_steps annual_inc = inr (PyFloat q)
    /\ (fl =? 0) = false
    /\ r = result_of fl fg x q (risk_tier_of grade_num).
Proof.
  intros H.
  destruct (pricing_try_inv _ _ _ _ _ H) as (fg & x & q & Hg & Hx & Hq & _).
  assert (Hl : exists fl, as_float loan_amnt = inr fl).
  { unfold pricing_try in H. run_steps H.
    destruct (py_truediv_float _ _ _ Hv11) as (y & ->).
    apply py_mul_float_r in Hv12. destruct Hv12 as (fl & Hfl & _). eauto. }
  destruct Hl as (fl & Hl).
  rewrite (pricing_try_closed _ _ _ _ _ _ _ _ Hl Hg Hx Hq) in H.
  exists fl, fg, x, q. destruct (fl =? 0); [discriminate | ].
  apply inr_inj in H. auto 10.
Qed.

(** A contribution of the DTI that is not positive is dropped. *)
Lemma dti_adj_of_nonpos (x : float) :
  is_num x = true -> (ordf x <= 0)%Z -> dti_adj_of x = 0.
Proof.
  intros N H. unfold dti_adj_of, py_max, py_gt, py_lt.
  rewrite Z_SF_compare_0 by (apply Prim2SF_valid || exact N). fold (ordf x).
  destruct (Z.compare_spec 0 (ordf x)); try reflexivity. lia.
Qed.

End WholeRecord.

(** ** Monotonicity of the pricing function *)

Section MonotoneTheorems.

Local Open Scope float_scope.

(** X1: the apr never decreases when the credit grade increases, for all
    numeric grades (ints and floats, inside the range 1 to 7 or not) and
    the same loan amount, income and DTI. *)
Theorem apr_nondecreasing_in_grade (loan_amnt annual_inc dti g1 g2 : pynum)
  (r1 r2 : PricingResult) :
  py_le g1 g2 = true ->
  get_real_pricing loan_amnt annual_inc dti g1 = Some r1 ->
  get_real_pricing loan_amnt annual_inc dti g2 = Some r2 ->
  py_le (apr r1) (apr r2) = true.
Proof.
  intros Hle Hr1 Hr2.
  apply get_real_pricing_Some in Hr1. apply get_real_pricing_Some in Hr2.
  destruct (pricing_try_inv _ _ _ _ _ Hr1)
    as (fg1 & x & q & Hg1 & Hx & Hq & -> & _).
  destruct (pricing_try_inv _ _ _ _ _ Hr2)
    as (fg2 & x' & q' & Hg2 & Hx' & Hq' & -> & _).
  rewrite Hx in Hx'. apply inr_inj in Hx'. subst x'.
  rewrite Hq in Hq'. apply inr_inj in Hq'. injection Hq' as <-.
  destruct (grade_steps_mono _ _ _ _ Hle Hg1 Hg2) as (N1 & N2 & H).
  destruct (base_rate_mono _ _ N1 N2 H) as (B1 & B2 & Hb).
  assert (Hd : Prim2SF (dti_adj_of x) = S754_infinity false
               \/ is_fin (dti_adj_of x) = true)
    by (destruct (dti_adj_class x) as [I | (F & _)]; auto).
  pose proof (rate_mono_base _ _ (dti_adj_of x) (income_adj_of q) B1 B2 Hb Hd
                (proj1 (income_adj_class q))) as Hrate.
  cbn [py_le]. rewrite leb_ordf by apply clamp_rate_pos. now apply Z.leb_le.
Qed.

Lemma apr_nondecreasing_in_grade_witness :
  py_le (PyFloat 2.5) (PyInt 9) = true
  /\ exists r1 r2,
       get_real_pricing (PyInt 25000) (PyInt 65000) (PyFloat 18.0) (PyFloat 2.5) = Some r1
       /\ get_real_pricing (PyInt 25000) (PyInt 65000) (PyFloat 18.0) (PyInt 9) = Some r2
       /\ py_le (apr r1) (apr r2) = true.
Proof.
  split; [vm_compute; reflexivity | ]. eexists. eexists.
  split; [vm_compute; reflexivity | ]. split; [vm_compute; reflexivity | ].
  apply (apr_nondecreasing_in_grade (PyInt 25000) (PyInt 65000) (PyFloat 18.0)
           (PyFloat 2.5) (PyInt 9));
    vm_compute; reflexivity.
Defined.

(** X2: the risk probability never decreases when the credit grade
    increases, for all numeric grades, whatever the loan amounts, the
    incomes and the DTIs of the two calls. *)
Theorem risk_nondecreasing_in_grade
  (loan1 inc1 dti1 loan2 inc2 dti2 g1 g2 : pynum) (r1 r2 : PricingResult) :
  py_le g1 g2 = true ->
  get_real_pricing loan1 inc1 dti1 g1 = Some r1 ->
  get_real_pricing loan2 inc2 dti2 g2 = Some r2 ->
  py_le (risk_probability r1) (risk_probability r2) = true.
Proof.
  intros Hle Hr1 Hr2.
  apply get_real_pricing_Some in Hr1. apply get_real_pricing_Some in Hr2.
  destruct (pricing_try_inv _ _ _ _ _ Hr1)
    as (fg1 & _ & _ & Hg1 & _ & _ & _ & -> & _).
  destruct (pricing_try_inv _ _ _ _ _ Hr2)
    as (fg2 & _ & _ & Hg2 & _ & _ & _ & -> & _).
  destruct (grade_steps_mono _ _ _ _ Hle Hg1 Hg2) as (N1 & N2 & H).
  destruct (risk_score_mono _ _ N1 N2 H) as (B1 & B2 & Hb).
  destruct (clamp_risk_ordf _ B1) as (C1 & O1).
  destruct (clamp_risk_ordf _ B2) as (C2 & O2).
  cbn [py_le]. rewrite leb_ordf by assumption. apply Z.leb_le. lia.
Qed.

Lemma risk_nondecreasing_in_grade_witness :
  py_le (PyInt 3) (PyFloat 5.5) = true
  /\ exists r1 r2,
       get_real_pricing (PyInt 25000) (PyInt 65000) (PyFloat 18.0) (PyInt 3) = Some r1
       /\ get_real_pricing (PyInt 8000) (PyInt 40000) (PyFloat 35.0) (PyFloat 5.5) = Some r2
       /\ py_le (risk_probability r1) (risk_probability r2) = true.
Proof.
  split; [vm_compute; reflexivity | ]. eexists. eexists.
  split; [vm_compute; reflexivity | ]. split; [vm_compute; reflexivity | ].
  apply (risk_nondecreasing_in_grade (PyInt 25000) (PyInt 65000) (PyFloat 18.0)
           (PyInt 8000) (PyInt 40000) (PyFloat 35.0) (PyInt 3) (PyFloat 5.5));
    vm_compute; reflexivity.
Defined.

(** X3: the apr never decreases when the DTI increases, for all numeric
    DTIs and every grade, income and loan amount. *)
Theorem apr_nondecreasing_in_dti (loan_amnt annual_inc dti1 dti2 grade_num : pynum)
  (r1 r2 : PricingResult) :
  py_le dti1 dti2 = true ->
  get_real_pricing loan_amnt annual_inc dti1 grade_num = Some r1 ->
  get_real_pricing loan_amnt annual_inc dti2 grade_num = Some r2 ->
  py_le (apr r1) (apr r2) = true.
Proof.
  intros Hle Hr1 Hr2.
  apply get_real_pricing_Some in Hr1. apply get_real_pricing_Some in Hr2.
  destruct (pricing_try_inv _ _ _ _ _ Hr1)
    as (fg & x1 & q & Hg & Hx1 & Hq & -> & _).
  destruct (pricing_try_inv _ _ _ _ _ Hr2)
    as (fg' & x2 & q' & Hg' & Hx2 & Hq' & -> & _).
  rewrite Hg in Hg'. apply inr_inj in Hg'. subst fg'.
  rewrite Hq in Hq'. apply inr_inj in Hq'. injection Hq' as <-.
  destruct (dti_steps_mono _ _ _ _ Hle Hx1 Hx2) as (N1 & N2 & H).
  destruct (dti_adj_of_ordf _ N1) as (D1 & O1).
  destruct (dti_adj_of_ordf _ N2) as (D2 & O2).
  pose proof (rate_mono_dti (8.0 + fg * 2.0) _ _ (income_adj_of q) D1 D2
                ltac:(lia) (proj1 (income_adj_class q))) as Hrate.
  cbn [py_le]. rewrite leb_ordf by apply clamp_rate_pos. now apply Z.leb_le.
Qed.

Lemma apr_nondecreasing_in_dti_witness :
  py_le (PyFloat 18.0) (PyInt 45) = true
  /\ exists r1 r2,
       get_real_pricing (PyInt 25000) (PyInt 65000) (PyFloat 18.0) (PyInt 3) = Some r1
       /\ get_real_pricing (PyInt 25000) (PyInt 65000) (PyInt 45) (PyInt 3) = Some r2
       /\ py_le (apr r1) (apr r2) = true.
Proof.
  split; [vm_compute; reflexivity | ]. eexists. eexists.
  split; [vm_compute; reflexivity | ]. split; [vm_compute; reflexivity | ].
  apply (apr_nondecreasing_in_dti (PyInt 25000) (PyInt 65000) (PyFloat 18.0)
           (PyInt 45) (PyInt 3));
    vm_compute; reflexivity.
Defined.

(** X5: a DTI of at most 20 is priced exactly like a DTI of 20: the call
    returns the same record, field by field. *)
Theorem dti_up_to_20_is_free (loan_amnt annual_inc dti grade_num : pynum)
  (r : PricingResult) :
  py_le dti (PyInt 20) = true ->
  get_real_pricing loan_amnt annual_inc dti grade_num = Some r ->
  get_real_pricing loan_amnt annual_inc (PyInt 20) grade_num = Some r.
Proof.
  intros Hle Hr. apply get_real_pricing_Some in Hr. apply get_real_pricing_Some.
  destruct (pricing_try_result _ _ _ _ _ Hr) as (fl & fg & x & q & Hl & Hg & Hx & Hq & Hz & ->).
  assert (H20 : dti_steps (PyInt 20) = inr 0) by reflexivity.
  rewrite (pricing_try_closed _ _ _ _ _ _ _ _ Hl Hg H20 Hq), Hz.
  destruct (dti_steps_mono _ _ _ _ Hle Hx H20) as (N & _ & H).
  f_equal. unfold result_of.
  rewrite (dti_adj_of_nonpos x N H). reflexivity.
Qed.

Lemma dti_up_to_20_is_free_witness :
  py_le (PyFloat 18.0) (PyInt 20) = true
  /\ exists r,
       example_call = Some r
       /\ get_real_pricing (PyInt 25000) (PyInt 65000) (PyInt 20) (PyInt 3) = Some r.
Proof.
  split; [vm_compute; reflexivity | ]. eexists.
  split; [vm_compute; reflexivity | ].
  apply (dti_up_to_20_is_free (PyInt 25000) (PyInt 65000) (PyFloat 18.0) (PyInt 3));
    vm_compute; reflexivity.
Defined.

(** X6: the loan amount changes neither the apr, nor the risk
    probability, nor the risk tier. *)
Theorem loan_amount_does_not_move_the_rate
  (loan1 loan2 annual_inc dti grade_num : pynum) (r1 r2 : PricingResult) :
  get_real_pricing loan1 annual_inc dti grade_num = Some r1 ->
  get_real_pricing loan2 annual_inc dti grade_num = Some r2 ->
  apr r1 = apr r2
  /\ risk_probability r1 = risk_probability r2
  /\ risk_tier r1 = risk_tier r2.
Proof.
  intros Hr1 Hr2.
  apply get_real_pricing_Some in Hr1. apply get_real_pricing_Some in Hr2.
  destruct (pricing_try_inv _ _ _ _ _ Hr1)
    as (fg & x & q & Hg & Hx & Hq & -> & -> & ->).
  destruct (pricing_try_inv _ _ _ _ _ Hr2)
    as (fg' & x' & q' & Hg' & Hx' & Hq' & -> & -> & ->).
  rewrite Hg in Hg'. apply inr_inj in Hg'. subst fg'.
  rewrite Hx in Hx'. apply inr_inj in Hx'. subst x'.
  rewrite Hq in Hq'. apply inr_inj in Hq'. injection Hq' as <-.
  auto.
Qed.

Lemma loan_amount_does_not_move_the_rate_witness :
  exists r1 r2,
    get_real_pricing (PyInt 25000) (PyInt 65000) (PyFloat 18.0) (PyInt 3) = Some r1
    /\ get_real_pricing (PyFloat 7999.5) (PyInt 65000) (PyFloat 18.0) (PyInt 3) = Some r2
    /\ apr r1 = apr r2
    /\ risk_probability r1 = risk_probability r2
    /\ risk_tier r1 = risk_tier r2.
Proof.
  eexists. eexists.
  split; [vm_compute; reflexivity | ]. split; [vm_compute; reflexivity | ].
  apply (loan_amount_does_not_move_the_rate (PyInt 25000) (PyFloat 7999.5)
           (PyInt 65000) (PyFloat 18.0) (PyInt 3));
    vm_compute; reflexivity.
Defined.

End MonotoneTheorems.

(** ** The band of each grade *)

Section GradeBands.

Local Open Scope float_scope.

(** Addition is monotone in both arguments wherever it does not produce
    a NaN. *)
Lemma add_mono (x1 z1 x2 z2 : float) :
  is_num x1 = true -> is_num z1 = true -> is_num x2 = true -> is_num z2 = true ->
  (ordf x1 <= ordf x2)%Z -> (ordf z1 <= ordf z2)%Z ->
  is_num (x1 + z1) = true -> is_num (x2 + z2) = true ->
  (ordf (x1 + z1) <= ordf (x2 + z2))%Z.
Proof.
  intros Nx1 Nz1 Nx2 Nz2 Hx Hz N1 N2. pose proof ord_inf_pos as Oi.
  pose proof (ord_bounds _ (Prim2SF_valid (x1 + z1))) as B1.
  pose proof (ord_bounds _ (Prim2SF_valid (x2 + z2))) as B2.
  fold (ordf (x1 + z1)) in B1. fold (ordf (x2 + z2)) in B2.
  assert (Top : forall x z, is_num (x + z) = true ->
                  Prim2SF x = S754_infinity false \/ Prim2SF z = S754_infinity false ->
                  ordf (x + z) = ord_inf).
  { intros x z. unfold is_num, ordf. rewrite add_spec.
    intros N [I | I]; rewrite I in *;
      [destruct (Prim2SF z) as [s | [ | ] | | s m e] | destruct (Prim2SF x) as [s | [ | ] | | s m e]];
      try discriminate; reflexivity. }
  assert (Bot : forall x z, is_num (x + z) = true ->
                  Prim2SF x = S754_infinity true \/ Prim2SF z = S754_infinity true ->
                  ordf (x + z) = (- ord_inf)%Z).
  { intros x z. unfold is_num, ordf. rewrite add_spec.
    intros N [I | I]; rewrite I in *;
      [destruct (Prim2SF z) as [s | [ | ] | | s m e] | destruct (Prim2SF x) as [s | [ | ] | | s m e]];
      try discriminate; reflexivity. }
  destruct (num_cases x2 Nx2) as [(Ix2 & Ox2) | [(Ix2 & Ox2) | (Fx2 & Ox2)]].
  - destruct (num_cases x1 Nx1) as [(Ix1 & Ox1) | [(Ix1 & Ox1) | (Fx1 & Ox1)]]; try lia.
    rewrite (Bot x1 z1 N1 (or_introl Ix1)). lia.
  - rewrite (Top x2 z2 N2 (or_introl Ix2)). lia.
  - destruct (num_cases z2 Nz2) as [(Iz2 & Oz2) | [(Iz2 & Oz2) | (Fz2 & Oz2)]].
    + destruct (num_cases z1 Nz1) as [(Iz1 & Oz1) | [(Iz1 & Oz1) | (Fz1 & Oz1)]]; try lia.
      rewrite (Bot x1 z1 N1 (or_intror Iz1)). lia.
    + rewrite (Top x2 z2 N2 (or_intror Iz2)). lia.
    + destruct (num_cases x1 Nx1) as [(Ix1 & Ox1) | [(Ix1 & Ox1) | (Fx1 & Ox1)]]; try lia.
      * rewrite (Bot x1 z1 N1 (or_introl Ix1)). lia.
      * destruct (num_cases z1 Nz1) as [(Iz1 & Oz1) | [(Iz1 & Oz1) | (Fz1 & Oz1)]]; try lia.
        -- rewrite (Bot x1 z1 N1 (or_intror Iz1)). lia.
        -- rewrite (proj2 (add_fin x1 z1 Fx1 Fz1)), (proj2 (add_fin x2 z2 Fx2 Fz2)).
           apply sround_u_mono; [lia | ].
           apply value_ordf_le in Hx; try assumption.
           apply value_ordf_le in Hz; try assumption. lia.
Qed.

(** The sum of the formula is not a NaN when the base rate is finite. *)
Lemma rate_sum_num (b x q : float) :
  is_fin b = true ->
  is_num (b + dti_adj_of x) = true
  /\ is_num (b + dti_adj_of x + income_adj_of q) = true.
Proof.
  intros Fb. destruct (income_adj_class q) as (Fi & _).
  assert (Nd : is_num (dti_adj_of x) = true).
  { destruct (dti_adj_class x) as [I | (F & _)]; [ | now apply fin_num].
    unfold is_num. now rewrite I. }
  destruct (add_mono_l b _ _ Fb Nd Nd ltac:(lia)) as (N1 & _ & _).
  destruct (add_mono_r _ _ _ Fi N1 N1 ltac:(lia)) as (N2 & _ & _).
  auto.
Qed.

Lemma dti_adj_of_nonneg (x : float) :
  is_num (dti_adj_of x) = true /\ (0 <= ordf (dti_adj_of x))%Z.
Proof.
  destruct (is_num x) eqn:N.
  - destruct (dti_adj_of_ordf x N) as (N' & ->). split; [assumption | lia].
  - rewrite (dti_adj_of_nan x N). split; [reflexivity | vm_compute; discriminate].
Qed.

(** The clamped rate around a finite base rate [b]: it is at least the
    sum without DTI penalty at the lowest income adjustment, and at most
    the sum at the highest income adjustment when the DTI contributes
    nothing. *)
Lemma band_of_base (b lo hi x q : float) :
  is_fin b = true -> is_fin (b + 0) = true ->
  (ordf 5.99 <= ordf lo)%Z -> (ordf hi <= ordf 29.99)%Z ->
  (ordf lo <= ordf (b + 0 + -0.5))%Z -> (ordf (b + 0 + 0.5) <= ordf hi)%Z ->
  let a := clamp_rate (b + dti_adj_of x + income_adj_of q) in
  is_num a = true
  /\ (ordf lo <= ordf a)%Z
  /\ (is_num x = true -> (ordf x <= 0)%Z -> (ordf a <= ordf hi)%Z).
Proof.
  intros Fb Fb0 H1 H2 Hlo Hhi a. subst a.
  destruct (income_adj_class q) as (Fi & Ilo & Ihi).
  destruct (dti_adj_of_nonneg x) as (Nd & Hd).
  destruct (rate_sum_num b x q Fb) as (N1 & N2).
  destruct (clamp_rate_ordf _ N2) as (C & O).
  split; [exact C | ]. rewrite O.
  assert (N0 : is_num (b + 0) = true) by now apply fin_num.
  destruct (add_mono_l (b + 0) (-0.5) 0.5 Fb0 eq_refl eq_refl
              ltac:(vm_compute; discriminate)) as (_ & _ & Hmid).
  split.
  - pose proof (add_mono b 0 b (dti_adj_of x) (fin_num _ Fb) eq_refl
                  (fin_num _ Fb) Nd ltac:(lia) Hd N0 N1) as S1.
    destruct (add_mono_l (b + 0) (-0.5) (income_adj_of q) Fb0 eq_refl
                (fin_num _ Fi) Ilo) as (M1 & M2 & _).
    pose proof (add_mono (b + 0) (-0.5) (b + dti_adj_of x) (income_adj_of q)
                  N0 eq_refl N1 (fin_num _ Fi) S1 Ilo M1 N2) as S2.
    lia.
  - intros Nx Hx. rewrite (dti_adj_of_nonpos x Nx Hx).
    destruct (add_mono_l (b + 0) (income_adj_of q) 0.5 Fb0
                (fin_num _ Fi) eq_refl Ihi) as (_ & _ & S3).
    lia.
Qed.

(** The clamped rate of a grade of the range lies in the band of the
    grade: at least half a point below [2 g + 6] and, when the DTI
    contributes nothing, at most half a point above. *)
Lemma rate_band (g : Z) (fg x q : float) :
  (1 <= g <= 7)%Z -> grade_steps (PyInt g) = inr fg ->
  let a := clamp_rate (8.0 + fg * 2.0 + dti_adj_of x + income_adj_of q) in
  is_num a = true
  /\ (ordf (Z2float (2 * g + 6) - 0.5) <= ordf a)%Z
  /\ (is_num x = true -> (ordf x <= 0)%Z -> (ordf a <= ordf (Z2float (2 * g + 6) + 0.5))%Z).
Proof.
  intros Hg Hfg.
  assert (Hcases : (g = 1 \/ g = 2 \/ g = 3 \/ g = 4 \/ g = 5 \/ g = 6 \/ g = 7)%Z)
    by lia.
  decompose [or] Hcases; subst g; vm_compute in Hfg; injection Hfg as <-;
    apply band_of_base; vm_compute; reflexivity || discriminate.
Qed.

(** The bands of two different grades do not meet. *)
Lemma bands_apart (g1 g2 : Z) :
  (1 <= g1)%Z -> (g1 < g2)%Z -> (g2 <= 7)%Z ->
  (ordf (Z2float (2 * g1 + 6) + 0.5) < ordf (Z2float (2 * g2 + 6) - 0.5))%Z.
Proof.
  intros H1 H12 H2.
  assert (C1 : (g1 = 1 \/ g1 = 2 \/ g1 = 3 \/ g1 = 4 \/ g1 = 5 \/ g1 = 6)%Z) by lia.
  assert (C2 : (g2 = 2 \/ g2 = 3 \/ g2 = 4 \/ g2 = 5 \/ g2 = 6 \/ g2 = 7)%Z) by lia.
  decompose [or] C1; decompose [or] C2; subst g1 g2; try lia; vm_compute; reflexivity.
Qed.

(** X7: for a grade [g] of the range 1 to 7 the apr is at least
    [2 g + 5.5], whatever the DTI and the income, and at most [2 g + 6.5]
    when the DTI is at most 20. *)
Theorem apr_within_grade_band (loan_amnt annual_inc dti : pynum) (g : Z)
  (r : PricingResult) :
  (1 <= g <= 7)%Z ->
  get_real_pricing loan_amnt annual_inc dti (PyInt g) = Some r ->
  py_le (PyFloat (Z2float (2 * g + 6) - 0.5)) (apr r) = true
  /\ (py_le dti (PyInt 20) = true ->
      py_le (apr r) (PyFloat (Z2float (2 * g + 6) + 0.5)) = true).
Proof.
  intros Hg Hr. apply get_real_pricing_Some in Hr.
  destruct (pricing_try_inv _ _ _ _ _ Hr) as (fg & x & q & Hfg & Hx & _ & -> & _).
  destruct (rate_band g fg x q Hg Hfg) as (N & Hlo & Hhi).
  assert (Nlo : is_num (Z2float (2 * g + 6) - 0.5) = true).
  { destruct (sub_mono_r 0.5 (Z2float (2 * g + 6)) (Z2float (2 * g + 6)) eq_refl)
      as (M & _ & _); try lia; try assumption;
      unfold is_num, Z2float; destruct (Z2SF_ord (2 * g + 6)) as (_ & V & N');
      now rewrite Prim2SF_SF2Prim. }
  assert (Nhi : is_num (Z2float (2 * g + 6) + 0.5) = true).
  { destruct (add_mono_r 0.5 (Z2float (2 * g + 6)) (Z2float (2 * g + 6)) eq_refl)
      as (M & _ & _); try lia; try assumption;
      unfold is_num, Z2float; destruct (Z2SF_ord (2 * g + 6)) as (_ & V & N');
      now rewrite Prim2SF_SF2Prim. }
  cbn [py_le]. split.
  - rewrite leb_ordf by assumption. now apply Z.leb_le.
  - intros Hle. rewrite leb_ordf by assumption. apply Z.leb_le.
    destruct (dti_steps_mono _ _ _ _ Hle Hx (eq_refl : dti_steps (PyInt 20) = inr 0))
      as (Nx & _ & Hx0).
    now apply Hhi.
Qed.

Lemma apr_within_grade_band_witness :
  exists r, example_call = Some r
    /\ py_le (PyFloat (Z2float (2 * 3 + 6) - 0.5)) (apr r) = true
    /\ (py_le (PyFloat 18.0) (PyInt 20) = true ->
        py_le (apr r) (PyFloat (Z2float (2 * 3 + 6) + 0.5)) = true).
Proof.
  eexists. split; [vm_compute; reflexivity | ].
  apply (apr_within_grade_band (PyInt 25000) (PyInt 65000) (PyFloat 18.0) 3);
    [lia | vm_compute; reflexivity].
Defined.

(** X8: when neither DTI is above 20, a worse grade always costs strictly
    more: for two grades g1 < g2 of the range 1 to 7 the apr of g1 is
    strictly below the apr of g2, whatever the two incomes and the two
    loan amounts. *)
Theorem worse_grade_costs_more
  (loan1 inc1 dti1 loan2 inc2 dti2 : pynum) (g1 g2 : Z) (r1 r2 : PricingResult) :
  (1 <= g1)%Z -> (g1 < g2)%Z -> (g2 <= 7)%Z ->
  py_le dti1 (PyInt 20) = true ->
  get_real_pricing loan1 inc1 dti1 (PyInt g1) = Some r1 ->
  get_real_pricing loan2 inc2 dti2 (PyInt g2) = Some r2 ->
  py_lt (apr r1) (apr r2) = true.
Proof.
  intros H1 H12 H2 Hle Hr1 Hr2.
  apply get_real_pricing_Some in Hr1. apply get_real_pricing_Some in Hr2.
  destruct (pricing_try_inv _ _ _ _ _ Hr1) as (fg1 & x1 & q1 & Hfg1 & Hx1 & _ & -> & _).
  destruct (pricing_try_inv _ _ _ _ _ Hr2) as (fg2 & x2 & q2 & Hfg2 & Hx2 & _ & -> & _).
  destruct (rate_band g1 fg1 x1 q1 ltac:(lia) Hfg1) as (N1 & _ & Hhi).
  destruct (rate_band g2 fg2 x2 q2 ltac:(lia) Hfg2) as (N2 & Hlo & _).
  destruct (dti_steps_mono _ _ _ _ Hle Hx1 (eq_refl : dti_steps (PyInt 20) = inr 0))
    as (Nx & _ & Hx0).
  specialize (Hhi Nx Hx0).
  pose proof (bands_apart g1 g2 H1 H12 H2).
  cbn [py_lt]. rewrite ltb_ordf by assumption. apply Z.ltb_lt. lia.
Qed.

Lemma worse_grade_costs_more_witness :
  py_le (PyFloat 18.0) (PyInt 20) = true
  /\ exists r1 r2,
       get_real_pricing (PyInt 25000) (PyInt 15000) (PyFloat 18.0) (PyInt 3) = Some r1
       /\ get_real_pricing (PyInt 8000) (PyInt 300000) (PyFloat 0.0) (PyInt 4) = Some r2
       /\ py_lt (apr r1) (apr r2) = true.
Proof.
  split; [vm_compute; reflexivity | ]. eexists. eexists.
  split; [vm_compute; reflexivity | ]. split; [vm_compute; reflexivity | ].
  apply (worse_grade_costs_more (PyInt 25000) (PyInt 15000) (PyFloat 18.0)
           (PyInt 8000) (PyInt 300000) (PyFloat 0.0) 3 4);
    try lia; vm_compute; reflexivity.
Defined.

End GradeBands.

(** * Division *)

(** ** Rounding a quotient to an integer *)

Lemma rnq_pow2 (a k : Z) : rnq a (2 ^ k) = rne a k.
Proof. reflexivity. Qed.

Lemma rnq_bounds (a d : Z) : a / d <= rnq a d <= a / d + 1.
Proof.
  unfold rnq. destruct (_ ?= _); [destruct (Z.even _) | | ]; lia.
Qed.

Lemma rnq_mono (a b d : Z) : 0 < d -> a <= b -> rnq a d <= rnq b d.
Proof.
  intros Hd Hab.
  pose proof (rnq_bounds a d). pose proof (rnq_bounds b d).
  assert (a / d <= b / d) by (apply Z.div_le_mono; lia).
  destruct (Z.eq_dec (a / d) (b / d)) as [E | N]; [ | lia].
  assert (a mod d <= b mod d).
  { pose proof (Z.div_mod a d). pose proof (Z.div_mod b d). nia. }
  unfold rnq. rewrite <- E.
  destruct (Z.compare_spec (2 * (a mod d)) d);
    destruct (Z.compare_spec (2 * (b mod d)) d);
    try destruct (Z.even _); lia.
Qed.

Lemma rnq_scale (a d c : Z) : 0 < d -> 0 < c -> rnq (a * c) (d * c) = rnq a d.
Proof.
  intros Hd Hc. unfold rnq.
  rewrite Z.div_mul_cancel_r by lia.
  rewrite Zmult_mod_distr_r.
  replace (2 * (a mod d * c)) with ((2 * (a mod d)) * c) by ring.
  replace ((2 * (a mod d)) * c ?= d * c) with (2 * (a mod d) ?= d).
  - reflexivity.
  - destruct (Z.compare_spec (2 * (a mod d)) d); symmetry;
      [apply Z.compare_eq_iff | apply Z.compare_lt_iff | apply Z.compare_gt_iff]; nia.
Qed.

Lemma rnq_exact (a d : Z) : 0 < d -> rnq (a * d) d = a.
Proof.
  intros Hd. unfold rnq. rewrite Z.div_mul, Z.mod_mul by lia.
  destruct (Z.compare_spec (2 * 0) d); lia.
Qed.

(** ** The shift register on a quotient *)

Lemma shr_quot_step (a d : Z) :
  0 <= a -> 0 < d -> shr_1 (shr_quot a d) = shr_quot a (d * 2).
Proof.
  intros Ha Hd.
  rewrite shr_1_nonneg by (simpl; apply Z.div_pos; lia).
  unfold shr_quot. cbn [shr_m shr_r shr_s].
  pose proof (Z.div_mod a d ltac:(lia)) as D.
  pose proof (Z.mod_pos_bound a d Hd) as B.
  rewrite Z.rem_mul_r by lia.
  rewrite Z.div2_div, Z.div_div by lia.
  set (q := a / d) in *. set (rm := a mod d) in *.
  rewrite (Zmod_odd q).
  clearbody q rm.
  destruct (Z.odd q); f_equal.
  - symmetry. apply Z.leb_le. lia.
  - destruct (Z.leb_spec d (2 * rm)); destruct (Z.eqb_spec (2 * rm) 0);
      destruct (Z.eqb_spec (2 * rm) d);
      destruct (Z.eqb_spec (2 * (rm + d * 1)) 0);
      destruct (Z.eqb_spec (2 * (rm + d * 1)) (d * 2));
      simpl; try reflexivity; lia.
  - symmetry. apply Z.leb_gt. lia.
  - replace (rm + d * 0) with rm by lia.
    destruct (Z.leb_spec d (2 * rm)); destruct (Z.eqb_spec (2 * rm) 0);
      destruct (Z.eqb_spec (2 * rm) d); destruct (Z.eqb_spec (2 * rm) (d * 2));
      simpl; try reflexivity; lia.
Qed.

Lemma iter_pos_shr_quot (a : Z) (p : positive) :
  0 <= a -> forall d, 0 < d ->
  iter_pos shr_1 p (shr_quot a d) = shr_quot a (d * 2 ^ Zpos p).
Proof.
  intros Ha. induction p as [p IH | p IH | ]; intros d Hd; cbn [iter_pos].
  - pose proof (pow2_pos (Zpos p) ltac:(lia)).
    rewrite shr_quot_step, IH, IH by nia. f_equal.
    replace (Zpos p~1) with (1 + Zpos p + Zpos p) by lia.
    rewrite !Z.pow_add_r by lia. change (2 ^ 1) with 2. ring.
  - pose proof (pow2_pos (Zpos p) ltac:(lia)).
    rewrite IH, IH by nia. f_equal.
    replace (Zpos p~0) with (Zpos p + Zpos p) by lia.
    rewrite !Z.pow_add_r by lia. ring.
  - rewrite shr_quot_step by assumption. reflexivity.
Qed.

Lemma shr_shr_quot (a d e n : Z) :
  0 <= a -> 0 < d -> 0 <= n ->
  shr (shr_quot a d) e n = (shr_quot a (d * 2 ^ n), e + n).
Proof.
  intros Ha Hd Hn. destruct n as [ | p | p]; cbn [shr].
  - change (2 ^ 0) with 1. now rewrite Z.mul_1_r, Z.add_0_r.
  - now rewrite iter_pos_shr_quot by lia.
  - lia.
Qed.

(** Rounding by the round and sticky bits is [rnq]. *)
Lemma round_shr_quot (a d : Z) :
  0 < d ->
  round_nearest_even (shr_m (shr_quot a d)) (loc_of_shr_record (shr_quot a d))
  = rnq a d.
Proof.
  intros Hd.
  unfold shr_quot, rnq, loc_of_shr_record, round_nearest_even. cbn [shr_m].
  destruct (Z.compare_spec (2 * (a mod d)) d);
    destruct (Z.leb_spec d (2 * (a mod d)));
    destruct (Z.eqb_spec (2 * (a mod d)) 0);
    destruct (Z.eqb_spec (2 * (a mod d)) d);
    simpl; try reflexivity; lia.
Qed.

(** The location the division computes from the remainder is the state of
    the shift register on the quotient. *)
Lemma new_location_quot (q r b : Z) :
  0 < b -> 0 <= r < b ->
  shr_record_of_loc q (new_location b r) = shr_quot (q * b + r) b.
Proof.
  intros Hb Hr. unfold shr_quot.
  rewrite Z.div_add_l, Z.div_small, Z.add_0_r by lia.
  rewrite Z.add_comm, Z.mod_add, Z.mod_small by lia.
  unfold new_location, new_location_even, new_location_odd.
  destruct (Z.even b) eqn:Ev.
  - destruct (Z.eqb_spec r 0) as [-> | N].
    + cbn [shr_record_of_loc]. f_equal.
      * symmetry. apply Z.leb_gt. lia.
    + destruct (Z.compare_spec (2 * r) b); cbn [shr_record_of_loc]; f_equal;
        try (symmetry; apply Z.leb_le; lia);
        try (symmetry; apply Z.leb_gt; lia);
        destruct (Z.eqb_spec (2 * r) 0); destruct (Z.eqb_spec (2 * r) b);
        simpl; try reflexivity; lia.
  - assert (Ho : Z.odd b = true) by (rewrite <- Z.negb_even, Ev; reflexivity).
    pose proof (Zmod_odd b) as Hm. rewrite Ho in Hm.
    pose proof (Z.div_mod b 2 ltac:(lia)) as Hdm. rewrite Hm in Hdm.
    destruct (Z.eqb_spec r 0) as [-> | N].
    + cbn [shr_record_of_loc]. f_equal.
      * symmetry. apply Z.leb_gt. lia.
    + destruct (Z.compare_spec (2 * r + 1) b); cbn [shr_record_of_loc]; f_equal;
        try (symmetry; apply Z.leb_le; lia);
        try (symmetry; apply Z.leb_gt; lia);
        destruct (Z.eqb_spec (2 * r) 0); destruct (Z.eqb_spec (2 * r) b);
        simpl; try reflexivity; lia.
Qed.

(** ** The rounding of a quotient *)

(** The last step of the rounding of the specification, on a mantissa that
    is already rounded: only a carry to 2^53 is renormalised. *)
Lemma round_second_stage (sx : bool) (m1 t : Z) :
  -1074 <= t -> 0 <= m1 <= 2 ^ 53 ->
  (let '(mrs, e) := shr_fexp prec emax m1 t loc_Exact in
   match shr_m mrs with
   | 0 => S754_zero sx
   | Zpos m => if e <=? emax - prec then S754_finite sx m e else S754_infinity sx
   | Zneg _ => S754_nan
   end) = finish_round sx m1 t.
Proof.
  intros Ht B1. unfold shr_fexp. cbn [shr_record_of_loc]. unfold finish_round.
  destruct (Z.eqb_spec m1 0) as [E0 | N0].
  - rewrite E0. cbn [Zdigits2]. rewrite fexp_eq.
    assert (Hn : Z.max (0 + t - 53) (-1074) - t <= 0) by lia.
    destruct (Z.max (0 + t - 53) (-1074) - t) eqn:En; try lia; reflexivity.
  - destruct (Z.eqb_spec m1 (2 ^ 53)) as [E53 | N53].
    + rewrite E53. change (Zdigits2 (2 ^ 53)) with 54. rewrite fexp_eq.
      replace (Z.max (54 + t - 53) (-1074) - t) with 1 by lia.
      cbn [shr shr_1 iter_pos]. change (2 ^ 53) with (Zpos (xO (Z.to_pos (2 ^ 52)))).
      cbn [shr_1 shr_m fst snd]. reflexivity.
    + assert (Hd : Zdigits2 m1 <= 53).
      { pose proof (Zdigits2_bounds m1 ltac:(lia)).
        destruct (Z_le_gt_dec (Zdigits2 m1) 53); [assumption | ].
        assert (2 ^ 53 <= 2 ^ (Zdigits2 m1 - 1)) by (apply Z.pow_le_mono_r; lia).
        lia. }
      rewrite fexp_eq.
      assert (Hn : Z.max (Zdigits2 m1 + t - 53) (-1074) - t <= 0) by lia.
      destruct (Z.max (Zdigits2 m1 + t - 53) (-1074) - t) eqn:En; try lia;
        cbn [shr shr_m]; destruct m1; try lia; reflexivity.
Qed.

Lemma quot_lt_pow (q n : Z) :
  0 <= q -> 0 <= n -> Zdigits2 q - 53 <= n -> q / 2 ^ n < 2 ^ 53.
Proof.
  intros Hq Hn Hd. pose proof (pow2_pos n Hn) as P.
  pose proof (pow2_pos 53 ltac:(lia)).
  destruct (Z.eq_dec q 0) as [-> | N]; [rewrite Z.div_0_l by lia; lia | ].
  pose proof (Zdigits2_bounds q ltac:(lia)) as D.
  apply Z.div_lt_upper_bound; [lia | ].
  rewrite <- Z.pow_add_r by lia.
  apply Z.lt_le_trans with (2 ^ Zdigits2 q); [lia | ].
  apply Z.pow_le_mono_r; lia.
Qed.

(** The rounding of the specification on the quotient and remainder of a
    division: the rounded mantissa is the quotient rounded to nearest. *)
Lemma binary_round_aux_quot (sx : bool) (q r b e : Z) :
  0 < b -> 0 <= r < b -> 0 <= q ->
  e <= fexp prec emax (Zdigits2 q + e) ->
  binary_round_aux prec emax sx q e (new_location b r)
  = finish_round sx (rnq (q * b + r) (b * 2 ^ (fexp prec emax (Zdigits2 q + e) - e)))
                 (fexp prec emax (Zdigits2 q + e)).
Proof.
  intros Hb Hr Hq Ht. set (t := fexp prec emax (Zdigits2 q + e)) in *.
  assert (Htm : -1074 <= t /\ Zdigits2 q + e - 53 <= t).
  { subst t. rewrite fexp_eq. lia. }
  pose proof (pow2_pos (t - e) ltac:(lia)) as P.
  unfold binary_round_aux, shr_fexp. fold t.
  rewrite new_location_quot by assumption.
  rewrite shr_shr_quot by nia.
  rewrite round_shr_quot by nia.
  replace (e + (t - e)) with t by lia.
  apply round_second_stage; [lia | ].
  pose proof (rnq_bounds (q * b + r) (b * 2 ^ (t - e))) as R.
  assert (Hdiv : (q * b + r) / (b * 2 ^ (t - e)) = q / 2 ^ (t - e)).
  { rewrite <- Z.div_div by lia.
    rewrite Z.div_add_l, (Z.div_small r b), Z.add_0_r by lia. reflexivity. }
  rewrite Hdiv in R.
  pose proof (quot_lt_pow q (t - e) Hq ltac:(lia) ltac:(lia)).
  assert (0 <= q / 2 ^ (t - e)) by (apply Z.div_pos; lia).
  lia.
Qed.

(** The quotient, the exponent and the location the division hands to the
    rounding. *)
Lemma SFdiv_core_eq (m1 e1 m2 e2 : Z) :
  0 < m1 -> 0 < m2 ->
  let e' := Z.min (fexp prec emax (Zdigits2 m1 + e1 - (Zdigits2 m2 + e2))) (e1 - e2) in
  let m' := m1 * 2 ^ (e1 - e2 - e') in
  SFdiv_core_binary prec emax m1 e1 m2 e2
  = (m' / m2, e', new_location m2 (m' mod m2)).
Proof.
  intros H1 H2 e' m'. unfold SFdiv_core_binary. fold e'.
  assert (Hm' : match e1 - e2 - e' with
                | 0 => m1
                | Zpos _ => Z.shiftl m1 (e1 - e2 - e')
                | Zneg _ => 0
                end = m').
  { subst m'. assert (Hs : 0 <= e1 - e2 - e') by (subst e'; lia).
    destruct (e1 - e2 - e') as [ | p | p] eqn:Es.
    - change (2 ^ 0) with 1. lia.
    - rewrite Z.shiftl_mul_pow2 by lia. reflexivity.
    - lia. }
  rewrite Hm'.
  change (IntDef.Z.div_eucl m' m2) with (Z.div_eucl m' m2).
  unfold Z.div, Z.modulo. destruct (Z.div_eucl m' m2) as [q r]. reflexivity.
Qed.

(** The number of digits of a quotient when the numerator is scaled. *)
Lemma Zdigits2_div_scale (Y B j : Z) :
  0 < B -> 0 <= j -> 1 <= Y / B ->
  Zdigits2 (Y * 2 ^ j / B) = Zdigits2 (Y / B) + j.
Proof.
  intros HB Hj Hq. pose proof (pow2_pos j Hj) as P.
  pose proof (Zdigits2_bounds (Y / B) ltac:(lia)) as D.
  pose proof (Zdigits2_pos (Y / B) ltac:(lia)) as Dp.
  pose proof (Z.div_mod Y B ltac:(lia)) as DM.
  pose proof (Z.mod_pos_bound Y B HB) as MB.
  set (q := Y / B) in *. set (d := Zdigits2 q) in *.
  assert (Lo : q * 2 ^ j <= Y * 2 ^ j / B).
  { apply Z.div_le_lower_bound; [lia | ]. nia. }
  assert (Hi : Y * 2 ^ j / B < (q + 1) * 2 ^ j).
  { apply Z.div_lt_upper_bound; [lia | ]. nia. }
  apply Zdigits2_unique; [ | nia].
  replace (d + j - 1) with ((d - 1) + j) by lia.
  rewrite !Z.pow_add_r by lia. nia.
Qed.

Lemma Zdigits2_small (x j : Z) : 0 <= x < 2 ^ j -> 0 <= j -> Zdigits2 x <= j.
Proof.
  intros Hx Hj. destruct (Z.eq_dec x 0) as [-> | N]; [simpl; lia | ].
  pose proof (Zdigits2_bounds x ltac:(lia)).
  destruct (Z_le_gt_dec (Zdigits2 x) j); [assumption | ].
  assert (2 ^ j <= 2 ^ (Zdigits2 x - 1)) by (apply Z.pow_le_mono_r; lia). lia.
Qed.

(** The exponent the rounding of a quotient settles on, counted from
    -1074, whatever the scale at which the quotient was computed. *)
Lemma quot_exponent (Y B j' : Z) :
  0 < Y -> 0 < B ->
  let A := if 0 <=? j' then Y * 2 ^ j' else Y in
  let Z := if 0 <=? j' then Y else Y * 2 ^ (- j') in
  (Z / B = 0 -> j' <= 0) ->
  Z.max (Zdigits2 (A / B) - 53) 0 = Z.max (Zdigits2 (Z / B) + j' - 53) 0.
Proof.
  intros HY HB A Z Hq0.
  destruct (Z.leb_spec 0 j') as [Hj | Hj]; subst A Z.
  - assert (Hq : 0 <= Y / B) by (apply Z.div_pos; lia).
    destruct (Z.eq_dec (Y / B) 0) as [E | N].
    + assert (j' = 0) by (specialize (Hq0 E); lia). subst j'.
      change (2 ^ 0) with 1. rewrite Z.mul_1_r, E. reflexivity.
    + rewrite Zdigits2_div_scale by lia. lia.
  - assert (Hq : 0 <= Y / B) by (apply Z.div_pos; lia).
    pose proof (pow2_pos (- j') ltac:(lia)) as P.
    destruct (Z.eq_dec (Y / B) 0) as [E | N].
    + rewrite E. cbn [Zdigits2].
      assert (0 <= Y * 2 ^ (- j') / B < 2 ^ (- j')).
      { split; [apply Z.div_pos; nia | ].
        apply Z.div_lt_upper_bound; [lia | ].
        assert (Y < B) by (apply Z.div_small_iff in E; lia). nia. }
      pose proof (Zdigits2_small _ (- j') H ltac:(lia)). lia.
    + rewrite Zdigits2_div_scale by lia. lia.
Qed.

(** The quotient of [m1 * 2^e1] by [m2 * 2^e2] is rounded to the float at
    the position [RQ] of the exact quotient. *)
Lemma div_round_ord (sx : bool) (m1 e1 m2 e2 q e' : Z) (l : location) :
  0 < m1 -> 0 < m2 -> -1074 <= e1 -> -1074 <= e2 ->
  SFdiv_core_binary prec emax m1 e1 m2 e2 = (q, e', l) ->
  let s := binary_round_aux prec emax sx q e' l in
  ord s = cond_Zopp sx (Z.min (RQ (m1 * 2 ^ (e1 + 2148)) (m2 * 2 ^ (e2 + 1074))) ord_inf)
  /\ valid_binary s = true /\ not_nan s = true.
Proof.
  intros H1 H2 He1 He2 Hcore s. subst s.
  rewrite SFdiv_core_eq in Hcore by assumption. cbv zeta in Hcore.
  set (d1 := Zdigits2 m1) in *. set (d2 := Zdigits2 m2) in *.
  set (e0 := Z.min (fexp prec emax (d1 + e1 - (d2 + e2))) (e1 - e2)) in *.
  set (m' := m1 * 2 ^ (e1 - e2 - e0)) in *.
  injection Hcore as <- <- <-.
  assert (He0 : e0 <= e1 - e2 /\ e0 <= Z.max (d1 + e1 - (d2 + e2) - 53) (-1074)
                /\ (e0 = e1 - e2 \/ e0 = Z.max (d1 + e1 - (d2 + e2) - 53) (-1074))).
  { subst e0. rewrite fexp_eq. lia. }
  destruct He0 as (Hs & Hf & Hmin).
  pose proof (pow2_pos (e1 - e2 - e0) ltac:(lia)) as Ps.
  assert (Hm' : 0 < m') by (subst m'; nia).
  pose proof (Z.div_mod m' m2 ltac:(lia)) as DM.
  pose proof (Z.mod_pos_bound m' m2 H2) as MB.
  set (q := m' / m2) in *. set (r := m' mod m2) in *.
  assert (Hq : 0 <= q) by (subst q; apply Z.div_pos; lia).
  pose proof (Zdigits2_bounds m1 H1) as D1. fold d1 in D1.
  pose proof (Zdigits2_bounds m2 H2) as D2. fold d2 in D2.
  pose proof (Zdigits2_pos m1 H1) as P1. fold d1 in P1.
  pose proof (Zdigits2_pos m2 H2) as P2. fold d2 in P2.
  (* a quotient computed above the least exponent has 53 bits *)
  assert (G : -1074 < e0 -> 2 ^ 52 <= q).
  { intros Hgt. assert (Hsd : 53 - d1 + d2 <= e1 - e2 - e0) by lia.
    subst q. apply Z.div_le_lower_bound; [lia | ].
    assert (2 ^ (52 + d2) <= m').
    { subst m'. apply Z.le_trans with (2 ^ (d1 - 1 + (e1 - e2 - e0))).
      - apply Z.pow_le_mono_r; lia.
      - rewrite Z.pow_add_r by lia. nia. }
    rewrite Z.pow_add_r in H by lia.
    pose proof (pow2_pos 52 ltac:(lia)). nia. }
  set (t := fexp prec emax (Zdigits2 q + e0)).
  assert (Htm : t = Z.max (Zdigits2 q + e0 - 53) (-1074)) by (subst t; apply fexp_eq).
  assert (Hd53 : -1074 < e0 -> 53 <= Zdigits2 q).
  { intros Hgt. specialize (G Hgt).
    pose proof (Zdigits2_le (2 ^ 52) q ltac:(apply pow2_pos; lia) G) as L.
    change (Zdigits2 (2 ^ 52)) with 53 in L. exact L. }
  assert (F1 : e0 <= t).
  { destruct (Z_le_gt_dec e0 (-1074)); [lia | ]. specialize (Hd53 ltac:(lia)). lia. }
  rewrite binary_round_aux_quot by (assumption || lia). fold t.
  replace (q * m2 + r) with m' by lia.
  pose proof (pow2_pos (t - e0) ltac:(lia)) as Pn.
  assert (Hdiv : m' / (m2 * 2 ^ (t - e0)) = q / 2 ^ (t - e0)).
  { rewrite <- Z.div_div by lia. reflexivity. }
  pose proof (rnq_bounds m' (m2 * 2 ^ (t - e0))) as R. rewrite Hdiv in R.
  pose proof (quot_lt_pow q (t - e0) Hq ltac:(lia) ltac:(lia)) as Hup.
  assert (Hq0 : 0 <= q / 2 ^ (t - e0)) by (apply Z.div_pos; lia).
  assert (Hlow : -1074 < t -> 2 ^ 52 <= rnq m' (m2 * 2 ^ (t - e0))).
  { intros Hgt.
    assert (Hqpos : 0 < q).
    { destruct (Z_le_gt_dec e0 (-1074)).
      - destruct (Z.eq_dec q 0) as [E | N]; [ | lia]. rewrite E in Htm. simpl in Htm. lia.
      - pose proof (pow2_pos 52 ltac:(lia)). specialize (G ltac:(lia)). lia. }
    pose proof (Zdigits2_bounds q Hqpos) as Dq.
    assert (2 ^ 52 <= q / 2 ^ (t - e0)); [ | lia].
    apply Z.div_le_lower_bound; [lia | ].
    rewrite <- Z.pow_add_r by lia.
    apply Z.le_trans with (2 ^ (Zdigits2 q - 1)); [ | lia].
    apply Z.pow_le_mono_r; lia. }
  destruct (finish_round_facts sx (rnq m' (m2 * 2 ^ (t - e0))) t) as (O & V & N);
    [lia | lia | exact Hlow | ].
  split; [ | auto]. rewrite O. f_equal. f_equal.
  (* the position is that of the exact quotient *)
  assert (Hj : 0 <= e2 + e0 + 2148) by (clear - Hmin He1 He2; lia).
  assert (Gq : -1074 < e0 -> q <> 0).
  { intros Hgt E. specialize (G Hgt). rewrite E in G. clear - G.
    pose proof (pow2_pos 52 ltac:(lia)). lia. }
  assert (Hte : 0 <= t - e0) by (clear - F1; lia).
  assert (Ht : 0 <= t + 1074) by (clear - Htm; lia).
  assert (Hee : 0 <= e1 - e2 - e0) by (clear - Hs; lia).
  clear O V N Hlow Hup R Hdiv Hq0 Hd53 DM MB D1 D2 P1 P2 Hf Hmin Ps G Hq Pn F1 Hs.
  unfold RQ. cbv zeta.
  set (A := m1 * 2 ^ (e1 + 2148)). set (B := m2 * 2 ^ (e2 + 1074)).
  pose proof (pow2_pos (e2 + 1074) ltac:(clear - He2; lia)) as PB.
  assert (HB : 0 < B) by (subst B; apply Z.mul_pos_pos; assumption).
  set (Zq := m' * 2 ^ (e2 + 1074)).
  assert (HZq : Zq / B = q).
  { subst Zq B q. apply Z.div_mul_cancel_r; clear - H2 PB; lia. }
  assert (HZe : Zq = m1 * 2 ^ (e1 - e0 + 1074)).
  { subst Zq m'. rewrite <- Z.mul_assoc, <- Z.pow_add_r by (clear - Hee He2; lia).
    f_equal. f_equal. clear; lia. }
  assert (HZq0 : 0 < Zq).
  { rewrite HZe. apply Z.mul_pos_pos; [assumption | ].
    apply pow2_pos. clear - Hee He2; lia. }
  assert (HA0 : 0 < A).
  { subst A. apply Z.mul_pos_pos; [assumption | ].
    apply pow2_pos. clear - He1; lia. }
  assert (Hk : Z.max (Zdigits2 (A / B) - 53) 0 = t + 1074).
  { rewrite Htm.
    replace (Z.max (Zdigits2 q + e0 - 53) (-1074) + 1074)
      with (Z.max (Zdigits2 (Zq / B) + (e0 + 1074) - 53) 0)
      by (rewrite HZq; clear; lia).
    destruct (Z.leb_spec 0 (e0 + 1074)) as [Hj' | Hj'].
    - pose proof (quot_exponent Zq B (e0 + 1074) HZq0 HB) as QE.
      cbv zeta in QE. destruct (Z.leb_spec 0 (e0 + 1074)); [ | clear - Hj' H; lia].
      replace (Zq * 2 ^ (e0 + 1074)) with A in QE.
      + apply QE. rewrite HZq. intros E.
        destruct (Z_le_gt_dec e0 (-1074)) as [L | L]; [clear - L; lia | ].
        exfalso. apply Gq; [clear - L; lia | exact E].
      + subst A. rewrite HZe, <- Z.mul_assoc, <- Z.pow_add_r
          by (clear - Hee He2 Hj' He1; lia).
        f_equal. f_equal. clear; lia.
    - pose proof (quot_exponent A B (e0 + 1074) HA0 HB) as QE.
      cbv zeta in QE. destruct (Z.leb_spec 0 (e0 + 1074)); [clear - Hj' H; lia | ].
      replace (A * 2 ^ (- (e0 + 1074))) with Zq in QE.
      + apply QE. clear - Hj'; lia.
      + subst A. rewrite HZe, <- Z.mul_assoc, <- Z.pow_add_r
          by (clear - Hee He2 Hj' He1; lia).
        f_equal. f_equal. clear; lia. }
  rewrite Hk. f_equal.
  pose proof (pow2_pos (e2 + e0 + 2148) Hj) as Pj.
  pose proof (pow2_pos (t - e0) Hte) as Pn.
  rewrite <- (rnq_scale m' (m2 * 2 ^ (t - e0)) (2 ^ (e2 + e0 + 2148)))
    by (try apply Z.mul_pos_pos; assumption).
  f_equal.
  - subst A m'. rewrite <- Z.mul_assoc, <- Z.pow_add_r by (clear - Hee Hj; lia).
    f_equal. f_equal. clear; lia.
  - subst B. rewrite <- !Z.mul_assoc, <- !Z.pow_add_r by (clear - Hte Hj He2 Ht; lia).
    f_equal. f_equal. clear; lia.
Qed.

(** ** The position of a rounded quotient *)

Lemma rnq_shift_bounds (A B : Z) :
  0 <= A -> 0 < B ->
  let k := Z.max (Zdigits2 (A / B) - 53) 0 in
  0 <= rnq A (B * 2 ^ k) <= 2 ^ 53 /\ (0 < k -> 2 ^ 52 <= rnq A (B * 2 ^ k)).
Proof.
  intros HA HB k.
  assert (Hk : 0 <= k) by (subst k; lia).
  pose proof (pow2_pos k Hk) as P.
  assert (HF : 0 <= A / B) by (apply Z.div_pos; lia).
  pose proof (rnq_bounds A (B * 2 ^ k)) as R.
  rewrite <- Z.div_div in R by lia.
  pose proof (quot_lt_pow (A / B) k HF Hk ltac:(subst k; lia)) as U.
  assert (0 <= A / B / 2 ^ k) by (apply Z.div_pos; lia).
  split; [lia | ].
  intros Hpos. assert (2 ^ 52 <= A / B / 2 ^ k); [ | lia].
  assert (HFp : 0 < A / B).
  { destruct (Z.eq_dec (A / B) 0) as [E | N]; [ | lia].
    subst k. rewrite E in Hpos. simpl in Hpos. lia. }
  pose proof (Zdigits2_bounds (A / B) HFp).
  apply Z.div_le_lower_bound; [lia | ].
  rewrite <- Z.pow_add_r by lia.
  apply Z.le_trans with (2 ^ (Zdigits2 (A / B) - 1)); [ | lia].
  apply Z.pow_le_mono_r; subst k; lia.
Qed.

Lemma RQ_nonneg (A B : Z) : 0 <= A -> 0 < B -> 0 <= RQ A B.
Proof.
  intros HA HB. unfold RQ. cbv zeta.
  pose proof (rnq_shift_bounds A B HA HB) as (Bd & _). cbv zeta in Bd.
  assert (0 < 2 ^ 52) by (apply pow2_pos; lia). nia.
Qed.

(** The position of the rounded quotient is monotone in the numerator. *)
Lemma RQ_mono (A1 A2 B : Z) : 0 <= A1 -> A1 <= A2 -> 0 < B -> RQ A1 B <= RQ A2 B.
Proof.
  intros HA H12 HB. unfold RQ. cbv zeta.
  pose proof (rnq_shift_bounds A1 B HA HB) as (B1 & _).
  pose proof (rnq_shift_bounds A2 B ltac:(lia) HB) as (_ & B2).
  cbv zeta in B1, B2.
  assert (HF : A1 / B <= A2 / B) by (apply Z.div_le_mono; lia).
  assert (HF1 : 0 <= A1 / B) by (apply Z.div_pos; lia).
  assert (Hd : Zdigits2 (A1 / B) <= Zdigits2 (A2 / B)).
  { destruct (Z.eq_dec (A1 / B) 0) as [E | N].
    - rewrite E. cbn [Zdigits2].
      destruct (A2 / B) as [ | p | p]; simpl; lia.
    - apply Zdigits2_le; lia. }
  set (k1 := Z.max (Zdigits2 (A1 / B) - 53) 0) in *.
  set (k2 := Z.max (Zdigits2 (A2 / B) - 53) 0) in *.
  assert (Hk : k1 <= k2) by (subst k1 k2; lia).
  destruct (Z.eq_dec k1 k2) as [E | NE].
  - rewrite <- E. pose proof (pow2_pos k1 ltac:(subst k1; lia)).
    pose proof (rnq_mono A1 A2 (B * 2 ^ k1) ltac:(nia) H12). lia.
  - specialize (B2 ltac:(subst k1 k2; lia)).
    change (2 ^ 53) with (2 * 2 ^ 52) in B1.
    assert (0 < 2 ^ 52) by (apply pow2_pos; lia). nia.
Qed.

Lemma RQ_scale (A B c : Z) : 0 < B -> 0 < c -> RQ (A * c) (B * c) = RQ A B.
Proof.
  intros HB Hc. unfold RQ. cbv zeta.
  rewrite Z.div_mul_cancel_r by lia.
  set (k := Z.max (Zdigits2 (A / B) - 53) 0).
  pose proof (pow2_pos k ltac:(subst k; lia)).
  replace (B * c * 2 ^ k) with (B * 2 ^ k * c) by ring.
  rewrite rnq_scale by nia. reflexivity.
Qed.

(** A quotient that is a whole number of units is rounded like it. *)
Lemma RQ_exact (N B : Z) : 0 < B -> RQ (N * B) B = RN N.
Proof.
  intros HB. unfold RQ, RN, drop. cbv zeta. rewrite Z.div_mul by lia.
  set (k := Z.max (Zdigits2 N - 53) 0).
  pose proof (pow2_pos k ltac:(subst k; lia)).
  replace (B * 2 ^ k) with (2 ^ k * B) by ring.
  rewrite rnq_scale by lia. reflexivity.
Qed.

Lemma srq_pos (a b : Z) : 0 < a -> srq a b = Z.min (RQ a b) ord_inf.
Proof. destruct a; try lia. reflexivity. Qed.

Lemma srq_neg (a b : Z) : a < 0 -> srq a b = - Z.min (RQ (- a) b) ord_inf.
Proof. destruct a; try lia. reflexivity. Qed.

Lemma srq_cond (sx : bool) (a b : Z) :
  0 < a -> cond_Zopp sx (Z.min (RQ a b) ord_inf) = srq (cond_Zopp sx a) b.
Proof.
  intros Ha. destruct sx; cbn [cond_Zopp].
  - rewrite srq_neg by lia. now rewrite Z.opp_involutive.
  - now rewrite srq_pos.
Qed.

(** The signed position is monotone in the numerator. *)
Lemma srq_mono (a1 a2 b : Z) : 0 < b -> a1 <= a2 -> srq a1 b <= srq a2 b.
Proof.
  intros Hb H. pose proof ord_inf_pos.
  assert (P : forall a, 0 < a -> 0 <= srq a b).
  { intros a Ha. rewrite srq_pos by assumption.
    pose proof (RQ_nonneg a b ltac:(lia) Hb). lia. }
  assert (Q : forall a, a < 0 -> srq a b <= 0).
  { intros a Ha. rewrite srq_neg by assumption.
    pose proof (RQ_nonneg (- a) b ltac:(lia) Hb). lia. }
  destruct (Z.lt_trichotomy a1 0) as [L1 | [E1 | G1]].
  - pose proof (Q a1 L1).
    destruct (Z.lt_trichotomy a2 0) as [L2 | [E2 | G2]].
    + rewrite !srq_neg by assumption.
      pose proof (RQ_mono (- a2) (- a1) b ltac:(lia) ltac:(lia) Hb). lia.
    + subst a2. simpl. lia.
    + pose proof (P a2 G2). lia.
  - subst a1. destruct (Z.lt_trichotomy a2 0) as [L2 | [E2 | G2]]; [lia | | ].
    + subst a2. lia.
    + pose proof (P a2 G2). simpl. lia.
  - rewrite !srq_pos by lia.
    pose proof (RQ_mono a1 a2 b ltac:(lia) H Hb). lia.
Qed.

Lemma srq_scale (a b c : Z) : 0 < b -> 0 < c -> srq (a * c) (b * c) = srq a b.
Proof.
  intros Hb Hc. destruct (Z.lt_trichotomy a 0) as [L | [E | G]].
  - rewrite !srq_neg by nia. replace (- (a * c)) with (- a * c) by ring.
    now rewrite RQ_scale.
  - subst a. reflexivity.
  - rewrite !srq_pos by nia. now rewrite RQ_scale.
Qed.

(** ** Division of floats and of ints *)

Section Division.

Local Open Scope float_scope.

(** The quotient of a finite float by a positive finite float is the
    exact quotient, rounded. *)
Lemma div_fin (x y : float) :
  is_fin x = true -> is_fin y = true -> (0 < value y)%Z ->
  is_num (x / y) = true /\ ordf (x / y) = srq (value x * 2 ^ 1074) (value y).
Proof.
  unfold is_fin, is_num, ordf, value. rewrite div_spec. unfold SF64div.
  pose proof (Prim2SF_valid x) as Vx. pose proof (Prim2SF_valid y) as Vy.
  destruct (Prim2SF x) as [sx | sx | | sx mx ex]; try discriminate;
    destruct (Prim2SF y) as [sy | sy | | sy my ey]; try discriminate;
    intros _ _ Hy; cbn [Vz] in Hy; try lia.
  - cbn [SFdiv Vz]. split; reflexivity.
  - destruct sy; cbn [cond_Zopp] in Hy; [lia | ].
    cbn [valid_binary] in *.
    destruct (bounded_facts _ _ Vx) as (Hex & _).
    destruct (bounded_facts _ _ Vy) as (Hey & _).
    cbn [SFdiv Vz cond_Zopp].
    destruct (SFdiv_core_binary prec emax (Zpos mx) ex (Zpos my) ey) as [[q e'] l] eqn:Hc.
    destruct (div_round_ord (xorb sx false) (Zpos mx) ex (Zpos my) ey q e' l
                ltac:(lia) ltac:(lia) (proj1 Hex) (proj1 Hey) Hc) as (O & _ & N).
    split; [exact N | ]. rewrite O. rewrite xorb_false_r.
    pose proof (pow2_pos (ex + 2148) ltac:(lia)).
    rewrite srq_cond by lia. f_equal.
    rewrite cond_Zopp_mul, <- Z.mul_assoc, <- Z.pow_add_r by lia.
    f_equal. f_equal. f_equal. lia.
Qed.

(** Dividing by a positive finite float is monotone. *)
Lemma div_mono_r (c x1 x2 : float) :
  is_fin c = true -> (0 < value c)%Z ->
  is_num x1 = true -> is_num x2 = true -> (ordf x1 <= ordf x2)%Z ->
  is_num (x1 / c) = true /\ is_num (x2 / c) = true
  /\ (ordf (x1 / c) <= ordf (x2 / c))%Z.
Proof.
  intros Fc Pc.
  apply (monotone_operation (fun x => x / c) (fun v => srq (v * 2 ^ 1074) (value c))).
  - intros a b Hab. apply srq_mono; [assumption | ].
    pose proof (pow2_pos 1074 ltac:(lia)). nia.
  - intros x Fx. now apply div_fin.
  - intros x sg I. rewrite div_spec. unfold SF64div. rewrite I. unfold is_fin, value in *.
    destruct (Prim2SF c) as [s | s | | s m e]; try discriminate.
    destruct s; [cbn [Vz cond_Zopp] in Pc; lia | ].
    cbn [SFdiv]. now destruct sg.
Qed.

(** A quotient of two ints that fits is the exact quotient, rounded. *)
Lemma int_true_divide_inr (a b : Z) (f : float) :
  (0 < b)%Z -> int_true_divide a b = inr f ->
  is_fin f = true /\ ordf f = srq (a * 2 ^ 1074) b.
Proof.
  intros Hb. unfold int_true_divide.
  destruct (Z.eqb_spec b 0); [lia | ].
  assert (Eb : (b <? 0)%Z = false) by (apply Z.ltb_ge; lia).
  rewrite Eb, xorb_false_r.
  destruct (Z.eqb_spec a 0) as [-> | Na].
  - change (0 <? 0)%Z with false. cbv iota. intros H. apply ret_inr in H. subst f.
    split; reflexivity.
  - destruct (SFdiv_core_binary prec emax (Z.abs a) 0 (Z.abs b) 0) as [[q e'] l] eqn:Hc.
    destruct (div_round_ord (a <? 0)%Z (Z.abs a) 0 (Z.abs b) 0 q e' l ltac:(lia) ltac:(lia)
                ltac:(lia) ltac:(lia) Hc) as (O & V & N).
    change (0 + 2148)%Z with 2148%Z in O. change (0 + 1074)%Z with 1074%Z in O.
    replace (2 ^ 2148)%Z with (2 ^ 1074 * 2 ^ 1074)%Z in O
      by (rewrite <- Z.pow_add_r by lia; reflexivity).
    rewrite Z.mul_assoc, RQ_scale in O by (try apply pow2_pos; lia).
    pose proof (pow2_pos 1074 ltac:(lia)) as P.
    rewrite srq_cond in O by nia.
    assert (Ha : (cond_Zopp (a <? 0) (Z.abs a * 2 ^ 1074) = a * 2 ^ 1074)%Z).
    { destruct (Z.ltb_spec a 0); cbn [cond_Zopp]; nia. }
    rewrite Ha, Z.abs_eq in O by lia.
    unfold is_fin, ordf.
    destruct (binary_round_aux prec emax (a <? 0)%Z q e' l) as [s | s | | s m e] eqn:R;
      try discriminate; intros H; apply ret_inr in H; subst f;
      rewrite Prim2SF_SF2Prim by assumption; auto.
Qed.

End Division.

(** ** The income *)

Section Income.

Local Open Scope float_scope.

(** An operation whose result on a finite float sits at a position that
    decreases with the value of the float, and which swaps the
    infinities, is antitone. *)
Lemma antitone_operation (F : float -> float) (pos : Z -> Z) :
  (forall a b, (a <= b)%Z -> (pos b <= pos a)%Z) ->
  (forall x, is_fin x = true ->
             is_num (F x) = true /\ ordf (F x) = pos (value x)) ->
  (forall x sg, Prim2SF x = S754_infinity sg ->
                Prim2SF (F x) = S754_infinity (negb sg)) ->
  forall x1 x2,
    is_num x1 = true -> is_num x2 = true -> (ordf x1 <= ordf x2)%Z ->
    is_num (F x1) = true /\ is_num (F x2) = true /\ (ordf (F x2) <= ordf (F x1))%Z.
Proof.
  intros Hg Hfin Hinf x1 x2 N1 N2 H.
  assert (Hnum : forall x, is_num x = true ->
                           is_num (F x) = true /\ (- ord_inf <= ordf (F x) <= ord_inf)%Z).
  { intros x N. split.
    - destruct (num_cases x N) as [(I & _) | [(I & _) | (Fx & _)]].
      + unfold is_num. now rewrite (Hinf x _ I).
      + unfold is_num. now rewrite (Hinf x _ I).
      + exact (proj1 (Hfin x Fx)).
    - apply ord_bounds, Prim2SF_valid. }
  destruct (Hnum x1 N1) as (M1 & B1). destruct (Hnum x2 N2) as (M2 & B2).
  split; [assumption | split; [assumption | ]].
  pose proof ord_inf_pos.
  destruct (num_cases x1 N1) as [(I1 & O1) | [(I1 & O1) | (F1 & O1)]].
  - unfold ordf at 2. rewrite (Hinf x1 _ I1). cbn [negb ord cond_Zopp]. lia.
  - destruct (num_cases x2 N2) as [(I2 & O2) | [(I2 & O2) | (F2 & O2)]]; try lia.
    unfold ordf. rewrite (Hinf x1 _ I1), (Hinf x2 _ I2). lia.
  - destruct (num_cases x2 N2) as [(I2 & O2) | [(I2 & O2) | (F2 & O2)]]; try lia.
    + unfold ordf at 1. rewrite (Hinf x2 _ I2). cbn [negb ord cond_Zopp]. lia.
    + assert (Hv : (value x1 <= value x2)%Z) by (apply value_ordf_le; assumption).
      rewrite (proj2 (Hfin x1 F1)), (proj2 (Hfin x2 F2)). auto.
Qed.

(** Subtracting from a finite float is antitone. *)
Lemma sub_anti_l (c x1 x2 : float) :
  is_fin c = true ->
  is_num x1 = true -> is_num x2 = true -> (ordf x1 <= ordf x2)%Z ->
  is_num (c - x1) = true /\ is_num (c - x2) = true
  /\ (ordf (c - x2) <= ordf (c - x1))%Z.
Proof.
  intros Fc. apply (antitone_operation (fun x => c - x) (fun v => sround (value c - v))).
  - intros; apply sround_u_mono; lia.
  - intros x Fx. now apply sub_fin.
  - intros x sg I. rewrite sub_spec, I. unfold is_fin in Fc.
    destruct (Prim2SF c); try discriminate; reflexivity.
Qed.

(** [max(-0.5, min(0.5, q))], on positions. *)
Lemma income_adj_of_ordf (q : float) :
  is_num q = true ->
  ordf (income_adj_of q) = Z.max (ordf (-0.5)) (Z.min (ordf 0.5) (ordf q)).
Proof.
  intros N.
  assert (N1 : is_num (-0.5) = true) by reflexivity.
  assert (N2 : is_num 0.5 = true) by reflexivity.
  assert (H12 : (ordf (-0.5) < ordf 0.5)%Z) by (vm_compute; reflexivity).
  unfold income_adj_of. rewrite (ltb_ordf q 0.5) by assumption.
  destruct (Z.ltb_spec (ordf q) (ordf 0.5)).
  - rewrite (ltb_ordf (-0.5) q) by assumption.
    destruct (Z.ltb_spec (ordf (-0.5)) (ordf q)); lia.
  - change ((-0.5) <? 0.5) with true. cbv iota. lia.
Qed.

(** The floats two ordered incomes of the same kind contribute are
    ordered the other way round. *)
Lemma income_steps_anti (inc1 inc2 : pynum) (q1 q2 : float) :
  py_le inc1 inc2 = true -> same_kind inc1 inc2 = true ->
  income_steps inc1 = inr (PyFloat q1) -> income_steps inc2 = inr (PyFloat q2) ->
  is_num q1 = true /\ is_num q2 = true /\ (ordf q2 <= ordf q1)%Z.
Proof.
  intros Hle Hk H1 H2.
  destruct inc1 as [z1 | f1], inc2 as [z2 | f2]; try discriminate; cbn [py_le] in Hle.
  - apply Z.leb_le in Hle.
    unfold income_steps in H1, H2. cbn [py_sub bind ret py_truediv] in H1, H2.
    apply bind_inr in H1. destruct H1 as (a1 & Ha1 & H1).
    apply bind_inr in H2. destruct H2 as (a2 & Ha2 & H2).
    apply ret_inr in H1. apply ret_inr in H2.
    injection H1 as ->. injection H2 as ->.
    destruct (int_true_divide_inr (60000 - z1) 100000 q1 ltac:(lia) Ha1) as (F1 & O1).
    destruct (int_true_divide_inr (60000 - z2) 100000 q2 ltac:(lia) Ha2) as (F2 & O2).
    split; [now apply fin_num | split; [now apply fin_num | ]].
    rewrite O1, O2. apply srq_mono; [lia | ].
    pose proof (pow2_pos 1074 ltac:(lia)). nia.
  - apply leb_true_num in Hle. destruct Hle as (N1 & N2 & Hle).
    assert (E : forall f q, income_steps (PyFloat f) = inr (PyFloat q) ->
                            q = (60000 - f) / 100000).
    { intros f q H. vm_compute in H. injection H as <-. reflexivity. }
    apply E in H1. apply E in H2. subst q1 q2.
    destruct (sub_anti_l 60000 f1 f2 eq_refl N1 N2 Hle) as (M1 & M2 & H).
    destruct (div_mono_r 100000 _ _ eq_refl eq_refl M2 M1 H) as (D2 & D1 & H').
    auto.
Qed.

(** The clamped rate is monotone in the income adjustment, whatever the
    base rate and the DTI adjustment. *)
Lemma rate_mono_income (y i1 i2 : float) :
  is_fin i1 = true -> is_fin i2 = true -> (ordf i1 <= ordf i2)%Z ->
  (ordf (clamp_rate (y + i1)) <= ordf (clamp_rate (y + i2)))%Z.
Proof.
  intros F1 F2 H.
  destruct (clamp_rate_pos (y + i1)) as (_ & ->).
  destruct (clamp_rate_pos (y + i2)) as (_ & ->).
  destruct (is_num y) eqn:Ny.
  - destruct (num_cases y Ny) as [(I & _) | [(I & _) | (Fy & _)]].
    + unfold is_num, ordf. rewrite (add_inf_fin y i1 _ I F1), (add_inf_fin y i2 _ I F2). lia.
    + unfold is_num, ordf. rewrite (add_inf_fin y i1 _ I F1), (add_inf_fin y i2 _ I F2). lia.
    + destruct (add_mono_l y i1 i2 Fy (fin_num _ F1) (fin_num _ F2) H) as (M1 & M2 & H').
      rewrite M1, M2. lia.
  - rewrite !(add_nan_l y) by assumption. lia.
Qed.

(** X4: the apr never increases when the income increases, for two int
    incomes or two float incomes and every grade, DTI and loan amount. *)
Theorem apr_nonincreasing_in_income (loan_amnt inc1 inc2 dti grade_num : pynum)
  (r1 r2 : PricingResult) :
  py_le inc1 inc2 = true -> same_kind inc1 inc2 = true ->
  get_real_pricing loan_amnt inc1 dti grade_num = Some r1 ->
  get_real_pricing loan_amnt inc2 dti grade_num = Some r2 ->
  py_le (apr r2) (apr r1) = true.
Proof.
  intros Hle Hk Hr1 Hr2.
  apply get_real_pricing_Some in Hr1. apply get_real_pricing_Some in Hr2.
  destruct (pricing_try_inv _ _ _ _ _ Hr1)
    as (fg & x & q1 & Hg & Hx & Hq1 & -> & _).
  destruct (pricing_try_inv _ _ _ _ _ Hr2)
    as (fg' & x' & q2 & Hg' & Hx' & Hq2 & -> & _).
  rewrite Hg in Hg'. apply inr_inj in Hg'. subst fg'.
  rewrite Hx in Hx'. apply inr_inj in Hx'. subst x'.
  destruct (income_steps_anti _ _ _ _ Hle Hk Hq1 Hq2) as (N1 & N2 & H).
  pose proof (income_adj_of_ordf q1 N1) as O1.
  pose proof (income_adj_of_ordf q2 N2) as O2.
  pose proof (rate_mono_income (8.0 + fg * 2.0 + dti_adj_of x) _ _
                (proj1 (income_adj_class q2)) (proj1 (income_adj_class q1))
                ltac:(lia)) as Hrate.
  cbn [py_le]. rewrite leb_ordf by apply clamp_rate_pos. now apply Z.leb_le.
Qed.

Lemma apr_nonincreasing_in_income_witness :
  py_le (PyInt 40000) (PyInt 65000) = true
  /\ same_kind (PyInt 40000) (PyInt 65000) = true
  /\ exists r1 r2,
       get_real_pricing (PyInt 25000) (PyInt 40000) (PyFloat 18.0) (PyInt 3) = Some r1
       /\ get_real_pricing (PyInt 25000) (PyInt 65000) (PyFloat 18.0) (PyInt 3) = Some r2
       /\ py_le (apr r2) (apr r1) = true.
Proof.
  split; [vm_compute; reflexivity | ]. split; [reflexivity | ]. eexists. eexists.
  split; [vm_compute; reflexivity | ]. split; [vm_compute; reflexivity | ].
  apply (apr_nonincreasing_in_income (PyInt 25000) (PyInt 40000) (PyInt 65000)
           (PyFloat 18.0) (PyInt 3));
    vm_compute; reflexivity.
Defined.

End Income.

(** ** The percentile and the position *)

Section Percentile.

Local Open Scope float_scope.

Lemma count_true_bounds (mask : list bool) :
  (0 <= count_true mask <= Z.of_nat (List.length mask))%Z.
Proof.
  unfold count_true. split; [lia | ].
  apply Nat2Z.inj_le. induction mask as [ | b l IH]; simpl; [lia | ].
  destruct b; simpl; lia.
Qed.

Lemma count_true_all (mask : list bool) :
  (forall b, In b mask -> b = true) ->
  count_true mask = Z.of_nat (List.length mask).
Proof.
  unfold count_true. intros H. f_equal.
  induction mask as [ | b l IH]; simpl; [reflexivity | ].
  rewrite (H b (or_introl eq_refl)). simpl. f_equal. apply IH.
  intros c Hc. apply H. now right.
Qed.

Lemma count_true_none (mask : list bool) :
  (forall b, In b mask -> b = false) -> count_true mask = 0%Z.
Proof.
  unfold count_true. intros H.
  induction mask as [ | b l IH]; simpl; [reflexivity | ].
  rewrite (H b (or_introl eq_refl)). apply IH.
  intros c Hc. apply H. now right.
Qed.

(** A larger rate has at least as many observations at or below it. *)
Lemma count_le_mono (observations : list float) (x1 x2 : float) :
  (x1 <=? x2) = true ->
  (count_true (series_le observations x1) <= count_true (series_le observations x2))%Z.
Proof.
  intros H. apply leb_true_num in H. destruct H as (N1 & N2 & H).
  unfold count_true, series_le. apply Nat2Z.inj_le.
  induction observations as [ | r l IH]; simpl; [lia | ].
  destruct (r <=? x1) eqn:E1.
  - apply leb_true_num in E1. destruct E1 as (Nr & _ & Hr).
    rewrite (leb_ordf r x2) by assumption.
    destruct (Z.leb_spec (ordf r) (ordf x2)); [simpl; lia | lia].
  - destruct (r <=? x2); simpl; lia.
Qed.

Lemma series_le_length (observations : list float) (x : float) :
  List.length (series_le observations x) = List.length observations.
Proof. apply length_map. Qed.

(** The float of a count below 2^1023 is finite, and positive when the
    count is. *)
Lemma Z2float_count (n : Z) :
  (0 <= n < 2 ^ 1023)%Z ->
  is_fin (Z2float n) = true /\ (0 <= value (Z2float n))%Z
  /\ ((0 < n)%Z -> (0 < value (Z2float n))%Z).
Proof.
  intros Hn. unfold is_fin, value, Z2float.
  destruct (Z2SF_fits n ltac:(lia)) as (V & [(-> & E) | (N & m & e & E)]);
    rewrite Prim2SF_SF2Prim by assumption; rewrite E.
  - cbn. lia.
  - destruct (Z.ltb_spec n 0); [lia | ]. cbn [finite_or_zero Vz cond_Zopp].
    rewrite E in V. cbn [valid_binary] in V.
    destruct (bounded_facts _ _ V) as (He & _).
    pose proof (pow2_pos (e + 1074) ltac:(lia)).
    split; [reflexivity | split; [nia | intros; nia]].
Qed.

Lemma Z2float_mono (a b : Z) : (a <= b)%Z -> (ordf (Z2float a) <= ordf (Z2float b))%Z.
Proof.
  intros H. rewrite !Z2float_ordf. apply sround_u_mono; [lia | ].
  pose proof (pow2_pos 1074 ltac:(lia)). nia.
Qed.

(** A positive finite float divided by itself is one. *)
Lemma div_self (y : float) :
  is_fin y = true -> (0 < value y)%Z -> ordf (y / y) = ordf 1.
Proof.
  intros F P. destruct (div_fin y y F F P) as (_ & ->).
  pose proof (pow2_pos 1074 ltac:(lia)) as P2.
  rewrite srq_pos by nia.
  replace (value y * 2 ^ 1074)%Z with (2 ^ 1074 * value y)%Z by ring.
  rewrite RQ_exact by assumption. vm_compute. reflexivity.
Qed.

(** The percentile of a count [c] out of [n] observations, on positions:
    monotone in the count, 0 for no observation and 100 for all. *)
Lemma percentile_of_counts (c1 c2 n : Z) :
  (0 <= c1 <= c2)%Z -> (c2 <= n)%Z -> (0 < n < 2 ^ 1023)%Z ->
  let p c := Z2float c / Z2float n * 100 in
  is_num (p c1) = true /\ is_num (p c2) = true
  /\ (ordf 0 <= ordf (p c1))%Z /\ (ordf (p c1) <= ordf (p c2))%Z
  /\ (ordf (p c2) <= ordf 100)%Z
  /\ ordf (p 0%Z) = ordf 0 /\ ordf (p n) = ordf 100.
Proof.
  intros H1 H2 Hn p. subst p. cbv beta.
  destruct (Z2float_count n ltac:(lia)) as (Fn & _ & Pn). specialize (Pn ltac:(lia)).
  assert (Hnum : forall c, (0 <= c <= n)%Z -> is_num (Z2float c) = true).
  { intros c Hc. apply fin_num. apply Z2float_count. lia. }
  assert (Hdiv : forall a b, (0 <= a <= b)%Z -> (b <= n)%Z ->
            is_num (Z2float a / Z2float n) = true
            /\ is_num (Z2float b / Z2float n) = true
            /\ (ordf (Z2float a / Z2float n) <= ordf (Z2float b / Z2float n))%Z).
  { intros a b Ha Hb.
    apply div_mono_r; try assumption; try (apply Hnum; lia).
    apply Z2float_mono. lia. }
  assert (Hmul : forall x1 x2, is_num x1 = true -> is_num x2 = true ->
            (ordf x1 <= ordf x2)%Z ->
            is_num (x1 * 100) = true /\ is_num (x2 * 100) = true
            /\ (ordf (x1 * 100) <= ordf (x2 * 100))%Z).
  { intros x1 x2. apply mul_mono_r; reflexivity. }
  assert (H0 : ordf (Z2float 0 / Z2float n) = 0%Z).
  { destruct (div_fin (Z2float 0) (Z2float n) eq_refl Fn Pn) as (_ & ->). reflexivity. }
  assert (Hone : ordf (Z2float n / Z2float n) = ordf 1) by now apply div_self.
  destruct (Hdiv 0%Z c1 ltac:(lia) ltac:(lia)) as (D0 & D1 & L01).
  destruct (Hdiv c1 c2 ltac:(lia) ltac:(lia)) as (_ & D2 & L12).
  destruct (Hdiv c2 n ltac:(lia) ltac:(lia)) as (_ & Dn & L2n).
  destruct (Hmul _ _ D1 D2 L12) as (M1 & M2 & L).
  destruct (Hmul 0 _ eq_refl D1 ltac:(change (ordf 0) with 0%Z; lia)) as (_ & _ & Llo).
  destruct (Hmul _ 1 D2 eq_refl ltac:(lia)) as (_ & _ & Lhi).
  destruct (Hmul 0 _ eq_refl D0 ltac:(change (ordf 0) with 0%Z; lia)) as (_ & _ & Z1).
  destruct (Hmul _ 0 D0 eq_refl ltac:(change (ordf 0) with 0%Z; lia)) as (_ & _ & Z2).
  destruct (Hmul 1 _ eq_refl Dn ltac:(lia)) as (_ & _ & T1).
  destruct (Hmul _ 1 Dn eq_refl ltac:(lia)) as (_ & _ & T2).
  change (0 * 100) with 0 in *. change (1 * 100) with 100 in *.
  repeat split; try assumption; lia.
Qed.

(** The percentile of a rate among the observations. *)
Lemma percentile_rank_eq (x : float) (observations : list float) :
  observations <> [] ->
  percentile_rank x observations
  = Some (Z2float (count_true (series_le observations x))
          / Z2float (Z.of_nat (List.length observations)) * 100).
Proof.
  intros H. destruct observations as [ | r l]; [contradiction | ].
  unfold percentile_rank, mean_bool. now rewrite series_le_length.
Qed.

Lemma length_pos (observations : list float) :
  observations <> [] -> (0 < Z.of_nat (List.length observations))%Z.
Proof. destruct observations; [contradiction | simpl; lia]. Qed.

(** The label of a percentile, on positions. *)
Lemma position_label_ordf (p : float) :
  is_num p = true ->
  position_label p
  = (if (ordf p <=? ordf 25)%Z then "Very Competitive"
     else if (ordf p <=? ordf 50)%Z then "Competitive"
     else if (ordf p <=? ordf 75)%Z then "Market Rate"
     else "Premium")%string.
Proof.
  intros N. unfold position_label.
  now rewrite !leb_ordf by (assumption || reflexivity).
Qed.

(** X10: the percentile of any rate among fewer than 2^1023 observations
    (and at least one) is a float between 0 and 100. *)
Theorem percentile_between_0_and_100 (x : float) (observations : list float) :
  observations <> [] ->
  (Z.of_nat (List.length observations) < 2 ^ 1023)%Z ->
  exists p, percentile_rank x observations = Some p
            /\ (0 <=? p) = true /\ (p <=? 100) = true.
Proof.
  intros Hne Hlen. rewrite percentile_rank_eq by assumption. eexists. split; [reflexivity | ].
  pose proof (count_true_bounds (series_le observations x)) as B.
  rewrite series_le_length in B.
  pose proof (length_pos _ Hne) as Hpos.
  destruct (percentile_of_counts _ _ _ (conj (proj1 B) (Z.le_refl _)) (proj2 B)
              (conj Hpos Hlen)) as (N & _ & Hlo & _ & Hhi & _).
  cbv beta in N, Hlo, Hhi.
  rewrite !leb_ordf by (assumption || reflexivity).
  split; apply Z.leb_le; assumption.
Qed.

Lemma percentile_between_0_and_100_witness :
  auto_rates <> []
  /\ (Z.of_nat (List.length auto_rates) < 2 ^ 1023)%Z
  /\ exists p, percentile_rank 11.95 auto_rates = Some p
               /\ (0 <=? p) = true /\ (p <=? 100) = true.
Proof.
  assert (H1 : auto_rates <> []) by discriminate.
  assert (H2 : (Z.of_nat (List.length auto_rates) < 2 ^ 1023)%Z) by reflexivity.
  split; [exact H1 | ]. split; [exact H2 | ].
  exact (percentile_between_0_and_100 11.95 auto_rates H1 H2).
Defined.

(** X11: the percentile never decreases when the rate increases. *)
Theorem percentile_nondecreasing (x1 x2 : float) (observations : list float)
  (p1 p2 : float) :
  (Z.of_nat (List.length observations) < 2 ^ 1023)%Z ->
  (x1 <=? x2) = true ->
  percentile_rank x1 observations = Some p1 ->
  percentile_rank x2 observations = Some p2 ->
  (p1 <=? p2) = true.
Proof.
  intros Hlen Hx H1 H2.
  assert (Hne : observations <> []) by (intros ->; discriminate).
  rewrite percentile_rank_eq in H1, H2 by assumption.
  injection H1 as <-. injection H2 as <-.
  pose proof (count_true_bounds (series_le observations x1)) as B1.
  pose proof (count_true_bounds (series_le observations x2)) as B2.
  rewrite series_le_length in B1, B2.
  pose proof (count_le_mono observations x1 x2 Hx) as Hc.
  destruct (percentile_of_counts _ _ _ (conj (proj1 B1) Hc) (proj2 B2)
              (conj (length_pos _ Hne) Hlen)) as (N1 & N2 & _ & H & _).
  cbv beta in N1, N2, H.
  rewrite leb_ordf by assumption. now apply Z.leb_le.
Qed.

Lemma percentile_nondecreasing_witness :
  (Z.of_nat (List.length auto_rates) < 2 ^ 1023)%Z
  /\ (7.5 <=? 11.95) = true
  /\ percentile_rank 7.5 auto_rates = Some 37.5
  /\ percentile_rank 11.95 auto_rates = Some 50
  /\ (37.5 <=? 50) = true.
Proof.
  assert (H : (Z.of_nat (List.length auto_rates) < 2 ^ 1023)%Z) by reflexivity.
  split; [exact H | ]. split; [reflexivity | ].
  split; [vm_compute; reflexivity | ]. split; [vm_compute; reflexivity | ].
  apply (percentile_nondecreasing 7.5 11.95 auto_rates 37.5 50 H);
    vm_compute; reflexivity.
Defined.

(** X12: a rate at or above every observation is at the percentile 100
    and labelled "Premium"; a rate that no observation is at or below is
    at the percentile 0 and labelled "Very Competitive". *)
Theorem position_at_the_extremes (x : float) (observations : list float) :
  observations <> [] ->
  (Z.of_nat (List.length observations) < 2 ^ 1023)%Z ->
  exists p, percentile_rank x observations = Some p
    /\ ((forall r, In r observations -> (r <=? x) = true) ->
        (p =? 100) = true /\ position_label p = "Premium"%string)
    /\ ((forall r, In r observations -> (r <=? x) = false) ->
        (p =? 0) = true /\ position_label p = "Very Competitive"%string).
Proof.
  intros Hne Hlen. rewrite percentile_rank_eq by assumption. eexists. split; [reflexivity | ].
  pose proof (length_pos _ Hne) as Hpos.
  destruct (percentile_of_counts 0 0 (Z.of_nat (List.length observations))
              ltac:(lia) ltac:(lia) (conj Hpos Hlen))
    as (N0 & _ & _ & _ & _ & E0 & _).
  destruct (percentile_of_counts _ _ _ (conj (Z.lt_le_incl _ _ Hpos) (Z.le_refl _))
              (Z.le_refl _) (conj Hpos Hlen))
    as (Nn & _ & _ & _ & _ & _ & En).
  cbv beta in N0, E0, Nn, En.
  assert (Heq : forall a b, is_num a = true -> is_num b = true ->
                            ordf a = ordf b -> (a =? b) = true).
  { intros a b Na Nb E. rewrite FloatAxioms.eqb_spec. unfold SFeqb.
    rewrite SFcompare_ord by (apply Prim2SF_valid || assumption).
    fold (ordf a) (ordf b). rewrite E, Z.compare_refl. reflexivity. }
  split; intros Hall.
  - rewrite count_true_all.
    + rewrite series_le_length. split; [now apply Heq | ].
      rewrite position_label_ordf, En by assumption. reflexivity.
    + intros b Hb. unfold series_le in Hb. apply in_map_iff in Hb.
      destruct Hb as (r & <- & Hr). now apply Hall.
  - rewrite count_true_none.
    + split; [now apply Heq | ].
      rewrite position_label_ordf, E0 by assumption. reflexivity.
    + intros b Hb. unfold series_le in Hb. apply in_map_iff in Hb.
      destruct Hb as (r & <- & Hr). now apply Hall.
Qed.

Lemma position_at_the_extremes_witness :
  auto_rates <> []
  /\ (Z.of_nat (List.length auto_rates) < 2 ^ 1023)%Z
  /\ (forall r, In r auto_rates -> (r <=? 17.5) = true)
  /\ exists p, percentile_rank 17.5 auto_rates = Some p
               /\ (p =? 100) = true /\ position_label p = "Premium"%string.
Proof.
  assert (H1 : auto_rates <> []) by discriminate.
  assert (H2 : (Z.of_nat (List.length auto_rates) < 2 ^ 1023)%Z) by reflexivity.
  assert (H3 : forall r, In r auto_rates -> (r <=? 17.5) = true).
  { intros r Hin. vm_compute in Hin. decompose [or] Hin; try contradiction;
      subst r; reflexivity. }
  split; [exact H1 | ]. split; [exact H2 | ]. split; [exact H3 | ].
  destruct (position_at_the_extremes 17.5 auto_rates H1 H2) as (p & Hp & Hall & _).
  exists p. split; [exact Hp | exact (Hall H3)].
Defined.

End Percentile.

(** ** The calculator page *)

Section CalculatorPage.

Local Open Scope float_scope.

(** The stored result is always the pricing of the stored inputs. *)
Lemma session_invariant (runs : list (bool * InputParams)) (s : SessionState) :
  (forall o, pricing_result s = Some o ->
             exists w, input_params s = Some w /\ o = price w) ->
  forall o, pricing_result (session runs s) = Some o ->
            exists w, input_params (session runs s) = Some w /\ o = price w.
Proof.
  revert s. induction runs as [ | [clicked w] rest IH]; intros s Hs; [exact Hs | ].
  cbn [session]. apply IH. unfold render_pricing_calculator, customer_column. cbn [fst].
  destruct clicked; [ | exact Hs].
  cbn. intros o [= <-]. eauto.
Qed.

(** X14: through any sequence of runs of the calculator page from a
    fresh session, the results column never fails on a missing key, and
    the result it shows is the pricing of the inputs stored with it,
    whatever the widgets hold now. *)
Theorem results_belong_to_the_stored_inputs (runs : list (bool * InputParams)) :
  let s := session runs fresh_session in
  results_column s <> MissingKey
  /\ forall result params,
       results_column s = ShowResults result params ->
       price params = Some result.
Proof.
  intros s. subst s.
  pose proof (session_invariant runs fresh_session) as Inv.
  specialize (Inv ltac:(cbn; discriminate)).
  unfold results_column.
  destruct (pricing_result (session runs fresh_session)) as [[result | ] | ];
    try (split; [discriminate | intros ? ? [=]]).
  destruct (Inv _ eq_refl) as (w & -> & E).
  split; [discriminate | ]. intros result' params [= <- <-]. now symmetry.
Qed.

(** X15: the tier in the label of the grade selector agrees with the
    risk tier of the priced result for the grades 2, 3 and 5 only. *)
Theorem selector_tier_agrees_for_three_grades
  (loan_amnt annual_inc dti : pynum) (g : Z) (r : PricingResult) :
  (1 <= g <= 7)%Z ->
  get_real_pricing loan_amnt annual_inc dti (PyInt g) = Some r ->
  (risk_tier r = grade_label_tier g <-> (g = 2 \/ g = 3 \/ g = 5)%Z).
Proof.
  intros Hg Hr. apply get_real_pricing_Some in Hr.
  destruct (pricing_try_inv _ _ _ _ _ Hr) as (_ & _ & _ & _ & _ & _ & _ & _ & ->).
  assert (Hcases : (g = 1 \/ g = 2 \/ g = 3 \/ g = 4 \/ g = 5 \/ g = 6 \/ g = 7)%Z)
    by lia.
  decompose [or] Hcases; subst g; cbn; split; intros H; try discriminate; lia || auto.
Qed.

Lemma selector_tier_agrees_for_three_grades_witness :
  exists r, example_call = Some r
    /\ (risk_tier r = grade_label_tier 3 <-> (3 = 2 \/ 3 = 3 \/ 3 = 5)%Z).
Proof.
  eexists. split; [vm_compute; reflexivity | ].
  apply (selector_tier_agrees_for_three_grades
           (PyInt 25000) (PyInt 65000) (PyFloat 18.0) 3);
    [lia | vm_compute; reflexivity].
Defined.

End CalculatorPage.

(** ** Ints too large for a float *)

Lemma RNu_overflow (N : Z) : 2 ^ 2098 <= N -> ord_inf <= RNu 0 N.
Proof.
  intros HN. pose proof (pow2_pos 2098 ltac:(lia)) as P.
  pose proof (Zdigits2_le (2 ^ 2098) N P HN) as D.
  assert (D0 : Zdigits2 (2 ^ 2098) = 2099).
  { apply Zdigits2_unique; [ | lia]. split; [apply Z.le_refl | ].
    apply Z.pow_lt_mono_r; lia. }
  rewrite D0 in D.
  pose proof (rne_shift_bounds 0 N ltac:(lia) ltac:(lia)) as (_ & L).
  cbv zeta in L. specialize (L ltac:(lia)).
  unfold RNu. cbv zeta. unfold ord_inf.
  assert (0 < 2 ^ 52) by (apply pow2_pos; lia). nia.
Qed.

Lemma Z2SF_overflow (z : Z) :
  2 ^ 1024 <= Z.abs z -> float_of_int z = inl OverflowError.
Proof.
  intros Hz. unfold float_of_int.
  destruct (Z2SF_ord z) as (O & V & N).
  assert (P : 2 ^ 2098 = 2 ^ 1024 * 2 ^ 1074) by (rewrite <- Z.pow_add_r by lia; reflexivity).
  pose proof (pow2_pos 1074 ltac:(lia)) as P1.
  pose proof (pow2_pos 1024 ltac:(lia)) as P2.
  pose proof ord_inf_pos as Oi.
  assert (Habs : ord_inf <= Z.abs (ord (Z2SF z))).
  { rewrite O. unfold sround.
    destruct (Z.lt_trichotomy z 0) as [L | [E | G]]; [ | lia | ].
    - rewrite sround_u_neg by nia.
      pose proof (RNu_overflow (- (z * 2 ^ 1074)) ltac:(nia)). lia.
    - rewrite sround_u_pos by nia.
      pose proof (RNu_overflow (z * 2 ^ 1074) ltac:(nia)). lia. }
  destruct (Z2SF z) as [s | s | | s m e]; try reflexivity; try discriminate.
  - cbn [ord] in Habs. lia.
  - cbn [ord valid_binary] in *. pose proof (ord_finite_pos _ _ V).
    destruct s; cbn [cond_Zopp] in Habs; lia.
Qed.

Section Overflow.

Local Open Scope float_scope.

(** X9: an int loan amount, DTI or grade of magnitude 2^1025 or more
    cannot be converted to a float; the function catches the
    [OverflowError] and returns [None]. *)
Theorem huge_int_is_not_priced (z : Z) (a b c : pynum) :
  (2 ^ 1025 <= Z.abs z)%Z ->
  get_real_pricing (PyInt z) a b c = None
  /\ get_real_pricing a b (PyInt z) c = None
  /\ get_real_pricing a b c (PyInt z) = None.
Proof.
  intros Hz.
  assert (P : (2 ^ 1025 = 2 * 2 ^ 1024)%Z) by reflexivity.
  pose proof (pow2_pos 1024 ltac:(lia)) as P2.
  assert (Hnone : forall l i d g,
            (forall r, pricing_try l i d g = inr r -> False) ->
            get_real_pricing l i d g = None).
  { intros l i d g H. unfold get_real_pricing.
    destruct (pricing_try l i d g) as [e | r]; [reflexivity | ].
    exfalso. eapply H. reflexivity. }
  refine (conj _ (conj _ _)); apply Hnone; intros r Hr;
    destruct (pricing_try_result _ _ _ _ _ Hr) as (fl & fg & x & q & Hl & Hg & Hx & _).
  - cbn [as_float] in Hl. rewrite Z2SF_overflow in Hl by lia. discriminate.
  - unfold dti_steps in Hx. cbn [py_sub bind ret as_float] in Hx.
    rewrite Z2SF_overflow in Hx by lia. discriminate.
  - unfold grade_steps in Hg. cbn [py_sub bind ret as_float] in Hg.
    rewrite Z2SF_overflow in Hg by lia. discriminate.
Qed.

Lemma huge_int_is_not_priced_witness :
  (2 ^ 1025 <= Z.abs (- 2 ^ 1030))%Z
  /\ get_real_pricing (PyInt (- 2 ^ 1030)) (PyInt 65000) (PyFloat 18.0) (PyInt 3) = None
  /\ get_real_pricing (PyInt 65000) (PyFloat 18.0) (PyInt (- 2 ^ 1030)) (PyInt 3) = None
  /\ get_real_pricing (PyInt 65000) (PyFloat 18.0) (PyInt 3) (PyInt (- 2 ^ 1030)) = None.
Proof.
  assert (H : (2 ^ 1025 <= Z.abs (- 2 ^ 1030))%Z) by (apply Z.leb_le; vm_compute; reflexivity).
  split; [exact H | ].
  exact (huge_int_is_not_priced (- 2 ^ 1030) (PyInt 65000) (PyFloat 18.0) (PyInt 3) H).
Defined.

End Overflow.

(** ** The page within the ranges of its widgets *)

Section WidgetRanges.

Local Open Scope float_scope.

Lemma small_is_ordinary (z : Z) : (Z.abs z <= 2 ^ 20)%Z -> ordinary (PyInt z).
Proof.
  intros H. cbn [ordinary].
  apply Z.le_lt_trans with (2 ^ 20)%Z; [assumption | ].
  apply Z.pow_lt_mono_r; lia.
Qed.

(** X16: for inputs within the ranges of the widgets a click always
    produces a result, and its apr lies between 7.5 and 21.95: the two
    clamp bounds 5.99 and 29.99 are never reached from the page. *)
Theorem priced_within_widget_ranges (w : InputParams) :
  in_widget_ranges w ->
  exists r, price w = Some r
            /\ py_le (PyFloat 7.5) (apr r) = true
            /\ py_le (apr r) (PyFloat 21.95) = true.
Proof.
  intros (Hl & Hi & Hd0 & Hd & Hg). unfold price.
  assert (B : (2 ^ 20 = 1048576)%Z) by reflexivity.
  assert (Ol : ordinary (PyInt (loan_amount w))) by (apply small_is_ordinary; lia).
  assert (Og : ordinary (PyInt (credit_grade w))) by (apply small_is_ordinary; lia).
  assert (Oi : ordinary (PyInt (annual_income w))) by (apply small_is_ordinary; lia).
  destruct (as_float_ordinary _ Ol) as (fl & Hfl & Hz).
  destruct (grade_steps_ordinary _ Og) as (fg & Hfg).
  destruct (dti_steps_ordinary (PyFloat (debt_to_income w)) I) as (x & Hx).
  destruct (income_steps_ordinary _ Oi) as (q & Hq).
  unfold get_real_pricing.
  rewrite (pricing_try_closed _ _ _ _ _ _ _ _ Hfl Hfg Hx Hq), Hz.
  cbn [py_is_zero]. destruct (Z.eqb_spec (loan_amount w) 0); [lia | ].
  eexists. split; [reflexivity | ]. unfold result_of. cbn [apr py_le].
  (* the lower bound *)
  destruct (rate_sum_of_grades _ _ fg fg x q (proj1 Hg) (Z.le_refl _) (proj2 Hg) Hfg Hfg)
    as (N & _ & Hlo & _).
  destruct (clamp_rate_ordf _ N) as (C & O).
  (* the upper bound: grade 7, DTI 50, income 15000 *)
  destruct (grade_steps_mono (PyInt (credit_grade w)) (PyInt 7) fg 6
              ltac:(apply Z.leb_le; lia) Hfg eq_refl) as (Ng & Ng7 & Hg7).
  destruct (base_rate_mono _ _ Ng Ng7 Hg7) as (Nb & Nb7 & Hb7).
  destruct (dti_steps_mono (PyFloat (debt_to_income w)) (PyFloat 50) x 1.5
              Hd Hx eq_refl) as (Nx & Nx50 & Hx50).
  destruct (dti_adj_of_ordf _ Nx) as (Nd & Od).
  destruct (dti_adj_of_ordf _ Nx50) as (Nd50 & Od50).
  destruct (income_steps_anti (PyInt 15000) (PyInt (annual_income w)) 0.45 q
              ltac:(apply Z.leb_le; lia) eq_refl eq_refl Hq) as (Nq15 & Nq & Hq15).
  pose proof (income_adj_of_ordf _ Nq) as Oq.
  pose proof (income_adj_of_ordf _ Nq15) as Oq15.
  assert (Hdc : Prim2SF (dti_adj_of x) = S754_infinity false \/ is_fin (dti_adj_of x) = true)
    by (destruct (dti_adj_class x) as [E | (F & _)]; auto).
  pose proof (rate_mono_base _ _ (dti_adj_of x) (income_adj_of q) Nb Nb7 Hb7 Hdc
                (proj1 (income_adj_class q))) as S1.
  pose proof (rate_mono_dti (8.0 + 6 * 2.0) (dti_adj_of x) (dti_adj_of 1.5) (income_adj_of q)
                Nd Nd50 ltac:(lia) (proj1 (income_adj_class q))) as S2.
  pose proof (rate_mono_income (8.0 + 6 * 2.0 + dti_adj_of 1.5) (income_adj_of q)
                (income_adj_of 0.45) (proj1 (income_adj_class q))
                (proj1 (income_adj_class 0.45)) ltac:(lia)) as S3.
  assert (Top : ordf (clamp_rate (8.0 + 6 * 2.0 + dti_adj_of 1.5 + income_adj_of 0.45))
                = ordf 21.95) by (vm_compute; reflexivity).
  assert (H75 : (ordf 5.99 <= ordf 7.5 <= ordf 29.99)%Z)
    by (split; vm_compute; discriminate).
  rewrite !leb_ordf by (assumption || reflexivity).
  split; apply Z.leb_le; lia.
Qed.

Lemma priced_within_widget_ranges_witness :
  in_widget_ranges example_inputs
  /\ exists r, price example_inputs = Some r
               /\ py_le (PyFloat 7.5) (apr r) = true
               /\ py_le (apr r) (PyFloat 21.95) = true.
Proof.
  assert (H : in_widget_ranges example_inputs)
    by (unfold in_widget_ranges; cbn; repeat split; lia || reflexivity).
  split; [exact H | exact (priced_within_widget_ranges example_inputs H)].
Defined.

(** X13: against the auto-loan rates of the market table, the apr of a
    grade of the range 1 to 7 is never labelled "Very Competitive", and
    the apr of the grades 6 and 7 is always labelled "Premium". *)
Theorem priced_loans_in_the_market (series_sum : list float -> float)
  (loan_amnt annual_inc dti : pynum) (g : Z) (r : PricingResult) :
  (1 <= g <= 7)%Z ->
  get_real_pricing loan_amnt annual_inc dti (PyInt g) = Some r ->
  exists a p,
    apr r = PyFloat a
    /\ market_comparison series_sum a auto_rates
       = inr (series_mean series_sum auto_rates, Some (p, position_label p))
    /\ position_label p <> "Very Competitive"%string
    /\ ((6 <= g)%Z -> position_label p = "Premium"%string).
Proof.
  intros Hg Hr. apply get_real_pricing_Some in Hr.
  destruct (pricing_try_inv _ _ _ _ _ Hr) as (fg & x & q & Hfg & _ & _ & -> & _).
  destruct (rate_band g fg x q Hg Hfg) as (N & Hlo & _).
  set (a := clamp_rate (8.0 + fg * 2.0 + dti_adj_of x + income_adj_of q)) in *.
  assert (Hne : auto_rates <> []) by discriminate.
  assert (Hlen : (Z.of_nat (List.length auto_rates) < 2 ^ 1023)%Z) by reflexivity.
  exists a. eexists. split; [reflexivity | ].
  unfold market_comparison. rewrite (percentile_rank_eq a auto_rates Hne).
  split; [reflexivity | ].
  set (n := Z.of_nat (List.length auto_rates)) in *.
  assert (Hpos : (0 < n)%Z) by reflexivity.
  pose proof (count_true_bounds (series_le auto_rates a)) as B.
  rewrite series_le_length in B. fold n in B.
  assert (Hcount : forall y, (ordf y <= ordf a)%Z -> is_num y = true ->
            let p := Z2float (count_true (series_le auto_rates a)) / Z2float n * 100 in
            let py := Z2float (count_true (series_le auto_rates y)) / Z2float n * 100 in
            is_num p = true /\ (ordf py <= ordf p)%Z).
  { intros y Hy Ny p py. subst p py.
    assert (Hle : (y <=? a) = true).
    { rewrite leb_ordf by assumption. now apply Z.leb_le. }
    pose proof (count_le_mono auto_rates y a Hle) as Hc.
    pose proof (count_true_bounds (series_le auto_rates y)) as By.
    destruct (percentile_of_counts _ _ n (conj (proj1 By) Hc) (proj2 B) (conj Hpos Hlen))
      as (_ & N2 & _ & H & _).
    auto. }
  split.
  - destruct (Hcount 7.5) as (Np & Hp); [ | reflexivity | ].
    + apply Z.le_trans with (ordf (Z2float (2 * g + 6) - 0.5)); [ | assumption].
      assert (Hc : (g = 1 \/ g = 2 \/ g = 3 \/ g = 4 \/ g = 5 \/ g = 6 \/ g = 7)%Z)
        by lia.
      decompose [or] Hc; subst g; vm_compute; discriminate.
    + rewrite position_label_ordf by assumption.
      assert (E : (ordf 25 < ordf (Z2float (count_true (series_le auto_rates 7.5))
                                   / Z2float n * 100))%Z) by (vm_compute; reflexivity).
      destruct (Z.leb_spec (ordf (Z2float (count_true (series_le auto_rates a)) / Z2float n * 100))
                           (ordf 25)); [lia | ].
      destruct (_ <=? ordf 50)%Z; [discriminate | ].
      destruct (_ <=? ordf 75)%Z; discriminate.
  - intros H6. destruct (Hcount 17.5) as (Np & Hp); [ | reflexivity | ].
    + apply Z.le_trans with (ordf (Z2float (2 * g + 6) - 0.5)); [ | assumption].
      assert (Hc : (g = 6 \/ g = 7)%Z) by lia.
      decompose [or] Hc; subst g; vm_compute; discriminate.
    + rewrite position_label_ordf by assumption.
      assert (E : (ordf 75 < ordf (Z2float (count_true (series_le auto_rates 17.5))
                                   / Z2float n * 100))%Z) by (vm_compute; reflexivity).
      assert (E1 : (ordf 25 < ordf 50 < ordf 75)%Z) by (split; vm_compute; reflexivity).
      destruct (Z.leb_spec (ordf (Z2float (count_true (series_le auto_rates a)) / Z2float n * 100))
                           (ordf 25)); [lia | ].
      destruct (Z.leb_spec (ordf (Z2float (count_true (series_le auto_rates a)) / Z2float n * 100))
                           (ordf 50)); [lia | ].
      destruct (Z.leb_spec (ordf (Z2float (count_true (series_le auto_rates a)) / Z2float n * 100))
                           (ordf 75)); [lia | reflexivity].
Qed.

Lemma priced_loans_in_the_market_witness :
  exists r,
    get_real_pricing (PyInt 25000) (PyInt 65000) (PyFloat 18.0) (PyInt 6) = Some r
    /\ exists a p,
         apr r = PyFloat a
         /\ market_comparison sum_left_to_right a auto_rates
            = inr (series_mean sum_left_to_right auto_rates, Some (p, position_label p))
         /\ position_label p <> "Very Competitive"%string
         /\ ((6 <= 6)%Z -> position_label p = "Premium"%string).
Proof.
  eexists. split; [vm_compute; reflexivity | ].
  apply (priced_loans_in_the_market sum_left_to_right
           (PyInt 25000) (PyInt 65000) (PyFloat 18.0) 6);
    [lia | vm_compute; reflexivity].
Defined.

End WidgetRanges.

(** ** Interval bounds through the float operations *)

Section Intervals.

Local Open Scope float_scope.

Lemma between_refl (x : float) : is_num x = true -> between x x x.
Proof. intros N. split; [assumption | lia]. Qed.

Lemma fin_ordf (x : float) : is_fin x = true -> (- ord_inf < ordf x < ord_inf)%Z.
Proof.
  intros F. destruct (num_cases x (fin_num x F)) as [(I & _) | [(I & _) | (_ & H)]];
    try assumption; unfold is_fin in F; rewrite I in F; discriminate.
Qed.

Lemma between_fin (lo x hi : float) :
  is_fin lo = true -> is_fin hi = true -> between lo x hi -> is_fin x = true.
Proof.
  intros Fl Fh (N & H). pose proof (fin_ordf lo Fl). pose proof (fin_ordf hi Fh).
  apply num_between_fin; [assumption | lia].
Qed.

Lemma between_value (lo x hi : float) :
  is_fin lo = true -> is_fin hi = true -> between lo x hi ->
  is_fin x = true /\ (value lo <= value x <= value hi)%Z.
Proof.
  intros Fl Fh B. pose proof (between_fin lo x hi Fl Fh B) as Fx.
  destruct B as (_ & H1 & H2).
  split; [assumption | ]. split; apply value_ordf_le; assumption.
Qed.

Lemma value_nonneg (x : float) : is_fin x = true -> (0 <= ordf x)%Z -> (0 <= value x)%Z.
Proof.
  intros F H. change 0%Z with (value 0). apply value_ordf_le; [reflexivity | assumption | ].
  exact H.
Qed.

Lemma mul_between (lo1 x hi1 lo2 y hi2 : float) :
  between lo1 x hi1 -> between lo2 y hi2 ->
  is_fin lo1 = true -> is_fin hi1 = true -> is_fin lo2 = true -> is_fin hi2 = true ->
  (0 <= ordf lo1)%Z -> (0 <= ordf lo2)%Z ->
  between (lo1 * lo2) (x * y) (hi1 * hi2).
Proof.
  intros B1 B2 Fl1 Fh1 Fl2 Fh2 P1 P2.
  destruct (between_value _ _ _ Fl1 Fh1 B1) as (Fx & Vx).
  destruct (between_value _ _ _ Fl2 Fh2 B2) as (Fy & Vy).
  pose proof (value_nonneg _ Fl1 P1). pose proof (value_nonneg _ Fl2 P2).
  unfold between. destruct (mul_fin x y Fx Fy) as (N & ->).
  destruct (mul_fin lo1 lo2 Fl1 Fl2) as (_ & ->).
  destruct (mul_fin hi1 hi2 Fh1 Fh2) as (_ & ->).
  split; [assumption | ]. split; apply sround_u_mono; try lia; nia.
Qed.

Lemma add_between (lo1 x hi1 lo2 y hi2 : float) :
  between lo1 x hi1 -> between lo2 y hi2 ->
  is_fin lo1 = true -> is_fin hi1 = true -> is_fin lo2 = true -> is_fin hi2 = true ->
  between (lo1 + lo2) (x + y) (hi1 + hi2).
Proof.
  intros B1 B2 Fl1 Fh1 Fl2 Fh2.
  destruct (between_value _ _ _ Fl1 Fh1 B1) as (Fx & Vx).
  destruct (between_value _ _ _ Fl2 Fh2 B2) as (Fy & Vy).
  unfold between. destruct (add_fin x y Fx Fy) as (N & ->).
  destruct (add_fin lo1 lo2 Fl1 Fl2) as (_ & ->).
  destruct (add_fin hi1 hi2 Fh1 Fh2) as (_ & ->).
  split; [assumption | ]. split; apply sround_u_mono; lia.
Qed.

Lemma sub_between (lo1 x hi1 lo2 y hi2 : float) :
  between lo1 x hi1 -> between lo2 y hi2 ->
  is_fin lo1 = true -> is_fin hi1 = true -> is_fin lo2 = true -> is_fin hi2 = true ->
  between (lo1 - hi2) (x - y) (hi1 - lo2).
Proof.
  intros B1 B2 Fl1 Fh1 Fl2 Fh2.
  destruct (between_value _ _ _ Fl1 Fh1 B1) as (Fx & Vx).
  destruct (between_value _ _ _ Fl2 Fh2 B2) as (Fy & Vy).
  unfold between. destruct (sub_fin x y Fx Fy) as (N & ->).
  destruct (sub_fin lo1 hi2 Fl1 Fh2) as (_ & ->).
  destruct (sub_fin hi1 lo2 Fh1 Fl2) as (_ & ->).
  split; [assumption | ]. split; apply sround_u_mono; lia.
Qed.

Lemma div_between (c lo x hi : float) :
  between lo x hi -> is_num lo = true -> is_num hi = true ->
  is_fin c = true -> (0 < value c)%Z ->
  between (lo / c) (x / c) (hi / c).
Proof.
  intros (N & H1 & H2) Nl Nh Fc Pc.
  destruct (div_mono_r c lo x Fc Pc Nl N H1) as (_ & Nx & L1).
  destruct (div_mono_r c x hi Fc Pc N Nh H2) as (_ & _ & L2).
  split; [assumption | lia].
Qed.

Lemma Z2float_between (a z b : Z) :
  (a <= z <= b)%Z -> between (Z2float a) (Z2float z) (Z2float b).
Proof.
  intros H. split.
  - unfold is_num, Z2float. destruct (Z2SF_ord z) as (_ & V & N).
    now rewrite Prim2SF_SF2Prim.
  - split; apply Z2float_mono; lia.
Qed.

End Intervals.

(** ** The profit within the ranges of the widgets *)

Lemma RQ_pos (A B : Z) : 0 < B -> B <= A -> 0 < RQ A B.
Proof.
  intros HB HA. unfold RQ. cbv zeta.
  pose proof (rnq_shift_bounds A B ltac:(lia) HB) as (Bd & Hk). cbv zeta in Bd, Hk.
  set (k := Z.max (Zdigits2 (A / B) - 53) 0) in *.
  assert (P52 : 0 < 2 ^ 52) by (apply pow2_pos; lia).
  destruct (Z.eq_dec k 0) as [E | NE].
  - rewrite E. rewrite Z.pow_0_r, Z.mul_1_r.
    pose proof (rnq_bounds A B).
    assert (1 <= A / B) by (apply Z.div_le_lower_bound; lia).
    lia.
  - assert (0 < k) by (subst k; lia). nia.
Qed.

Section Profit.

Local Open Scope float_scope.

(** A finite float divided by a positive one that is not larger by a
    factor of 2^1074 is positive. *)
Lemma div_pos_pos (p y : float) :
  is_fin p = true -> is_fin y = true -> (0 < value y)%Z ->
  (value y <= value p * 2 ^ 1074)%Z ->
  (0 <? p / y) = true.
Proof.
  intros Fp Fy Py H. destruct (div_fin p y Fp Fy Py) as (N & O).
  rewrite ltb_ordf by (assumption || reflexivity). apply Z.ltb_lt.
  rewrite O, srq_pos by lia.
  pose proof (RQ_pos _ _ Py H). pose proof ord_inf_pos.
  change (ordf 0) with 0%Z. lia.
Qed.

Ltac side := first [reflexivity | vm_compute; reflexivity | vm_compute; discriminate].

(** Discharge the closed premises of a bound. *)
Ltac closed_premises H :=
  lazymatch type of H with
  | ?A -> _ =>
      let X := fresh in
      assert (X : A) by side; specialize (H X); clear X; closed_premises H
  | _ => idtac
  end.

(** The chain of bounds through the revenue, the costs and the profit,
    for a loan amount and a rate between closed bounds. *)
Ltac profit_chain Bfl Brate risk P :=
  let B1 := fresh "B" in let B2 := fresh "B" in let B3 := fresh "B" in
  let K1 := fresh "K" in let K2 := fresh "K" in let K3 := fresh "K" in
  let K4 := fresh "K" in let K5 := fresh "K" in let K6 := fresh "K" in
  pose proof (div_between 100 _ _ _ Brate) as B1; closed_premises B1;
  pose proof (mul_between _ _ _ _ _ _ Bfl B1) as B2; closed_premises B2;
  pose proof (mul_between _ _ _ _ _ _ B2 (between_refl 4 eq_refl)) as B3;
  closed_premises B3;
  pose proof (mul_between _ _ _ _ _ _ (between_refl risk eq_refl) Bfl) as K1;
  closed_premises K1;
  pose proof (mul_between _ _ _ _ _ _ K1 (between_refl 0.5 eq_refl)) as K2;
  closed_premises K2;
  pose proof (add_between _ _ _ _ _ _ K2 (between_refl 300 eq_refl)) as K3;
  closed_premises K3;
  pose proof (mul_between _ _ _ _ _ _ Bfl (between_refl 0.025 eq_refl)) as K4;
  closed_premises K4;
  pose proof (mul_between _ _ _ _ _ _ K4 (between_refl 4 eq_refl)) as K5;
  closed_premises K5;
  pose proof (add_between _ _ _ _ _ _ K3 K5) as K6; closed_premises K6;
  pose proof (sub_between _ _ _ _ _ _ B3 K6) as P; closed_premises P;
  clear B1 B2 B3 K1 K2 K3 K4 K5 K6.

(** The profit and the margin of a loan between two amounts are
    positive, once the closed bounds of the chain are. *)
Ltac profit_case a b Hfl Brate risk :=
  let Bfl := fresh "Bfl" in let P := fresh "P" in
  pose proof (Z2float_between a _ b Hfl) as Bfl;
  profit_chain Bfl Brate risk P;
  let Fp := fresh "Fp" in let Vp := fresh "Vp" in
  let Ff := fresh "Ff" in let Vf := fresh "Vf" in
  let VP := fresh "VP" in let VF := fresh "VF" in
  pose proof (fun F1 F2 => between_value _ _ _ F1 F2 P) as VP; closed_premises VP;
  pose proof (fun F1 F2 => between_value _ _ _ F1 F2 Bfl) as VF; closed_premises VF;
  destruct VP as (Fp & Vp & _); destruct VF as (Ff & Vf);
  let Np := fresh "Np" in let Op := fresh "Op" in
  destruct P as (Np & Op & _);
  split;
  [ rewrite ltb_ordf by (assumption || reflexivity); apply Z.ltb_lt;
    eapply Z.lt_le_trans; [ | exact Op]; side
  | apply (div_pos_pos _ _ Fp Ff);
    [ eapply Z.lt_le_trans; [ | exact (proj1 Vf)]; side
    | eapply Z.le_trans; [exact (proj2 Vf) | ];
      eapply Z.le_trans; [ | apply Z.mul_le_mono_nonneg_r; [side | exact Vp]]; side ] ].

(** X17: for inputs within the ranges of the widgets the expected profit
    and the profit margin of the result are positive. *)
Theorem profit_within_widget_ranges (w : InputParams) :
  in_widget_ranges w ->
  exists r, price w = Some r
            /\ py_lt (PyFloat 0) (expected_profit r) = true
            /\ py_lt (PyFloat 0) (profit_margin r) = true.
Proof.
  intros (Hl & Hi & Hd0 & Hd & Hg). unfold price.
  assert (B : (2 ^ 20 = 1048576)%Z) by reflexivity.
  assert (Ol : ordinary (PyInt (loan_amount w))) by (apply small_is_ordinary; lia).
  assert (Og : ordinary (PyInt (credit_grade w))) by (apply small_is_ordinary; lia).
  assert (Oi : ordinary (PyInt (annual_income w))) by (apply small_is_ordinary; lia).
  destruct (as_float_ordinary _ Ol) as (fl & Hfl & Hz).
  destruct (grade_steps_ordinary _ Og) as (fg & Hfg).
  destruct (dti_steps_ordinary (PyFloat (debt_to_income w)) I) as (x & Hx).
  destruct (income_steps_ordinary _ Oi) as (q & Hq).
  unfold get_real_pricing.
  rewrite (pricing_try_closed _ _ _ _ _ _ _ _ Hfl Hfg Hx Hq), Hz.
  cbn [py_is_zero]. destruct (Z.eqb_spec (loan_amount w) 0); [lia | ].
  eexists. split; [reflexivity | ]. unfold result_of.
  cbn [expected_profit profit_margin py_lt].
  cbn [as_float] in Hfl. apply float_of_int_inr in Hfl. destruct Hfl as (-> & _ & _).
  destruct (rate_band _ fg x q Hg Hfg) as (N & Hlo & _).
  destruct (clamp_rate_bounds (8.0 + fg * 2.0 + dti_adj_of x + income_adj_of q)) as (_ & Hhi).
  apply leb_true_num in Hhi. destruct Hhi as (_ & _ & Hhi).
  set (rate := clamp_rate (8.0 + fg * 2.0 + dti_adj_of x + income_adj_of q)) in *.
  assert (Brate : between (Z2float (2 * credit_grade w + 6) - 0.5) rate 29.99)
    by (split; [assumption | lia]).
  clearbody rate. clear N Hlo Hhi Hx Hq Hz B Ol Og Oi Hi Hd0 Hd n.
  set (z := loan_amount w) in *. set (g := credit_grade w) in *.
  clearbody z g.
  assert (Hcases : (g = 1 \/ g = 2 \/ g = 3 \/ g = 4 \/ g = 5 \/ g = 6 \/ g = 7)%Z)
    by lia.
  assert (Hloans : (5000 <= z <= 9000 \/ 9000 <= z <= 19000
                    \/ 19000 <= z <= 43000 \/ 43000 <= z <= 50000)%Z) by lia.
  clear Hg Hl.
  decompose [or] Hcases; subst g; vm_compute in Hfg; injection Hfg as <-;
    destruct Hloans as [L | [L | [L | L]]].
  all: match type of L with (?a <= _ <= ?b)%Z =>
         match goal with |- context [clamp_risk ?e] =>
           profit_case a b L Brate (clamp_risk e)
         end
       end.
Qed.

Lemma profit_within_widget_ranges_witness :
  in_widget_ranges example_inputs
  /\ exists r, price example_inputs = Some r
               /\ py_lt (PyFloat 0) (expected_profit r) = true
               /\ py_lt (PyFloat 0) (profit_margin r) = true.
Proof.
  assert (H : in_widget_ranges example_inputs)
    by (unfold in_widget_ranges; cbn; repeat split; lia || reflexivity).
  split; [exact H | exact (profit_within_widget_ranges example_inputs H)].
Defined.

End Profit.
